(** * Workforce monitoring agent: upgrade manager, DLP monitor, behaviour analyzer

  A shallow embedding of the agent's C++ core and the properties its
  specification states about it.

  Conventions of the embedding.
  - [std::string] is [string]; positions are [nat], [npos] is [None].
  - [int] is [Z]; [double] is an exact rational [Q] (rounding is left out;
    the properties below are about order and exact small fractions).
  - [std::unordered_map<std::string, T>] is [gmap string T];
    [std::vector] and [std::deque] are [list], oldest element first.
  - [std::function] callbacks are a flag (registered or not) and every
    invocation is an event appended to a log.
  - libcurl, the filesystem, [system], the clock and the regex engine are
    the environment: their outcomes are inputs of the functions. *)

From Stdlib Require Import String Ascii List ZArith QArith Lia Bool.
From Stdlib Require Import DecimalString.
From stdpp Require Import gmap strings.

Local Open Scope Z_scope.

(** ** std::string operations *)

Module Str.

Definition empty (s : string) : bool :=
  match s with EmptyString => true | _ => false end.

(** [s.find(needle, 0) == pos] seen from the suffix that starts at [pos]. *)
Fixpoint find_from (needle s : string) (pos : nat) : option nat :=
  if String.prefix needle s then Some pos
  else match s with
       | EmptyString => None
       | String _ s' => find_from needle s' (S pos)
       end.

(** [s.find(needle)]; [None] is [std::string::npos]. *)
Definition find (s needle : string) : option nat := find_from needle s 0.

(** [s.find(needle) != std::string::npos] *)
Definition contains (s needle : string) : bool :=
  match find s needle with Some _ => true | None => false end.

(** [s.find(needle) == 0] *)
Definition found_at_0 (s needle : string) : bool :=
  match find s needle with Some O => true | _ => false end.

(** [s.find_last_of(c)] for a single character. *)
Fixpoint find_last_of_from (c : ascii) (s : string) (pos : nat) (acc : option nat)
  : option nat :=
  match s with
  | EmptyString => acc
  | String a s' =>
      find_last_of_from c s' (S pos) (if Ascii.eqb a c then Some pos else acc)
  end.

Definition find_last_of (s : string) (c : ascii) : option nat :=
  find_last_of_from c s 0 None.

(** [s.substr(pos)] and [s.substr(pos, n)], for [pos <= s.size()]. *)
Fixpoint drop (n : nat) (s : string) : string :=
  match n, s with
  | O, _ => s
  | S n', String _ s' => drop n' s'
  | S _, EmptyString => EmptyString
  end.

Fixpoint take (n : nat) (s : string) : string :=
  match n, s with
  | S n', String a s' => String a (take n' s')
  | _, _ => EmptyString
  end.

Definition substr (s : string) (pos n : nat) : string := take n (drop pos s).

(** [::tolower] in the C locale. *)
Definition tolower_ascii (a : ascii) : ascii :=
  let n := nat_of_ascii a in
  if (Nat.leb 65 n && Nat.leb n 90)%bool then ascii_of_nat (n + 32) else a.

Fixpoint tolower (s : string) : string :=
  match s with
  | EmptyString => EmptyString
  | String a s' => String (tolower_ascii a) (tolower s')
  end.

Fixpoint concat (l : list string) : string :=
  match l with
  | [] => EmptyString
  | s :: l' => s +:+ concat l'
  end.

(** [std::to_string(int)] *)
Definition of_Z (z : Z) : string := NilZero.string_of_int (Z.to_int z).

Definition bytes (s : string) : list Z :=
  List.map (fun a => Z.of_nat (nat_of_ascii a)) (list_ascii_of_string s).

Lemma prefix_empty s : String.prefix EmptyString s = true.
Proof. destruct s; reflexivity. Qed.

Lemma prefix_app p s : String.prefix p (p +:+ s) = true.
Proof.
  induction p as [|a p IH]; simpl; [apply prefix_empty|].
  destruct (ascii_dec a a) as [_|n]; [exact IH|contradiction].
Qed.

Lemma prefix_split p s :
  String.prefix p s = true -> exists t, s = p +:+ t.
Proof.
  revert s; induction p as [|a p IH]; intros s H.
  - exists s; reflexivity.
  - destruct s as [|b s]; simpl in H; [discriminate|].
    destruct (ascii_dec a b) as [->|]; [|discriminate].
    destruct (IH _ H) as [t ->]. exists t; reflexivity.
Qed.

(** [contains s needle] says that [needle] occurs somewhere in [s]. *)
Lemma find_from_Some needle s pos k :
  find_from needle s pos = Some k ->
  exists u v, s = u +:+ needle +:+ v /\ k = (pos + String.length u)%nat.
Proof.
  revert pos; induction s as [|a s IH]; intros pos; cbn [find_from].
  - destruct (String.prefix needle EmptyString) eqn:E; [|discriminate].
    intros [= <-]. destruct (prefix_split _ _ E) as [t Ht].
    exists EmptyString, t. split; [exact Ht|simpl; lia].
  - destruct (String.prefix needle (String a s)) eqn:E.
    + intros [= <-]. destruct (prefix_split _ _ E) as [t Ht].
      exists EmptyString, t. split; [exact Ht|simpl; lia].
    + intros H. destruct (IH _ H) as (u & v & -> & ->).
      exists (String a u), v. split; [reflexivity|simpl; lia].
Qed.

Lemma find_from_occurs needle u v pos :
  exists k, find_from needle (u +:+ needle +:+ v) pos = Some k.
Proof.
  revert pos; induction u as [|a u IH]; intros pos.
  - change (EmptyString +:+ needle +:+ v) with (needle +:+ v).
    destruct (needle +:+ v) eqn:E; cbn [find_from];
      rewrite <- E, prefix_app; eauto.
  - change (String a u +:+ needle +:+ v) with (String a (u +:+ needle +:+ v)).
    cbn [find_from].
    destruct (String.prefix needle (String a (u +:+ needle +:+ v)));
      [eauto|apply IH].
Qed.

Lemma contains_iff s needle :
  contains s needle = true <-> exists u v, s = u +:+ needle +:+ v.
Proof.
  unfold contains, find. split.
  - destruct (find_from needle s 0) as [k|] eqn:E; [|discriminate].
    intros _. destruct (find_from_Some _ _ _ _ E) as (u & v & H & _); eauto.
  - intros (u & v & ->).
    destruct (find_from_occurs needle u v 0%nat) as [k ->]. reflexivity.
Qed.

Lemma found_at_0_iff s needle :
  found_at_0 s needle = true <-> String.prefix needle s = true.
Proof.
  unfold found_at_0, find.
  destruct s as [|a s]; cbn [find_from].
  - destruct (String.prefix needle EmptyString); intuition discriminate.
  - destruct (String.prefix needle (String a s)) eqn:E; [tauto|].
    split; [|discriminate].
    destruct (find_from needle s 1) as [k|] eqn:F; [|discriminate].
    destruct (find_from_Some _ _ _ _ F) as (u & v & _ & ->).
    simpl. discriminate.
Qed.

End Str.

(** ** SHA-256 (FIPS 180-4), as computed by OpenSSL's SHA256_* functions *)

Module Sha256.

Definition w32 (x : Z) : Z := x mod 2 ^ 32.
Definition add32 (x y : Z) : Z := w32 (x + y).
Definition rotr (n x : Z) : Z := Z.lor (Z.shiftr x n) (w32 (Z.shiftl x (32 - n))).
Definition not32 (x : Z) : Z := Z.lxor x 0xffffffff.

Definition Ch (x y z : Z) : Z := Z.lxor (Z.land x y) (Z.land (not32 x) z).
Definition Maj (x y z : Z) : Z :=
  Z.lxor (Z.lxor (Z.land x y) (Z.land x z)) (Z.land y z).
Definition Sigma0 (x : Z) : Z := Z.lxor (Z.lxor (rotr 2 x) (rotr 13 x)) (rotr 22 x).
Definition Sigma1 (x : Z) : Z := Z.lxor (Z.lxor (rotr 6 x) (rotr 11 x)) (rotr 25 x).
Definition sigma0 (x : Z) : Z := Z.lxor (Z.lxor (rotr 7 x) (rotr 18 x)) (Z.shiftr x 3).
Definition sigma1 (x : Z) : Z := Z.lxor (Z.lxor (rotr 17 x) (rotr 19 x)) (Z.shiftr x 10).

(** The round constants are the first 32 bits of the fractional parts of
    the cube roots of the first 64 primes, the initial hash value those of
    the square roots of the first 8 primes. *)
Definition is_prime (n : Z) : bool :=
  (1 <? n)
  && List.forallb (fun d => negb (n mod d =? 0))
       (List.map Z.of_nat (List.seq 2 (Z.to_nat (Z.sqrt n) - 1))).

Definition primes : list Z :=
  List.filter is_prime (List.map Z.of_nat (List.seq 2 310)).

(** The integer cube root, bit by bit from the top. *)
Definition cube_root (n : Z) : Z :=
  List.fold_left
    (fun x k => let y := x + 2 ^ Z.of_nat k in if y * y * y <=? n then y else x)
    (List.rev (List.seq 0 40)) 0.

Definition K : list Z :=
  Eval vm_compute in List.map (fun p => w32 (cube_root (p * 2 ^ 96))) primes.

Definition H0 : list Z :=
  Eval vm_compute in
    List.map (fun p => w32 (Z.sqrt (p * 2 ^ 64))) (List.firstn 8 primes).

Example round_constants :
  List.length K = 64%nat /\ List.nth 0 K 0 = 0x428a2f98 /\ List.nth 63 K 0 = 0xc67178f2
  /\ List.nth 0 H0 0 = 0x6a09e667 /\ List.nth 7 H0 0 = 0x5be0cd19.
Proof. vm_compute. repeat split; reflexivity. Qed.

(** Padding: a 1 bit, zeros up to 56 mod 64 bytes, the bit length on 8 bytes. *)
Definition be_bytes (n : nat) (x : Z) : list Z :=
  List.map (fun i => Z.land (Z.shiftr x (8 * Z.of_nat i)) 0xff) (List.rev (List.seq 0 n)).

Definition pad (msg : list Z) : list Z :=
  let len := Z.of_nat (List.length msg) in
  let zeros := Z.to_nat ((55 - len) mod 64) in
  msg ++ [0x80] ++ List.repeat 0 zeros ++ be_bytes 8 (8 * len).

Fixpoint words (fuel : nat) (bs : list Z) : list Z :=
  match fuel, bs with
  | S f, b0 :: b1 :: b2 :: b3 :: rest =>
      (Z.shiftl b0 24 + Z.shiftl b1 16 + Z.shiftl b2 8 + b3) :: words f rest
  | _, _ => []
  end.

(** The message schedule, newest word first. *)
Fixpoint schedule (n : nat) (w : list Z) : list Z :=
  match n with
  | O => w
  | S n' =>
      let x := add32 (add32 (sigma1 (List.nth 1 w 0)) (List.nth 6 w 0))
                     (add32 (sigma0 (List.nth 14 w 0)) (List.nth 15 w 0)) in
      schedule n' (x :: w)
  end.

Definition round (st : list Z) (kw : Z * Z) : list Z :=
  match st with
  | [a; b; c; d; e; f; g; h] =>
      let t1 := add32 (add32 (add32 h (Sigma1 e)) (add32 (Ch e f g) (fst kw))) (snd kw) in
      let t2 := add32 (Sigma0 a) (Maj a b c) in
      [add32 t1 t2; a; b; c; add32 d t1; e; f; g]
  | _ => st
  end.

Definition compress (h : list Z) (block : list Z) : list Z :=
  let w := List.rev (schedule 48 (List.rev (words 16 block))) in
  let st := List.fold_left round (List.combine K w) h in
  List.map (fun p => add32 (fst p) (snd p)) (List.combine h st).

Fixpoint blocks (fuel : nat) (h : list Z) (bs : list Z) : list Z :=
  match fuel, bs with
  | S f, _ :: _ => blocks f (compress h (List.firstn 64 bs)) (List.skipn 64 bs)
  | _, _ => h
  end.

Definition digest (msg : list Z) : list Z :=
  let p := pad msg in
  List.concat (List.map (be_bytes 4) (blocks (List.length p) H0 p)).

(** The streaming interface: the context holds the bytes fed so far. *)
Definition SHA256_CTX : Type := list Z.
Definition SHA256_Init : SHA256_CTX := [].
Definition SHA256_Update (ctx : SHA256_CTX) (data : string) : SHA256_CTX :=
  ctx ++ Str.bytes data.
Definition SHA256_Final (ctx : SHA256_CTX) : list Z := digest ctx.

Definition hex_digit (d : Z) : ascii :=
  ascii_of_nat (Z.to_nat (if d <? 10 then 48 + d else 87 + d)).

(** [std::hex << std::setw(2) << std::setfill('0')] on one byte *)
Definition hex2 (b : Z) : string :=
  String (hex_digit (b / 16)) (String (hex_digit (b mod 16)) EmptyString).

Definition hex (bs : list Z) : string := Str.concat (List.map hex2 bs).

Example digest_empty :
  hex (digest []) = "e3b0c44298fc1c149afbf4c8996fb92427ae41e4649b934ca495991b7852b855".
Proof. vm_compute. reflexivity. Qed.

Example digest_abc :
  hex (digest (Str.bytes "abc"))
  = "ba7816bf8f01cfea414140de5dae2223b00361a396177a9cb410ff61f20015ad".
Proof. vm_compute. reflexivity. Qed.

Example digest_two_blocks :
  hex (digest (Str.bytes "abcdbcdecdefdefgefghfghighijhijkijkljklmklmnlmnomnopnopq"))
  = "248d6a61d20638b8e5c026930c3e6039a33ce45964ff2167f6ecedd419db06c1".
Proof. vm_compute. reflexivity. Qed.

End Sha256.

(** ** C++ exceptions as results *)

(** The exception classes the agent meets: [json::parse_error],
    [json::type_error] and [json::out_of_range] of the JSON library,
    [std::filesystem::filesystem_error], [std::ios_base::failure], and any
    other [std::exception]. *)
Inductive exn : Type :=
| parse_error (what : string)
| type_error (what : string)
| out_of_range (what : string)
| filesystem_error (what : string)
| ios_failure (what : string)
| std_exception (what : string).

Definition what (e : exn) : string :=
match e with
| parse_error w | type_error w | out_of_range w
| filesystem_error w | ios_failure w | std_exception w => w
end.

Inductive Res (A : Type) : Type :=
| Val (a : A)
| Throw (e : exn).
Arguments Val {A} a.
Arguments Throw {A} e.

Definition Res_bind {A B} (r : Res A) (k : A -> Res B) : Res B :=
match r with Val a => k a | Throw e => Throw e end.

Fixpoint Res_mapM {A B} (f : A -> Res B) (l : list A) : Res (list B) :=
match l with
| [] => Val []
| a :: l' => Res_bind (f a) (fun b => Res_bind (Res_mapM f l') (fun bs => Val (b :: bs)))
end.

(** ** The JSON library (nlohmann::json), as far as the agent uses it *)

Module Json.

#[warnings="-register-all"]
Inductive json : Type :=
| JNull
| JBool (b : bool)
| JInt (z : Z)
| JFloat (q : Q)
| JString (s : string)
| JArray (l : list json)
| JObject (m : list (string * json)).

(** Objects are [std::map]s: keys are sorted and a later value for the same
    key replaces the earlier one. *)
Fixpoint obj_insert (k : string) (v : json) (m : list (string * json))
  : list (string * json) :=
  match m with
  | [] => [(k, v)]
  | (k', v') :: m' =>
      match String.compare k k' with
      | Lt => (k, v) :: m
      | Eq => (k, v) :: m'
      | Gt => (k', v') :: obj_insert k v m'
      end
  end.

Fixpoint obj_lookup (k : string) (m : list (string * json)) : option json :=
  match m with
  | [] => None
  | (k', v) :: m' => if String.eqb k k' then Some v else obj_lookup k m'
  end.

(** *** Lexical level *)

Definition is_ws (c : ascii) : bool :=
  let n := nat_of_ascii c in
  (Nat.eqb n 32 || Nat.eqb n 9 || Nat.eqb n 10 || Nat.eqb n 13)%bool.

Fixpoint skip_ws (s : string) : string :=
  match s with
  | String c s' => if is_ws c then skip_ws s' else s
  | EmptyString => EmptyString
  end.

Definition digit_of (c : ascii) : option Z :=
  let n := Z.of_nat (nat_of_ascii c) in
  if (48 <=? n) && (n <=? 57) then Some (n - 48) else None.

Definition hex_of (c : ascii) : option Z :=
  let n := Z.of_nat (nat_of_ascii c) in
  if (48 <=? n) && (n <=? 57) then Some (n - 48)
  else if (97 <=? n) && (n <=? 102) then Some (n - 87)
  else if (65 <=? n) && (n <=? 70) then Some (n - 55)
  else None.

(** A run of decimal digits: its value, its length, what follows. *)
Fixpoint digits (s : string) (acc : Z) (n : nat) : Z * nat * string :=
  match s with
  | String c s' =>
      match digit_of c with
      | Some d => digits s' (10 * acc + d) (S n)
      | None => (acc, n, s)
      end
  | EmptyString => (acc, n, s)
  end.

Definition hex4 (s : string) : option (Z * string) :=
  match s with
  | String a (String b (String c (String d r))) =>
      match hex_of a, hex_of b, hex_of c, hex_of d with
      | Some x, Some y, Some z, Some w => Some (((x * 16 + y) * 16 + z) * 16 + w, r)
      | _, _, _, _ => None
      end
  | _ => None
  end.

Definition chr (z : Z) : ascii := ascii_of_nat (Z.to_nat z).

Definition utf8 (cp : Z) : string :=
  if cp <? 0x80 then String (chr cp) EmptyString
  else if cp <? 0x800 then
    String (chr (0xC0 + cp / 64)) (String (chr (0x80 + cp mod 64)) EmptyString)
  else if cp <? 0x10000 then
    String (chr (0xE0 + cp / 4096))
      (String (chr (0x80 + (cp / 64) mod 64))
         (String (chr (0x80 + cp mod 64)) EmptyString))
  else
    String (chr (0xF0 + cp / 262144))
      (String (chr (0x80 + (cp / 4096) mod 64))
         (String (chr (0x80 + (cp / 64) mod 64))
            (String (chr (0x80 + cp mod 64)) EmptyString))).

(** A [\u] escape, after the [\u]: one code unit, or a surrogate pair. *)
Definition unicode_escape (s : string) : option (string * string) :=
  match hex4 s with
  | None => None
  | Some (u, r) =>
      if (0xD800 <=? u) && (u <=? 0xDBFF) then
        match r with
        | String "\" (String "u" r') =>
            match hex4 r' with
            | Some (l, r'') =>
                if (0xDC00 <=? l) && (l <=? 0xDFFF)
                then Some (utf8 (0x10000 + (u - 0xD800) * 1024 + (l - 0xDC00)), r'')
                else None
            | None => None
            end
        | _ => None
        end
      else if (0xDC00 <=? u) && (u <=? 0xDFFF) then None
      else Some (utf8 u, r)
  end.

Definition simple_escape (c : ascii) : option ascii :=
  match c with
  | "034"%char => Some "034"%char
  | "\"%char => Some "\"%char
  | "/"%char => Some "/"%char
  | "b"%char => Some (ascii_of_nat 8)
  | "f"%char => Some (ascii_of_nat 12)
  | "n"%char => Some (ascii_of_nat 10)
  | "r"%char => Some (ascii_of_nat 13)
  | "t"%char => Some (ascii_of_nat 9)
  | _ => None
  end.

(** The bytes of a string literal have to be well-formed UTF-8: for a
    first byte, the ranges of the bytes that must follow it; [None] for a
    byte that cannot start a character (control characters included). *)
Definition utf8_tail (c : ascii) : option (list (Z * Z)) :=
  let n := Z.of_nat (nat_of_ascii c) in
  if (0x20 <=? n) && (n <=? 0x7F) then Some []
  else if (0xC2 <=? n) && (n <=? 0xDF) then Some [(0x80, 0xBF)]
  else if n =? 0xE0 then Some [(0xA0, 0xBF); (0x80, 0xBF)]
  else if n =? 0xED then Some [(0x80, 0x9F); (0x80, 0xBF)]
  else if (0xE1 <=? n) && (n <=? 0xEF) then Some [(0x80, 0xBF); (0x80, 0xBF)]
  else if n =? 0xF0 then Some [(0x90, 0xBF); (0x80, 0xBF); (0x80, 0xBF)]
  else if (0xF1 <=? n) && (n <=? 0xF3) then Some [(0x80, 0xBF); (0x80, 0xBF); (0x80, 0xBF)]
  else if n =? 0xF4 then Some [(0x80, 0x8F); (0x80, 0xBF); (0x80, 0xBF)]
  else None.

Fixpoint next_bytes_in_range (ranges : list (Z * Z)) (s : string)
  : option (string * string) :=
  match ranges with
  | [] => Some (EmptyString, s)
  | (lo, hi) :: ranges' =>
      match s with
      | String c r =>
          let n := Z.of_nat (nat_of_ascii c) in
          if (lo <=? n) && (n <=? hi) then
            match next_bytes_in_range ranges' r with
            | Some (t, r') => Some (String c t, r')
            | None => None
            end
          else None
      | EmptyString => None
      end
  end.

(** The characters of a string literal, after the opening quote. *)
Fixpoint string_body (fuel : nat) (s : string) : option (string * string) :=
  match fuel with
  | O => None
  | S f =>
      match s with
      | EmptyString => None
      | String "034" r => Some (EmptyString, r)
      | String "\" (String "u" r) =>
          match unicode_escape r with
          | Some (c, r') =>
              match string_body f r' with
              | Some (t, r'') => Some (c +:+ t, r'')
              | None => None
              end
          | None => None
          end
      | String "\" (String e r) =>
          match simple_escape e with
          | Some c =>
              match string_body f r with
              | Some (t, r') => Some (String c t, r')
              | None => None
              end
          | None => None
          end
      | String c r =>
          match utf8_tail c with
          | None => None
          | Some ranges =>
              match next_bytes_in_range ranges r with
              | None => None
              | Some (tail, r1) =>
                  match string_body f r1 with
                  | Some (t, r') => Some (String c (tail +:+ t), r')
                  | None => None
                  end
              end
          end
      end
  end.

(** What the parser throws: a [parse_error] for text that is not JSON (the
    library's message also names the position and the token read last; it
    is shortened here), and an [out_of_range] for a number too large for a
    [double]. *)
Definition syntax_error : exn :=
  parse_error "[json.exception.parse_error.101] syntax error".

Definition number_overflow (token : string) : exn :=
  out_of_range
    ("[json.exception.out_of_range.406] number overflow parsing '" +:+ token +:+ "'").

(** Half an ulp above the largest [double]: from here on [strtod] answers
    infinity. *)
Definition dbl_overflow (q : Q) : bool :=
  Qle_bool (inject_Z (2 ^ 1024 - 2 ^ 970)) (if Qle_bool 0 q then q else Qopp q).

(** A number: an optional minus sign, an integer part without leading
    zeros, an optional fraction, an optional exponent. Without fraction
    and exponent it is an integer when it fits 64 bits ([strtoull], or
    [strtoll] after a minus sign), and a float in every other case. *)
Definition number (s : string) : Res (json * string) :=
  let '(neg, s1) :=
    match s with String "-" r => (true, r) | _ => (false, s) end in
  let '(ip, ni, s2) := digits s1 0 0 in
  let leading_zero :=
    match s1 with String "0" _ => Nat.ltb 1 ni | _ => false end in
  if Nat.eqb ni 0 || leading_zero then Throw syntax_error else
  let frac :=
    match s2 with
    | String "." r =>
        let '(fp, nf, s3) := digits r 0 0 in
        if Nat.eqb nf 0 then None else Some (Some (fp, nf), s3)
    | _ => Some (None, s2)
    end in
  match frac with
  | None => Throw syntax_error
  | Some (fr, s3) =>
      let expo :=
        match s3 with
        | String c r =>
            if (Ascii.eqb c "e" || Ascii.eqb c "E")%bool then
              let '(eneg, r1) :=
                match r with
                | String "-" r' => (true, r')
                | String "+" r' => (false, r')
                | _ => (false, r)
                end in
              let '(ev, ne, s4) := digits r1 0 0 in
              if Nat.eqb ne 0 then None
              else Some (Some (if eneg then - ev else ev), s4)
            else Some (None, s3)
        | EmptyString => Some (None, s3)
        end in
      match expo with
      | None => Throw syntax_error
      | Some (ex, s4) =>
          let z := if neg then - ip else ip in
          let integer :=
            match fr, ex with
            | None, None => (- 2 ^ 63 <=? z) && (z <? 2 ^ 64)
            | _, _ => false
            end in
          if integer then Val (JInt z, s4)
          else
            let '(fp, nf) := match fr with Some p => p | None => (0, O) end in
            let e := match ex with Some e => e | None => 0 end in
            let mant := ip * 10 ^ Z.of_nat nf + fp in
            let scale := e - Z.of_nat nf in
            let q :=
              if 0 <=? scale then inject_Z (mant * 10 ^ scale)
              else Qmake mant (Z.to_pos (10 ^ (- scale))) in
            if dbl_overflow q then
              Throw (number_overflow (Str.take (String.length s - String.length s4) s))
            else Val (JFloat (Qred (if neg then Qopp q else q)), s4)
      end
  end.

(** *** Values *)

Section Containers.
Variable value : string -> Res (json * string).

(** Array elements, positioned at the first element. *)
Fixpoint elements_loop (n : nat) (s : string) (acc : list json)
  : Res (json * string) :=
  match n with
  | O => Throw syntax_error
  | S n' =>
      match value s with
      | Throw e => Throw e
      | Val (v, r) =>
          match skip_ws r with
          | String "," r' => elements_loop n' r' (v :: acc)
          | String "]" r' => Val (JArray (List.rev (v :: acc)), r')
          | _ => Throw syntax_error
          end
      end
  end.

(** Object members, positioned at the first key. *)
Fixpoint members_loop (n : nat) (s : string) (acc : list (string * json))
  : Res (json * string) :=
  match n with
  | O => Throw syntax_error
  | S n' =>
      match skip_ws s with
      | String "034" r =>
          match string_body (String.length r) r with
          | None => Throw syntax_error
          | Some (k, r1) =>
              match skip_ws r1 with
              | String ":" r2 =>
                  match value r2 with
                  | Throw e => Throw e
                  | Val (v, r3) =>
                      match skip_ws r3 with
                      | String "," r4 => members_loop n' r4 (obj_insert k v acc)
                      | String "}" r4 => Val (JObject (obj_insert k v acc), r4)
                      | _ => Throw syntax_error
                      end
                  end
              | _ => Throw syntax_error
              end
          end
      | _ => Throw syntax_error
      end
  end.
End Containers.

Fixpoint value (fuel : nat) (s : string) : Res (json * string) :=
  match fuel with
  | O => Throw syntax_error
  | S f =>
      match skip_ws s with
      | String "{" r =>
          match skip_ws r with
          | String "}" r' => Val (JObject [], r')
          | _ => members_loop (value f) (String.length r) r []
          end
      | String "[" r =>
          match skip_ws r with
          | String "]" r' => Val (JArray [], r')
          | _ => elements_loop (value f) (String.length r) r []
          end
      | String "034" r =>
          match string_body (String.length r) r with
          | Some (t, r') => Val (JString t, r')
          | None => Throw syntax_error
          end
      | String "t" (String "r" (String "u" (String "e" r))) => Val (JBool true, r)
      | String "f" (String "a" (String "l" (String "s" (String "e" r)))) =>
          Val (JBool false, r)
      | String "n" (String "u" (String "l" (String "l" r))) => Val (JNull, r)
      | s' => number s'
      end
  end.

(** A byte order mark at the very start is skipped; its first byte
    followed by anything else is an error. *)
Definition skip_bom (s : string) : option string :=
  match s with
  | String c r =>
      if Nat.eqb (nat_of_ascii c) 239 then
        match r with
        | String c1 (String c2 r') =>
            if (Nat.eqb (nat_of_ascii c1) 187 && Nat.eqb (nat_of_ascii c2) 191)%bool
            then Some r' else None
        | _ => None
        end
      else Some s
  | EmptyString => Some s
  end.

(** [json::parse]: one value, surrounded by whitespace only. *)
Definition parse (s : string) : Res json :=
  match skip_bom s with
  | None => Throw (parse_error "[json.exception.parse_error.101] invalid BOM")
  | Some s =>
      match value (S (String.length s)) s with
      | Val (v, r) =>
          match skip_ws r with
          | EmptyString => Val v
          | _ => Throw (parse_error "[json.exception.parse_error.101] unexpected trailing input")
          end
      | Throw e => Throw e
      end
  end.

(** *** Access *)

(** [j[key]]: a missing key (and a null [j]) reads as null. *)
Definition at_key (j : json) (key : string) : Res json :=
  match j with
  | JNull => Val JNull
  | JObject m => Val (match obj_lookup key m with Some v => v | None => JNull end)
  | _ => Throw (type_error "[json.exception.type_error.305] cannot use operator[] with a string argument")
  end.

Definition wrap_int (z : Z) : Z := (z + 2 ^ 31) mod 2 ^ 32 - 2 ^ 31.

Definition Qtrunc (q : Q) : Z := Z.quot (Qnum q) (Zpos (Qden q)).

(** Conversion to [int], [double] and [std::string]. A boolean converts to
    [int], which is not one of the library's own number types, and not to
    [double], which is. *)
Definition get_int (j : json) : Res Z :=
  match j with
  | JInt z => Val (wrap_int z)
  | JFloat q => Val (wrap_int (Qtrunc q))
  | JBool b => Val (if b then 1 else 0)
  | _ => Throw (type_error "[json.exception.type_error.302] type must be number")
  end.

Definition get_double (j : json) : Res Q :=
  match j with
  | JInt z => Val (inject_Z z)
  | JFloat q => Val q
  | _ => Throw (type_error "[json.exception.type_error.302] type must be number")
  end.

Definition get_string (j : json) : Res string :=
  match j with
  | JString s => Val s
  | _ => Throw (type_error "[json.exception.type_error.302] type must be string")
  end.

(** [j.value(key, default)] *)
Definition value_or {A} (get : json -> Res A) (j : json) (key : string) (dflt : A)
  : Res A :=
  match j with
  | JObject m =>
      match obj_lookup key m with
      | Some v => get v
      | None => Val dflt
      end
  | _ => Throw (type_error "[json.exception.type_error.306] cannot use value()")
  end.

(** [j.contains(key)] *)
Definition contains (j : json) (key : string) : bool :=
  match j with
  | JObject m => match obj_lookup key m with Some _ => true | None => false end
  | _ => false
  end.

(** What a range-based [for] over [j] visits. *)
Definition items (j : json) : list json :=
  match j with
  | JArray l => l
  | JObject m => List.map snd m
  | JNull => []
  | _ => [j]
  end.

(** Examples write JSON text with ['] in place of the double quote. *)
Definition dq_ascii (a : ascii) : ascii :=
  if Ascii.eqb a "'" then "034"%char else a.

Fixpoint dq (s : string) : string :=
  match s with
  | EmptyString => EmptyString
  | String a s' => String (dq_ascii a) (dq s')
  end.

Example parse_descriptor :
  parse (dq "{'major': 1, 'minor':0, 'patch' : 1, 'checksum':'ab', 'ok':[true,null]}")
  = Val (JObject [("checksum", JString "ab"); ("major", JInt 1); ("minor", JInt 0);
                  ("ok", JArray [JBool true; JNull]); ("patch", JInt 1)]).
Proof. vm_compute. reflexivity. Qed.

Example parse_float : parse " 1.5e0 " = Val (JFloat (3 # 2)).
Proof. vm_compute. reflexivity. Qed.

Example parse_text :
  parse "The user looks fine." = Throw (parse_error "[json.exception.parse_error.101] syntax error").
Proof. vm_compute. reflexivity. Qed.

End Json.

(** ** The upgrade manager (upgrade_manager.h, upgrade_manager.cpp) *)

Module Upgrade.

Record VersionInfo : Type := mkVersion {
  major : Z;
  minor : Z;
  patch : Z;
  build : string;
  release_date : string
}.

Definition toString (v : VersionInfo) : string :=
  Str.of_Z (major v) +:+ "." +:+ Str.of_Z (minor v) +:+ "." +:+ Str.of_Z (patch v)
  +:+ (if Str.empty (build v) then "" else "-" +:+ build v).

(** [operator<] and [operator>] *)
Definition version_lt (a b : VersionInfo) : bool :=
  if negb (major a =? major b) then major a <? major b
  else if negb (minor a =? minor b) then minor a <? minor b
  else patch a <? patch b.

Definition version_gt (a b : VersionInfo) : bool := version_lt b a.

Record UpdateInfo : Type := mkUpdate {
  version : VersionInfo;
  download_url : string;
  checksum : string;
  release_notes : string;
  file_size : Z;
  signature : string
}.

Inductive UpgradeStatus : Type :=
| IDLE | CHECKING | DOWNLOADING | VERIFYING | INSTALLING | SUCCESS | FAILED | ROLLBACK.

Definition CURRENT_VERSION : VersionInfo := mkVersion 1 0 0 "dev" "2025-01-06".

(** The fields of [UpgradeManager]; a callback field says whether a
    callback is registered. *)
Record UpgradeManager : Type := mkManager {
  auto_update_interval_ : Z;
  status_ : UpgradeStatus;
  status_message_ : string;
  current_version_ : VersionInfo;
  available_update_ : UpdateInfo;
  update_available_ : bool;
  update_server_url_ : string;
  backup_directory_ : string;
  backup_enabled_ : bool;
  temp_directory_ : string;
  last_network_error_ : string;
  update_available_callback_ : bool;
  progress_callback_ : bool;
  status_callback_ : bool
}.

(** The constructor's initial values. It does not mention
    [available_update_]: the strings of that member are empty, and its
    integers hold whatever the memory held before, which is a parameter
    here. *)
Definition new_manager (g_major g_minor g_patch g_file_size : Z) : UpgradeManager :=
  {| auto_update_interval_ := 60;
     status_ := IDLE;
     status_message_ := "";
     current_version_ := CURRENT_VERSION;
     available_update_ :=
       mkUpdate (mkVersion g_major g_minor g_patch "" "") "" "" "" g_file_size "";
     update_available_ := false;
     update_server_url_ := "http://localhost:5000";
     backup_directory_ := "$HOME/.workforce_agent/backups";
     backup_enabled_ := true;
     temp_directory_ := "/tmp/workforce_agent_updates";
     last_network_error_ := "";
     update_available_callback_ := false;
     progress_callback_ := false;
     status_callback_ := false |}.

Definition set_status (st : UpgradeStatus) (msg : string) (m : UpgradeManager)
  : UpgradeManager :=
  {| auto_update_interval_ := auto_update_interval_ m;
     status_ := st;
     status_message_ := msg;
     current_version_ := current_version_ m;
     available_update_ := available_update_ m;
     update_available_ := update_available_ m;
     update_server_url_ := update_server_url_ m;
     backup_directory_ := backup_directory_ m;
     backup_enabled_ := backup_enabled_ m;
     temp_directory_ := temp_directory_ m;
     last_network_error_ := last_network_error_ m;
     update_available_callback_ := update_available_callback_ m;
     progress_callback_ := progress_callback_ m;
     status_callback_ := status_callback_ m |}.

Definition set_available_update (u : UpdateInfo) (m : UpgradeManager)
  : UpgradeManager :=
  {| auto_update_interval_ := auto_update_interval_ m;
     status_ := status_ m;
     status_message_ := status_message_ m;
     current_version_ := current_version_ m;
     available_update_ := u;
     update_available_ := update_available_ m;
     update_server_url_ := update_server_url_ m;
     backup_directory_ := backup_directory_ m;
     backup_enabled_ := backup_enabled_ m;
     temp_directory_ := temp_directory_ m;
     last_network_error_ := last_network_error_ m;
     update_available_callback_ := update_available_callback_ m;
     progress_callback_ := progress_callback_ m;
     status_callback_ := status_callback_ m |}.

Definition set_update_available (b : bool) (m : UpgradeManager) : UpgradeManager :=
  {| auto_update_interval_ := auto_update_interval_ m;
     status_ := status_ m;
     status_message_ := status_message_ m;
     current_version_ := current_version_ m;
     available_update_ := available_update_ m;
     update_available_ := b;
     update_server_url_ := update_server_url_ m;
     backup_directory_ := backup_directory_ m;
     backup_enabled_ := backup_enabled_ m;
     temp_directory_ := temp_directory_ m;
     last_network_error_ := last_network_error_ m;
     update_available_callback_ := update_available_callback_ m;
     progress_callback_ := progress_callback_ m;
     status_callback_ := status_callback_ m |}.

Definition set_last_network_error (e : string) (m : UpgradeManager) : UpgradeManager :=
  {| auto_update_interval_ := auto_update_interval_ m;
     status_ := status_ m;
     status_message_ := status_message_ m;
     current_version_ := current_version_ m;
     available_update_ := available_update_ m;
     update_available_ := update_available_ m;
     update_server_url_ := update_server_url_ m;
     backup_directory_ := backup_directory_ m;
     backup_enabled_ := backup_enabled_ m;
     temp_directory_ := temp_directory_ m;
     last_network_error_ := e;
     update_available_callback_ := update_available_callback_ m;
     progress_callback_ := progress_callback_ m;
     status_callback_ := status_callback_ m |}.

(** *** The environment *)

Inductive CURLcode : Type :=
| CURLE_OK
| CURLE_COULDNT_RESOLVE_HOST
| CURLE_COULDNT_CONNECT
| CURLE_OPERATION_TIMEDOUT
| CURLE_SSL_CONNECT_ERROR
| CURLE_HTTP_RETURNED_ERROR
| CURLE_other (strerror : string).

(** What one [curl_easy_init] / [curl_easy_perform] does: the bytes handed
    to the write callback, the progress ticks [(dlnow, dltotal)], the
    result code and the HTTP status. *)
Record Transfer : Type := mkTransfer {
  curl_handle : bool;
  received : string;
  ticks : list (Z * Z);
  result : CURLcode;
  response_code : Z
}.

(** How a copy fails, with the text of its error code: before the
    destination is opened, so that every file stays as it was, or while
    writing, after the destination has been created or truncated and
    [written] bytes have reached it. *)
Inductive CopyError : Type :=
| refused (strerror : string)
| broken (written : nat) (strerror : string).

(** Files by path, the path of the running executable
    ([readlink("/proc/self/exe")]), and what the operating system refuses
    or does on its own: copies that fail, by source and destination, files
    that cannot be opened for writing, files whose mode cannot be changed,
    and the effect of a shell command. *)
Record World : Type := mkWorld {
  files : gmap string string;
  self_exe : option string;
  io_error : string -> string -> option CopyError;
  cannot_open : string -> bool;
  chmod_error : string -> option string;
  shell : string -> gmap string string -> Z * gmap string string
}.

Definition set_files (f : gmap string string) (w : World) : World :=
  {| files := f;
     self_exe := self_exe w;
     io_error := io_error w;
     cannot_open := cannot_open w;
     chmod_error := chmod_error w;
     shell := shell w |}.

Record Sys : Type := mkSys { mgr : UpgradeManager; world : World }.

Inductive Method : Type :=
| m_checkForUpdates | m_downloadUpdate | m_installUpdate | m_rollbackUpdate.

(** What a run leaves behind, in order: method entries, every status
    change, and the invocations of the registered callbacks. *)
Inductive Event : Type :=
| called (m : Method)
| status_set (st : UpgradeStatus) (message : string)
| status_callback (st : UpgradeStatus) (message : string)
| progress_callback (percentage : Z) (message : string)
| update_available_callback (u : UpdateInfo).

(** *** State, events and exceptions *)

Definition M (A : Type) : Type := Sys -> Res A * Sys * list Event.

Definition ret {A} (a : A) : M A := fun s => (Val a, s, []).

Definition bind {A B} (m : M A) (k : A -> M B) : M B :=
  fun s =>
    match m s with
    | (Val a, s1, ev1) =>
        match k a s1 with
        | (r, s2, ev2) => (r, s2, ev1 ++ ev2)
        end
    | (Throw e, s1, ev1) => (Throw e, s1, ev1)
    end.

Definition throw {A} (e : exn) : M A := fun s => (Throw e, s, []).

Definition try_catch {A} (m : M A) (h : exn -> M A) : M A :=
  fun s =>
    match m s with
    | (Val a, s1, ev1) => (Val a, s1, ev1)
    | (Throw e, s1, ev1) =>
        match h e s1 with
        | (r, s2, ev2) => (r, s2, ev1 ++ ev2)
        end
    end.

Definition lift {A} (r : Res A) : M A := fun s => (r, s, []).
Definition emit (e : Event) : M unit := fun s => (Val tt, s, [e]).
Definition get_mgr : M UpgradeManager := fun s => (Val (mgr s), s, []).
Definition get_world : M World := fun s => (Val (world s), s, []).
Definition modify_mgr (f : UpgradeManager -> UpgradeManager) : M unit :=
  fun s => (Val tt, mkSys (f (mgr s)) (world s), []).
Definition put_files (f : gmap string string) : M unit :=
  fun s => (Val tt, mkSys (mgr s) (set_files f (world s)), []).

Declare Scope upg_scope.
Delimit Scope upg_scope with upg.
Notation "x <- m ;; k" := (bind m (fun x => k))
  (at level 100, m at next level, right associativity) : upg_scope.
Notation "m ;;; k" := (bind m (fun _ => k))
  (at level 100, right associativity) : upg_scope.
Local Open Scope upg_scope.

Fixpoint forM {A} (l : list A) (f : A -> M unit) : M unit :=
  match l with
  | [] => ret tt
  | a :: l' => f a ;;; forM l' f
  end.

Definition when (b : bool) (m : M unit) : M unit := if b then m else ret tt.

(** *** Status and progress *)

Definition updateStatus (st : UpgradeStatus) (message : string) : M unit :=
  modify_mgr (set_status st message) ;;;
  emit (status_set st message) ;;;
  m <- get_mgr ;;
  when (status_callback_ m) (emit (status_callback st message)).

Definition reportProgress (percentage : Z) (message : string) : M unit :=
  m <- get_mgr ;;
  when (progress_callback_ m) (emit (progress_callback percentage message)).

(** The transfer's progress callback, [progressCallback]. *)
Definition progressCallback (tick : Z * Z) : M unit :=
  let '(dlnow, dltotal) := tick in
  when (0 <? dltotal)
    (reportProgress (Z.quot (dlnow * 100) dltotal) "Downloading update...").

(** *** The filesystem *)

Definition dev_null : string := "/dev/null".

(** [fopen(path, "wb")]: the file exists and is empty afterwards. *)
Definition fopen_wb (path : string) (w : World) : option World :=
  if cannot_open w path then None
  else if String.eqb path dev_null then Some w
  else Some (set_files (<[path := ""]> (files w)) w).

(** The bytes an input stream on [path] delivers. *)
Definition read_file (path : string) (w : World) : option string :=
  if String.eqb path dev_null then Some "" else files w !! path.

Definition fs_exists (path : string) (w : World) : bool :=
  match files w !! path with Some _ => true | None => false end.

(** [fs::remove] *)
Definition fs_remove (path : string) : M unit :=
  w <- get_world ;; put_files (delete path (files w)).

(** [fs::remove_all]: the path and everything below it. *)
Definition below (dir path : string) : bool :=
  String.eqb path dir || String.prefix (dir +:+ "/") path.

Definition fs_remove_all (dir : string) : M unit :=
  w <- get_world ;;
  put_files (filter (fun kv => below dir (fst kv) = false) (files w)).

(** The exception of a failed [fs::copy]. *)
Definition cannot_copy (strerror from to : string) : exn :=
  filesystem_error
    ("filesystem error: cannot copy: " +:+ strerror
     +:+ " [" +:+ from +:+ "] [" +:+ to +:+ "]").

(** [fs::copy] of a regular file, with or without [overwrite_existing].
    The source has to exist and to be another file than the destination,
    and an existing destination is only replaced on request. The
    destination is then opened, which creates or truncates it, and filled;
    a copy that breaks while writing leaves what was written so far. *)
Definition fs_copy (from to : string) (overwrite : bool) : M unit :=
  w <- get_world ;;
  match files w !! from with
  | None => throw (cannot_copy "No such file or directory" from to)
  | Some content =>
      if String.eqb from to then throw (cannot_copy "File exists" from to)
      else if negb overwrite && fs_exists to w then
        throw (cannot_copy "File exists" from to)
      else
        match io_error w from to with
        | Some (refused strerror) => throw (cannot_copy strerror from to)
        | Some (broken written strerror) =>
            put_files (<[to := Str.take written content]> (files w)) ;;;
            throw (cannot_copy strerror from to)
        | None => put_files (<[to := content]> (files w))
        end
  end.

(** [fs::permissions(path, ..., perm_options::add)]. File modes are not
    part of [files]: the call changes no content, and it can fail. *)
Definition fs_permissions (path : string) : M unit :=
  w <- get_world ;;
  if negb (fs_exists path w) then
    throw (filesystem_error
             ("filesystem error: cannot set permissions: No such file or directory ["
              +:+ path +:+ "]"))
  else
    match chmod_error w path with
    | Some strerror =>
        throw (filesystem_error
                 ("filesystem error: cannot set permissions: " +:+ strerror
                  +:+ " [" +:+ path +:+ "]"))
    | None => ret tt
    end.

(** [system(command) == 0] *)
Definition system (command : string) : M Z :=
  w <- get_world ;;
  let '(rc, f) := shell w command (files w) in
  put_files f ;;; ret rc.

(** The last component of a path. *)
Definition filename (path : string) : string :=
  match Str.find_last_of path "/" with
  | Some i => Str.drop (S i) path
  | None => path
  end.

(** *** Network operations *)

Definition network_error (t : Transfer) : string :=
  "Network error: " +:+
  match result t with
  | CURLE_OK => ""
  | CURLE_COULDNT_RESOLVE_HOST =>
      "Could not resolve hostname - check network connection and DNS"
  | CURLE_COULDNT_CONNECT =>
      "Could not connect to server - backend may not be running"
  | CURLE_OPERATION_TIMEDOUT =>
      "Connection timed out - server may be unresponsive"
  | CURLE_SSL_CONNECT_ERROR =>
      "SSL connection failed - certificate or TLS issue"
  | CURLE_HTTP_RETURNED_ERROR =>
      "HTTP error " +:+ Str.of_Z (response_code t) +:+ " - endpoint may not exist"
  | CURLE_other strerror => strerror
  end.

(** [downloadFile]: the output file is opened (and so truncated) and
    closed again; the received bytes go to the returned string, since the
    write callback appends to [response]. *)
Definition downloadFile (t : Transfer) (url output_path : string) : M string :=
  if negb (curl_handle t) then ret ""
  else
    w <- get_world ;;
    match fopen_wb output_path w with
    | None => ret ""
    | Some w' =>
        put_files (files w') ;;;
        forM (ticks t) progressCallback ;;;
        match result t with
        | CURLE_OK => ret (received t)
        | _ => modify_mgr (set_last_network_error (network_error t)) ;;; ret ""
        end
    end.

Definition getLatestVersionInfo (t : Transfer) : M string :=
  m <- get_mgr ;;
  downloadFile t (update_server_url_ m +:+ "/latest") dev_null.

(** *** File verification *)

(** [validateUpdateSignature] *)
Definition validateUpdateSignature (file_path signature : string) : bool :=
  negb (Str.empty signature).

(** The loop of [calculateChecksum]: [file.read(buffer, 8192)] succeeds
    only when all 8192 bytes are there, and only then is the buffer fed
    to the hash. *)
Definition buffer_size : nat := Z.to_nat 8192.

Fixpoint checksum_loop (fuel : nat) (ctx : Sha256.SHA256_CTX) (rest : string)
  : Sha256.SHA256_CTX :=
  match fuel with
  | O => ctx
  | S f =>
      let buffer := Str.take buffer_size rest in
      if Nat.eqb (String.length buffer) buffer_size
      then checksum_loop f (Sha256.SHA256_Update ctx buffer) (Str.drop buffer_size rest)
      else ctx
  end.

Definition calculateChecksum (file_path : string) (w : World) : string :=
  match read_file file_path w with
  | None => ""
  | Some content =>
      Sha256.hex
        (Sha256.SHA256_Final
           (checksum_loop (String.length content) Sha256.SHA256_Init content))
  end.

Definition verifyUpdateFile (file_path expected_checksum : string) (w : World) : bool :=
  String.eqb (calculateChecksum file_path w) expected_checksum.

Definition download_path_of (m : UpgradeManager) (v : VersionInfo) : string :=
  temp_directory_ m +:+ "/update_" +:+ toString v +:+ ".tar.gz".

(** [downloadUpdate] *)
Definition downloadUpdate (t : Transfer) (update : UpdateInfo) : M bool :=
  emit (called m_downloadUpdate) ;;;
  updateStatus DOWNLOADING "Downloading update..." ;;;
  m <- get_mgr ;;
  let download_path := download_path_of m (version update) in
  result <- downloadFile t (download_url update) download_path ;;
  if Str.empty result then
    updateStatus FAILED "Download failed" ;;; ret false
  else
    w <- get_world ;;
    if negb (verifyUpdateFile download_path (checksum update) w) then
      updateStatus FAILED "Checksum verification failed" ;;;
      fs_remove download_path ;;;
      ret false
    else if negb (Str.empty (signature update))
            && negb (validateUpdateSignature download_path (signature update)) then
      updateStatus FAILED "Signature verification failed" ;;;
      fs_remove download_path ;;;
      ret false
    else
      updateStatus IDLE "Update downloaded and verified" ;;; ret true.

(** *** Backup, extraction, replacement *)

Definition backup_path_of (m : UpgradeManager) : string :=
  backup_directory_ m +:+ "/workforce_agent_" +:+ toString (current_version_ m)
  +:+ "_backup".

Definition backupCurrentVersion : M bool :=
  try_catch
    (m <- get_mgr ;;
     w <- get_world ;;
     match self_exe w with
     | None => ret false
     | Some exe_path => fs_copy exe_path (backup_path_of m) true ;;; ret true
     end)
    (fun _ => ret false).

Definition restoreBackup : M bool :=
  try_catch
    (m <- get_mgr ;;
     w <- get_world ;;
     if negb (fs_exists (backup_path_of m) w) then ret false
     else
       match self_exe w with
       | None => ret false
       | Some exe_path => fs_copy (backup_path_of m) exe_path true ;;; ret true
       end)
    (fun _ => ret false).

Definition extractUpdate (archive_path extract_path : string) : M bool :=
  rc <- system ("tar -xzf " +:+ archive_path +:+ " -C " +:+ extract_path) ;;
  ret (rc =? 0).

(** [replaceExecutable] *)
Definition replaceExecutable (new_executable_path : string) : M bool :=
  w <- get_world ;;
  match self_exe w with
  | None => ret false
  | Some exe_path =>
      let backup_path := exe_path +:+ ".old" in
      when (fs_exists backup_path w) (fs_remove backup_path) ;;;
      fs_copy exe_path backup_path false ;;;
      try_catch
        (fs_copy new_executable_path exe_path true ;;;
         fs_permissions exe_path ;;;
         ret true)
        (fun _ => fs_copy backup_path exe_path true ;;; ret false)
  end.

(** The search of [installUpdate] for the new executable: the first
    regular file below [extract_path] whose name is [workforce_agent],
    empty when there is none. Directories are not files of their own here:
    a directory without files below it is iterated as an empty one. *)
Definition find_new_executable (extract_path : string) (w : World) : string :=
  match
    List.filter
      (fun p => String.prefix (extract_path +:+ "/") p
                && String.eqb (filename p) "workforce_agent")
      (List.map fst (map_to_list (files w)))
  with
  | p :: _ => p
  | [] => ""
  end.

(** [rollbackUpdate] *)
Definition rollbackUpdate : M bool :=
  emit (called m_rollbackUpdate) ;;;
  updateStatus ROLLBACK "Rolling back update..." ;;;
  m <- get_mgr ;;
  restored <- (if negb (backup_enabled_ m) then ret false else restoreBackup) ;;
  if negb restored then
    updateStatus FAILED "Rollback failed" ;;; ret false
  else
    updateStatus IDLE "Rollback completed" ;;; ret true.

(** [installUpdate] *)
Definition installUpdate : M bool :=
  emit (called m_installUpdate) ;;;
  updateStatus INSTALLING "Installing update..." ;;;
  m <- get_mgr ;;
  let update_archive := download_path_of m (version (available_update_ m)) in
  let extract_path := temp_directory_ m +:+ "/extracted_update" in
  backed_up <- (if backup_enabled_ m then backupCurrentVersion else ret true) ;;
  if negb backed_up then
    updateStatus FAILED "Failed to create backup" ;;; ret false
  else
    extracted <- extractUpdate update_archive extract_path ;;
    if negb extracted then
      updateStatus FAILED "Failed to extract update" ;;; ret false
    else
      w <- get_world ;;
      let new_executable := find_new_executable extract_path w in
      if Str.empty new_executable then
        updateStatus FAILED "New executable not found in update" ;;; ret false
      else
        replaced <- replaceExecutable new_executable ;;
        if negb replaced then
          updateStatus FAILED "Failed to replace executable" ;;;
          rollbackUpdate ;;;
          ret false
        else
          fs_remove_all extract_path ;;;
          fs_remove update_archive ;;;
          updateStatus SUCCESS "Update installed successfully" ;;;
          ret true.

(** *** Checking for updates *)

Definition set_version (v : VersionInfo) (u : UpdateInfo) : UpdateInfo :=
  mkUpdate v (download_url u) (checksum u) (release_notes u) (file_size u) (signature u).
Definition set_download_url (x : string) (u : UpdateInfo) : UpdateInfo :=
  mkUpdate (version u) x (checksum u) (release_notes u) (file_size u) (signature u).
Definition set_checksum (x : string) (u : UpdateInfo) : UpdateInfo :=
  mkUpdate (version u) (download_url u) x (release_notes u) (file_size u) (signature u).
Definition set_release_notes (x : string) (u : UpdateInfo) : UpdateInfo :=
  mkUpdate (version u) (download_url u) (checksum u) x (file_size u) (signature u).
Definition set_file_size (x : Z) (u : UpdateInfo) : UpdateInfo :=
  mkUpdate (version u) (download_url u) (checksum u) (release_notes u) x (signature u).
Definition set_signature (x : string) (u : UpdateInfo) : UpdateInfo :=
  mkUpdate (version u) (download_url u) (checksum u) (release_notes u) (file_size u) x.

Definition assign_update (f : UpdateInfo -> UpdateInfo) : M unit :=
  modify_mgr (fun m => set_available_update (f (available_update_ m)) m).

Definition json_field {A} (get : Json.json -> Res A) (j : Json.json) (key : string)
  : M A :=
  lift (Res_bind (Json.at_key j key) get).

(** [checkForUpdates] *)
Definition checkForUpdates (t : Transfer) : M bool :=
  emit (called m_checkForUpdates) ;;;
  updateStatus CHECKING "Checking for updates..." ;;;
  try_catch
    (version_info <- getLatestVersionInfo t ;;
     if Str.empty version_info then
       updateStatus FAILED
         "Failed to retrieve version information - backend server may not be running or network connection failed" ;;;
       ret false
     else
       version_json <- lift (Json.parse version_info) ;;
       v_major <- json_field Json.get_int version_json "major" ;;
       v_minor <- json_field Json.get_int version_json "minor" ;;
       v_patch <- json_field Json.get_int version_json "patch" ;;
       v_build <- lift (Json.value_or Json.get_string version_json "build" "") ;;
       v_date <- lift (Json.value_or Json.get_string version_json "release_date" "") ;;
       let latest_version := mkVersion v_major v_minor v_patch v_build v_date in
       m <- get_mgr ;;
       if version_gt latest_version (current_version_ m) then
         assign_update (set_version latest_version) ;;;
         url <- json_field Json.get_string version_json "download_url" ;;
         assign_update (set_download_url url) ;;;
         sum <- json_field Json.get_string version_json "checksum" ;;
         assign_update (set_checksum sum) ;;;
         notes <- lift (Json.value_or Json.get_string version_json "release_notes" "") ;;
         assign_update (set_release_notes notes) ;;;
         size <- lift (Json.value_or Json.get_int version_json "file_size" 0) ;;
         assign_update (set_file_size (size mod 2 ^ 64)) ;;;
         sig <- lift (Json.value_or Json.get_string version_json "signature" "") ;;
         assign_update (set_signature sig) ;;;
         modify_mgr (set_update_available true) ;;;
         updateStatus IDLE ("Update available: " +:+ toString latest_version) ;;;
         m' <- get_mgr ;;
         when (update_available_callback_ m')
           (emit (update_available_callback (available_update_ m'))) ;;;
         ret true
       else
         updateStatus IDLE
           ("No updates available - current version "
            +:+ toString (current_version_ m) +:+ " is up to date") ;;;
         ret false)
    (fun e =>
       match e with
       | parse_error w =>
           updateStatus FAILED
             ("Failed to parse version information from backend - invalid JSON response: "
              +:+ w) ;;;
           ret false
       | type_error w =>
           updateStatus FAILED
             ("Failed to parse version information from backend - missing required fields: "
              +:+ w) ;;;
           ret false
       | _ =>
           updateStatus FAILED ("Error checking for updates: " +:+ what e) ;;;
           ret false
       end).

(** [autoUpdateCheckLoop]: one transfer for every iteration that finds
    [auto_update_running_] set. *)
Definition autoUpdateCheckLoop (ts : list Transfer) : M unit :=
  forM ts (fun t => checkForUpdates t ;;; ret tt).

(** A caller's own sequence of [checkForUpdates] calls, with the results. *)
Fixpoint check_sequence (ts : list Transfer) : M (list bool) :=
  match ts with
  | [] => ret []
  | t :: ts' =>
      b <- checkForUpdates t ;;
      bs <- check_sequence ts' ;;
      ret (b :: bs)
  end.

(** *** Running the operations *)

Definition result_of {A} (r : Res A * Sys * list Event) : Res A := fst (fst r).
Definition state_of {A} (r : Res A * Sys * list Event) : Sys := snd (fst r).
Definition events_of {A} (r : Res A * Sys * list Event) : list Event := snd r.

Definition status_events (cb : bool) (st : UpgradeStatus) (msg : string) : list Event :=
  status_set st msg :: (if cb then [status_callback st msg] else []).

Lemma updateStatus_run st msg s :
  updateStatus st msg s
  = (Val tt, mkSys (set_status st msg (mgr s)) (world s),
     status_events (status_callback_ (mgr s)) st msg).
Proof.
  unfold updateStatus, bind, modify_mgr, emit, get_mgr, when, status_events; simpl.
  destruct (status_callback_ (mgr s)); reflexivity.
Qed.

Definition progress_event (tick : Z * Z) : list Event :=
  if 0 <? snd tick
  then [progress_callback (Z.quot (fst tick * 100) (snd tick)) "Downloading update..."]
  else [].

Definition progress_events (cb : bool) (ticks : list (Z * Z)) : list Event :=
  if cb then List.concat (List.map progress_event ticks) else [].

Lemma progressCallback_run tick s :
  progressCallback tick s
  = (Val tt, s, if progress_callback_ (mgr s) then progress_event tick else []).
Proof.
  destruct tick as [dlnow dltotal].
  unfold progressCallback, when, reportProgress, bind, get_mgr, emit, ret,
    progress_event; simpl.
  destruct (0 <? dltotal); simpl;
    destruct (progress_callback_ (mgr s)); reflexivity.
Qed.

Lemma progress_run ticks s :
  forM ticks progressCallback s
  = (Val tt, s, progress_events (progress_callback_ (mgr s)) ticks).
Proof.
  unfold progress_events.
  induction ticks as [|tick ticks IH]; cbn [forM].
  - destruct (progress_callback_ (mgr s)); reflexivity.
  - unfold bind. rewrite progressCallback_run, IH.
    destruct (progress_callback_ (mgr s)); reflexivity.
Qed.

Lemma progress_events_only cb ticks e :
  In e (progress_events cb ticks) -> exists p m, e = progress_callback p m.
Proof.
  unfold progress_events. destruct cb; [|intros []].
  induction ticks as [|tick ticks IH]; simpl; [intros []|].
  rewrite in_app_iff. intros [H|H]; [|auto].
  unfold progress_event in H. destruct (0 <? snd tick); [|destruct H].
  destruct H as [<-|[]]. eauto.
Qed.

Lemma in_status_events cb st msg e :
  In e (status_events cb st msg) ->
  e = status_set st msg \/ e = status_callback st msg.
Proof.
  unfold status_events. destruct cb; cbn [In]; intuition congruence.
Qed.

(** Case analysis on the membership of an event in a run's events. *)
Ltac split_in H :=
  repeat match type of H with
    | In _ (_ ++ _) => apply in_app_or in H; destruct H as [H|H]
    | In _ (status_events _ _ _) =>
        apply in_status_events in H; destruct H as [H|H]
    | In _ (progress_events _ _) =>
        apply progress_events_only in H; destruct H as (? & ? & H)
    | In _ (_ :: _) => destruct H as [H|H]
    | In _ [] => destruct H
    end.

(** What [downloadFile] does, case by case. *)
Definition opened (path : string) (s : Sys) : Sys :=
  if String.eqb path dev_null then mkSys (mgr s) (set_files (files (world s)) (world s))
  else mkSys (mgr s) (set_files (<[path := ""]> (files (world s))) (world s)).

Lemma downloadFile_run t url path s :
  downloadFile t url path s
  = if negb (curl_handle t) then (Val "", s, [])
    else if cannot_open (world s) path then (Val "", s, [])
    else
      let evs := progress_events (progress_callback_ (mgr s)) (ticks t) in
      match result t with
      | CURLE_OK => (Val (received t), opened path s, evs)
      | _ =>
          (Val "",
           mkSys (set_last_network_error (network_error t) (mgr s))
                 (world (opened path s)),
           evs)
      end.
Proof.
  unfold downloadFile, opened, fopen_wb.
  destruct (curl_handle t); simpl; [|reflexivity].
  unfold bind at 1. unfold get_world at 1. simpl.
  destruct (cannot_open (world s) path); [reflexivity|].
  destruct (String.eqb path dev_null); unfold bind, put_files; simpl;
    rewrite progress_run; simpl;
    destruct (result t); simpl; rewrite ?app_nil_r; reflexivity.
Qed.

Definition with_status (st : UpgradeStatus) (msg : string) (s : Sys) : Sys :=
  mkSys (set_status st msg (mgr s)) (world s).

Definition removed (path : string) (s : Sys) : Sys :=
  mkSys (mgr s) (set_files (delete path (files (world s))) (world s)).

Lemma fs_remove_run path s : fs_remove path s = (Val tt, removed path s, []).
Proof. reflexivity. Qed.

(** [downloadUpdate], outcome by outcome. *)
Lemma downloadUpdate_run t u s :
  downloadUpdate t u s
  = let path := download_path_of (mgr s) (version u) in
    let cb := status_callback_ (mgr s) in
    match downloadFile t (download_url u) path
            (with_status DOWNLOADING "Downloading update..." s) with
    | (Val body, s1, ev1) =>
        let head :=
          called m_downloadUpdate
          :: status_events cb DOWNLOADING "Downloading update..." ++ ev1 in
        let cb1 := status_callback_ (mgr s1) in
        if Str.empty body then
          (Val false, with_status FAILED "Download failed" s1,
           head ++ status_events cb1 FAILED "Download failed")
        else if verifyUpdateFile path (checksum u) (world s1) then
          (Val true, with_status IDLE "Update downloaded and verified" s1,
           head ++ status_events cb1 IDLE "Update downloaded and verified")
        else
          (Val false,
           removed path (with_status FAILED "Checksum verification failed" s1),
           head ++ status_events cb1 FAILED "Checksum verification failed")
    | (Throw e, s1, ev1) =>
        (Throw e, s1,
         called m_downloadUpdate
         :: status_events cb DOWNLOADING "Downloading update..." ++ ev1)
    end.
Proof.
  unfold downloadUpdate.
  unfold bind at 1, emit at 1.
  unfold bind at 1. rewrite updateStatus_run.
  unfold bind at 1, get_mgr at 1. cbn [mgr].
  unfold bind at 1.
  change (download_path_of (set_status DOWNLOADING "Downloading update..." (mgr s))
            (version u))
    with (download_path_of (mgr s) (version u)).
  fold (with_status DOWNLOADING "Downloading update..." s).
  destruct (downloadFile t (download_url u) (download_path_of (mgr s) (version u))
              (with_status DOWNLOADING "Downloading update..." s))
    as [[[body|e] s1] ev1]; cbn zeta; [|reflexivity].
  destruct (Str.empty body).
  - unfold bind. rewrite updateStatus_run. cbn [ret app]. rewrite !app_nil_r.
    rewrite <- !app_assoc. reflexivity.
  - unfold bind at 1, get_world at 1.
    destruct (verifyUpdateFile (download_path_of (mgr s) (version u)) (checksum u)
                (world s1)); cbn [negb].
    + unfold validateUpdateSignature.
      destruct (Str.empty (signature u)); cbn [negb andb];
        unfold bind; rewrite updateStatus_run; cbn [ret app];
        rewrite !app_nil_r, <- !app_assoc; reflexivity.
    + unfold bind. rewrite updateStatus_run, fs_remove_run. cbn [ret app].
      rewrite !app_nil_r, <- !app_assoc. reflexivity.
Qed.

(** The SHA-256 digest of a file's bytes, in lower-case hexadecimal. *)
Definition sha256_hex (content : string) : string :=
  Sha256.hex (Sha256.digest (Str.bytes content)).

Lemma read_opened path s : read_file path (world (opened path s)) = Some "".
Proof.
  unfold read_file, opened. destruct (String.eqb path dev_null) eqn:E; [reflexivity|].
  cbn [world files set_files]. apply lookup_insert_eq.
Qed.

Lemma calculateChecksum_empty path w :
  read_file path w = Some "" -> calculateChecksum path w = sha256_hex "".
Proof.
  unfold calculateChecksum, sha256_hex, Sha256.SHA256_Final. intros ->.
  do 2 f_equal.
Qed.

(** A manager as constructed (over zeroed memory), an installed executable,
    a network that answers, an operating system without faults and without
    [tar]. *)
Definition sample_world : World :=
  {| files := {[ "/usr/local/bin/workforce_agent" := "ELF-1.0.0" ]};
     self_exe := Some "/usr/local/bin/workforce_agent";
     io_error := fun _ _ => None;
     cannot_open := fun _ => false;
     chmod_error := fun _ => None;
     shell := fun _ f => (2, f) |}.

Definition sample_sys : Sys := mkSys (new_manager 0 0 0 0) sample_world.

Definition sample_transfer (body : string) : Transfer :=
  {| curl_handle := true;
     received := body;
     ticks := [(50, 100); (100, 100)];
     result := CURLE_OK;
     response_code := 200 |}.

(** The descriptor of version 1.0.1; its checksum is the SHA-256 digest
    of no input at all. *)
Definition sample_update : UpdateInfo :=
  {| version := mkVersion 1 0 1 "" "";
     download_url := "https://updates.example.com/agent-1.0.1.tar.gz";
     checksum := "e3b0c44298fc1c149afbf4c8996fb92427ae41e4649b934ca495991b7852b855";
     release_notes := "";
     file_size := 3;
     signature := "" |}.

(** C1 fails on the code. The server sends the three bytes [abc] for a
    descriptor whose checksum is not their digest: [downloadUpdate] returns
    true, reports the update as downloaded and verified, and keeps the temp
    file, which is empty, since [downloadFile] hands the body to the
    returned string and not to the file it opened. The same download under
    the digest of [abc] is rejected. *)
Theorem downloadUpdate_accepts_mismatch :
  let path := "/tmp/workforce_agent_updates/update_1.0.1.tar.gz" in
  let r := downloadUpdate (sample_transfer "abc") sample_update sample_sys in
  let right := set_checksum (sha256_hex "abc") sample_update in
  sha256_hex "abc" <> checksum sample_update
  /\ result_of r = Val true
  /\ status_ (mgr (state_of r)) = IDLE
  /\ status_message_ (mgr (state_of r)) = "Update downloaded and verified"
  /\ files (world (state_of r)) !! path = Some ""
  /\ result_of (downloadUpdate (sample_transfer "abc") right sample_sys) = Val false.
Proof.
  cbn zeta. split; [vm_compute; discriminate|].
  repeat split; vm_compute; reflexivity.
Qed.

(** C10. [validateUpdateSignature] answers true for every non-empty
    signature and false for the empty one, whatever the file path (the file
    is not read at all); so the outcome of [downloadUpdate] does not depend
    on the signature of the descriptor, and a run never fails for another
    reason than the download or the checksum. *)
Theorem validateUpdateSignature_nonempty_only :
  (forall file_path c sig,
      validateUpdateSignature file_path (String c sig) = true)
  /\ (forall file_path, validateUpdateSignature file_path "" = false)
  /\ (forall t u sig s,
         downloadUpdate t (set_signature sig u) s = downloadUpdate t u s)
  /\ (forall t u s msg,
         In (status_set FAILED msg) (events_of (downloadUpdate t u s)) ->
         msg = "Download failed" \/ msg = "Checksum verification failed").
Proof.
  split; [reflexivity|]. split; [reflexivity|]. split.
  - intros t u sig s. rewrite !downloadUpdate_run. reflexivity.
  - intros t u s msg. rewrite downloadUpdate_run. cbn zeta.
    rewrite downloadFile_run.
    destruct (curl_handle t); cbn [negb Str.empty];
      [destruct (cannot_open _ _); cbn [Str.empty];
       [|cbn zeta; destruct (result t); cbn [Str.empty];
         try destruct (Str.empty (received t));
         try destruct (verifyUpdateFile _ _ _)]|];
      unfold events_of; cbn [snd]; intros H; split_in H;
      try discriminate; injection H as <-; auto.
Qed.

(** *** Operations that only touch files *)

(** A quiet operation emits no event and leaves the manager's fields alone. *)
Definition quiet {A} (m : M A) : Prop :=
  forall s, events_of (m s) = [] /\ mgr (state_of (m s)) = mgr s.

Lemma quiet_ret {A} (a : A) : quiet (ret a).
Proof. intros s. split; reflexivity. Qed.

Lemma quiet_throw {A} e : quiet (@throw A e).
Proof. intros s. split; reflexivity. Qed.

Lemma quiet_get_world : quiet get_world.
Proof. intros s. split; reflexivity. Qed.

Lemma quiet_get_mgr : quiet get_mgr.
Proof. intros s. split; reflexivity. Qed.

Lemma quiet_put_files f : quiet (put_files f).
Proof. intros s. split; reflexivity. Qed.

Lemma quiet_bind {A B} (m : M A) (k : A -> M B) :
  quiet m -> (forall a, quiet (k a)) -> quiet (bind m k).
Proof.
  intros Hm Hk s. unfold bind, events_of, state_of.
  destruct (Hm s) as [E1 E2]. unfold events_of, state_of in E1, E2.
  destruct (m s) as [[[a|e] s1] ev1]; cbn [fst snd] in *; subst ev1.
  - destruct (Hk a s1) as [F1 F2]. unfold events_of, state_of in F1, F2.
    destruct (k a s1) as [[r s2] ev2]; cbn [fst snd] in *; subst ev2.
    split; [reflexivity|congruence].
  - split; [reflexivity|assumption].
Qed.

Lemma quiet_try_catch {A} (m : M A) (h : exn -> M A) :
  quiet m -> (forall e, quiet (h e)) -> quiet (try_catch m h).
Proof.
  intros Hm Hh s. unfold try_catch, events_of, state_of.
  destruct (Hm s) as [E1 E2]. unfold events_of, state_of in E1, E2.
  destruct (m s) as [[[a|e] s1] ev1]; cbn [fst snd] in *; subst ev1.
  - split; [reflexivity|assumption].
  - destruct (Hh e s1) as [F1 F2]. unfold events_of, state_of in F1, F2.
    destruct (h e s1) as [[r s2] ev2]; cbn [fst snd] in *; subst ev2.
    split; [reflexivity|congruence].
Qed.

Lemma quiet_when b m : quiet m -> quiet (when b m).
Proof. destruct b; [auto|intros _; apply quiet_ret]. Qed.

Create HintDb quiet.
#[local] Hint Resolve quiet_ret quiet_throw quiet_get_world quiet_get_mgr
  quiet_put_files quiet_when : quiet.

Ltac quiet_step :=
  first [ apply quiet_bind; [|intros ?]
        | apply quiet_try_catch; [|intros ?]
        | solve [auto with quiet]
        | match goal with
          | |- quiet (match ?x with _ => _ end) => destruct x
          end ].

Lemma quiet_fs_remove path : quiet (fs_remove path).
Proof. unfold fs_remove. repeat quiet_step. Qed.

Lemma quiet_fs_remove_all dir : quiet (fs_remove_all dir).
Proof. unfold fs_remove_all. repeat quiet_step. Qed.

Lemma quiet_fs_copy from to o : quiet (fs_copy from to o).
Proof. unfold fs_copy. repeat quiet_step. Qed.

Lemma quiet_fs_permissions path : quiet (fs_permissions path).
Proof. unfold fs_permissions. repeat quiet_step. Qed.

Lemma quiet_system command : quiet (system command).
Proof. unfold system. repeat quiet_step. Qed.

#[local] Hint Resolve quiet_fs_remove quiet_fs_remove_all quiet_fs_copy
  quiet_fs_permissions quiet_system : quiet.

Lemma quiet_backupCurrentVersion : quiet backupCurrentVersion.
Proof. unfold backupCurrentVersion. repeat quiet_step. Qed.

Lemma quiet_restoreBackup : quiet restoreBackup.
Proof. unfold restoreBackup. repeat quiet_step. Qed.

Lemma quiet_extractUpdate archive dir : quiet (extractUpdate archive dir).
Proof. unfold extractUpdate. repeat quiet_step. Qed.

Lemma quiet_replaceExecutable path : quiet (replaceExecutable path).
Proof. unfold replaceExecutable. repeat quiet_step. Qed.

(** Running a quiet operation: its result and the new files. *)
Lemma quiet_run {A} (m : M A) s :
  quiet m -> exists r w, m s = (r, mkSys (mgr s) w, []).
Proof.
  intros H. destruct (H s) as [E1 E2]. unfold events_of, state_of in E1, E2.
  destruct (m s) as [[r [g w]] ev]; cbn [fst snd mgr] in *; subst.
  eauto.
Qed.

Lemma try_false_run (m : M bool) s :
  quiet m ->
  exists b w, try_catch m (fun _ => ret false) s = (Val b, mkSys (mgr s) w, []).
Proof.
  intros H. destruct (quiet_run m s H) as (r & w & E).
  unfold try_catch. rewrite E. destruct r as [b|e]; cbn; eauto.
Qed.

Lemma restoreBackup_run s :
  exists b w, restoreBackup s = (Val b, mkSys (mgr s) w, []).
Proof. apply try_false_run. repeat quiet_step. Qed.

Lemma backupCurrentVersion_run s :
  exists b w, backupCurrentVersion s = (Val b, mkSys (mgr s) w, []).
Proof. apply try_false_run. repeat quiet_step. Qed.

Lemma extractUpdate_run archive dir s :
  exists b w, extractUpdate archive dir s = (Val b, mkSys (mgr s) w, []).
Proof.
  unfold extractUpdate, system, bind, get_world, put_files, ret. cbn.
  destruct (shell (world s) _ (files (world s))) as [rc f]. cbn. eauto.
Qed.

(** The events of [rollbackUpdate], by its result. *)
Definition rollback_events (cb ok : bool) : list Event :=
  called m_rollbackUpdate
  :: status_events cb ROLLBACK "Rolling back update..."
  ++ (if ok then status_events cb IDLE "Rollback completed"
      else status_events cb FAILED "Rollback failed").

Lemma rollbackUpdate_run s :
  exists ok s',
    rollbackUpdate s = (Val ok, s', rollback_events (status_callback_ (mgr s)) ok)
    /\ status_callback_ (mgr s') = status_callback_ (mgr s).
Proof.
  unfold rollbackUpdate, rollback_events.
  unfold bind at 1, emit at 1.
  unfold bind at 1. rewrite updateStatus_run.
  unfold bind at 1, get_mgr at 1. cbn [mgr set_status backup_enabled_].
  unfold bind at 1.
  destruct (backup_enabled_ (mgr s)); cbn [negb].
  - destruct (restoreBackup_run
                (mkSys (set_status ROLLBACK "Rolling back update..." (mgr s)) (world s)))
      as (b & w & ->).
    destruct b; cbn [negb]; unfold bind; rewrite updateStatus_run;
      cbn [ret app mgr set_status status_callback_];
      [exists true|exists false]; eexists;
      (split; [rewrite ?app_nil_r; reflexivity|reflexivity]).
  - unfold ret at 1. cbn [negb]. unfold bind. rewrite updateStatus_run.
    cbn [ret app mgr set_status status_callback_].
    exists false. eexists. split; [rewrite ?app_nil_r; reflexivity|reflexivity].
Qed.

Definition install_head (cb : bool) : list Event :=
  called m_installUpdate :: status_events cb INSTALLING "Installing update...".

(** The runs of [installUpdate]: where it can stop, and what it has emitted
    by then. *)
Inductive install_run (cb : bool) : Res bool -> list Event -> Prop :=
| install_no_backup :
    install_run cb (Val false)
      (install_head cb ++ status_events cb FAILED "Failed to create backup")
| install_no_extract :
    install_run cb (Val false)
      (install_head cb ++ status_events cb FAILED "Failed to extract update")
| install_no_executable :
    install_run cb (Val false)
      (install_head cb ++ status_events cb FAILED "New executable not found in update")
| install_no_replace ok :
    install_run cb (Val false)
      (install_head cb
       ++ status_events cb FAILED "Failed to replace executable"
       ++ rollback_events cb ok)
| install_done :
    install_run cb (Val true)
      (install_head cb ++ status_events cb SUCCESS "Update installed successfully")
| install_throws e :
    install_run cb (Throw e) (install_head cb).

Lemma installUpdate_run s :
  exists r s' evs,
    installUpdate s = (r, s', evs)
    /\ install_run (status_callback_ (mgr s)) r evs.
Proof.
  unfold installUpdate.
  unfold bind at 1, emit at 1.
  unfold bind at 1. rewrite updateStatus_run.
  unfold bind at 1, get_mgr at 1.
  cbn [mgr set_status backup_enabled_ temp_directory_ available_update_].
  set (s0 := mkSys (set_status INSTALLING "Installing update..." (mgr s)) (world s)).
  set (cb := status_callback_ (mgr s)).
  assert (Hcb : forall w, status_callback_ (mgr (mkSys (mgr s0) w)) = cb) by reflexivity.
  unfold bind at 1.
  assert (Hb : exists b w,
             (if backup_enabled_ (mgr s) then backupCurrentVersion else ret true) s0
             = (Val b, mkSys (mgr s0) w, [])).
  { destruct (backup_enabled_ (mgr s)); [apply backupCurrentVersion_run|].
    exists true, (world s0). reflexivity. }
  destruct Hb as (b & w1 & ->).
  destruct b; cbn [negb].
  2:{ unfold bind. rewrite updateStatus_run. cbn [ret].
      rewrite Hcb, !app_nil_r. eexists _, _, _. split; [reflexivity|].
      apply install_no_backup. }
  unfold bind at 1.
  destruct (extractUpdate_run
              (download_path_of (set_status INSTALLING "Installing update..." (mgr s))
                 (version (available_update_ (mgr s))))
              (temp_directory_ (mgr s) +:+ "/extracted_update")
              (mkSys (mgr s0) w1)) as (x & w2 & ->).
  cbn [mgr].
  destruct x; cbn [negb].
  2:{ unfold bind. rewrite updateStatus_run. cbn [ret].
      rewrite Hcb, !app_nil_r. eexists _, _, _. split; [reflexivity|].
      apply install_no_extract. }
  unfold bind at 1, get_world at 1. cbn [world].
  destruct (Str.empty (find_new_executable _ w2)).
  { unfold bind. rewrite updateStatus_run. cbn [ret].
    rewrite Hcb, !app_nil_r. eexists _, _, _. split; [reflexivity|].
    apply install_no_executable. }
  unfold bind at 1.
  destruct (quiet_run (replaceExecutable
                         (find_new_executable
                            (temp_directory_ (mgr s) +:+ "/extracted_update") w2))
              (mkSys (mgr s0) w2) (quiet_replaceExecutable _)) as (r & w3 & ->).
  cbn [mgr].
  destruct r as [[|]|e]; cbn [negb].
  - destruct (quiet_run (fs_remove_all (temp_directory_ (mgr s) +:+ "/extracted_update"))
                (mkSys (mgr s0) w3) (quiet_fs_remove_all _)) as (r4 & w4 & E4).
    assert (r4 = Val tt) as -> by (cbv in E4; congruence).
    unfold bind at 1. rewrite E4. cbn [mgr].
    unfold bind. rewrite fs_remove_run, updateStatus_run.
    cbn [ret removed mgr].
    rewrite !app_nil_r. eexists _, _, _. split; [reflexivity|].
    apply install_done.
  - unfold bind at 1. rewrite updateStatus_run.
    unfold bind at 1.
    destruct (rollbackUpdate_run
                (mkSys (set_status FAILED "Failed to replace executable"
                          (mgr (mkSys (mgr s0) w3))) (world (mkSys (mgr s0) w3))))
      as (ok & s' & -> & _).
    cbn [ret mgr set_status status_callback_].
    fold cb. rewrite !app_nil_r. eexists _, _, _. split; [reflexivity|].
    cbn [app]. apply (install_no_replace cb ok).
  - rewrite !app_nil_r. eexists _, _, _. split; [reflexivity|].
    apply install_throws.
Qed.

(** An operating system whose [tar] unpacks a new executable that cannot be
    read afterwards. *)
Definition unreadable_world : World :=
  {| files := {[ "/usr/local/bin/workforce_agent" := "ELF-1.0.0" ]};
     self_exe := Some "/usr/local/bin/workforce_agent";
     io_error := fun from _ =>
       if String.prefix "/tmp/workforce_agent_updates/extracted_update/" from
       then Some (refused "Permission denied") else None;
     cannot_open := fun _ => false;
     chmod_error := fun _ => None;
     shell := fun _ f =>
       (0, <["/tmp/workforce_agent_updates/extracted_update/bin/workforce_agent"
             := "ELF-1.0.1"]> f) |}.

Definition unreadable_sys : Sys := mkSys (new_manager 0 0 0 0) unreadable_world.

Example installUpdate_unreadable_events :
  events_of (installUpdate unreadable_sys)
  = [called m_installUpdate;
     status_set INSTALLING "Installing update...";
     status_set FAILED "Failed to replace executable";
     called m_rollbackUpdate;
     status_set ROLLBACK "Rolling back update...";
     status_set IDLE "Rollback completed"].
Proof. vm_compute. reflexivity. Qed.




(** *** Counting the update-available callback *)

(** [setUpdateAvailableCallback] *)
Definition setUpdateAvailableCallback (m : UpgradeManager) : UpgradeManager :=
  {| auto_update_interval_ := auto_update_interval_ m;
     status_ := status_ m;
     status_message_ := status_message_ m;
     current_version_ := current_version_ m;
     available_update_ := available_update_ m;
     update_available_ := update_available_ m;
     update_server_url_ := update_server_url_ m;
     backup_directory_ := backup_directory_ m;
     backup_enabled_ := backup_enabled_ m;
     temp_directory_ := temp_directory_ m;
     last_network_error_ := last_network_error_ m;
     update_available_callback_ := true;
     progress_callback_ := progress_callback_ m;
     status_callback_ := status_callback_ m |}.

(** [operator==] on versions *)
Definition version_eqb (a b : VersionInfo) : bool :=
  (major a =? major b) && (minor a =? minor b) && (patch a =? patch b).

Definition is_update_available (e : Event) : bool :=
  match e with update_available_callback _ => true | _ => false end.

Definition announces (v : VersionInfo) (e : Event) : bool :=
  match e with
  | update_available_callback u => version_eqb (version u) v
  | _ => false
  end.

(** How often the update-available callback fired, at all and for a version. *)
Definition fired (evs : list Event) : nat :=
  List.length (List.filter is_update_available evs).

Definition fired_for (v : VersionInfo) (evs : list Event) : nat :=
  List.length (List.filter (announces v) evs).

Definition registered (s : Sys) : bool := update_available_callback_ (mgr s).

Lemma fired_app l1 l2 : fired (l1 ++ l2) = (fired l1 + fired l2)%nat.
Proof. unfold fired. rewrite List.filter_app, List.length_app. reflexivity. Qed.

(** A calm operation does not fire the callback and keeps its registration. *)
Definition calm {A} (m : M A) : Prop :=
  forall s, fired (events_of (m s)) = 0%nat
            /\ registered (state_of (m s)) = registered s.

Lemma calm_ret {A} (a : A) : calm (ret a).
Proof. intros s. split; reflexivity. Qed.

Lemma calm_get_mgr : calm get_mgr.
Proof. intros s. split; reflexivity. Qed.

Lemma calm_bind {A B} (m : M A) (k : A -> M B) :
  calm m -> (forall a, calm (k a)) -> calm (bind m k).
Proof.
  intros Hm Hk s. unfold bind, events_of, state_of.
  destruct (Hm s) as [E1 E2]. unfold events_of, state_of in E1, E2.
  destruct (m s) as [[[a|e] s1] ev1]; cbn [fst snd] in *.
  - destruct (Hk a s1) as [F1 F2]. unfold events_of, state_of in F1, F2.
    destruct (k a s1) as [[r s2] ev2]; cbn [fst snd] in *.
    rewrite fired_app, E1, F1. split; [reflexivity|congruence].
  - split; assumption.
Qed.

Lemma fired_progress cb ticks : fired (progress_events cb ticks) = 0%nat.
Proof.
  unfold fired.
  assert (H : forall l, (forall e, In e l -> is_update_available e = false) ->
                        List.filter is_update_available l = []).
  { induction l as [|e l IH]; intros Hl; [reflexivity|].
    cbn [List.filter]. rewrite (Hl e (or_introl eq_refl)).
    apply IH. intros e' He'. apply Hl. right. exact He'. }
  rewrite H; [reflexivity|].
  intros e He. apply progress_events_only in He. destruct He as (? & ? & ->).
  reflexivity.
Qed.

Lemma calm_downloadFile t url path : calm (downloadFile t url path).
Proof.
  intros s. rewrite downloadFile_run.
  destruct (negb (curl_handle t)); [split; reflexivity|].
  destruct (cannot_open (world s) path); [split; reflexivity|].
  cbn zeta. unfold events_of, state_of, opened.
  destruct (result t); cbn [fst snd]; rewrite fired_progress;
    (split; [reflexivity|]); destruct (String.eqb path dev_null); reflexivity.
Qed.

Lemma calm_getLatestVersionInfo t : calm (getLatestVersionInfo t).
Proof.
  unfold getLatestVersionInfo. apply calm_bind; [apply calm_get_mgr|].
  intros m. apply calm_downloadFile.
Qed.

(** The update server's answer for version 1.0.1, and a manager with a
    registered update-available callback. *)
Definition descriptor_1_0_1 : string :=
  Json.dq "{'major': 1, 'minor': 0, 'patch': 1, 'release_date': '2025-02-01', 'download_url': 'https://updates.example.com/agent-1.0.1.tar.gz', 'checksum': 'ba7816bf8f01cfea414140de5dae2223b00361a396177a9cb410ff61f20015ad', 'file_size': 3}".

Definition listening_sys : Sys :=
  mkSys (setUpdateAvailableCallback (new_manager 0 0 0 0)) sample_world.

(** C6, as stated, fails: two checks against a server that reports 1.0.1
    both find the update, and the callback fires twice for that version;
    so it does from the auto-update loop. *)
Lemma checkForUpdates_twice_fires_twice :
  let ts := [sample_transfer descriptor_1_0_1; sample_transfer descriptor_1_0_1] in
  result_of (check_sequence ts listening_sys) = Val [true; true]
  /\ fired_for (mkVersion 1 0 1 "" "") (events_of (check_sequence ts listening_sys))
     = 2%nat
  /\ fired_for (mkVersion 1 0 1 "" "") (events_of (autoUpdateCheckLoop ts listening_sys))
     = 2%nat.
Proof. cbn zeta. repeat split; vm_compute; reflexivity. Qed.

Lemma autoUpdateCheckLoop_events ts s :
  events_of (autoUpdateCheckLoop ts s) = events_of (check_sequence ts s).
Proof.
  unfold autoUpdateCheckLoop. revert s.
  induction ts as [|t ts IH]; intros s; [reflexivity|].
  cbn [forM check_sequence]. unfold bind at 1 2 4. unfold events_of in *.
  destruct (checkForUpdates t s) as [[[b|e] s1] ev1]; cbn [fst snd ret];
    [|reflexivity].
  rewrite app_nil_r. specialize (IH s1).
  unfold bind at 2.
  destruct (forM ts _ s1) as [[r1 s2] ev2].
  destruct (check_sequence ts s1) as [[[bs|e] s3] ev3]; cbn [fst snd ret] in *;
    rewrite ?app_nil_r; congruence.
Qed.

End Upgrade.

(** ** The LLM insight pipeline (llm_behavior_analyzer.h, .cpp): parsing *)

Module LLM.

Record LLMBehaviorInsight : Type := mkInsight {
  user : string;
  insight_type : string;
  severity : string;
  confidence_score : Q;
  description : string;
  analysis : string;
  recommendations : list string;
  timestamp : Z
}.

(** A default-constructed insight: empty strings, no recommendations. The
    score is not initialised by the constructor; it reads as 0 here. *)
Definition default_insight : LLMBehaviorInsight :=
  mkInsight "" "" "" 0 "" "" [] 0.

Definition set_user x (i : LLMBehaviorInsight) : LLMBehaviorInsight :=
  mkInsight x (insight_type i) (severity i) (confidence_score i) (description i)
    (analysis i) (recommendations i) (timestamp i).
Definition set_insight_type x (i : LLMBehaviorInsight) : LLMBehaviorInsight :=
  mkInsight (user i) x (severity i) (confidence_score i) (description i)
    (analysis i) (recommendations i) (timestamp i).
Definition set_severity x (i : LLMBehaviorInsight) : LLMBehaviorInsight :=
  mkInsight (user i) (insight_type i) x (confidence_score i) (description i)
    (analysis i) (recommendations i) (timestamp i).
Definition set_confidence_score x (i : LLMBehaviorInsight) : LLMBehaviorInsight :=
  mkInsight (user i) (insight_type i) (severity i) x (description i)
    (analysis i) (recommendations i) (timestamp i).
Definition set_description x (i : LLMBehaviorInsight) : LLMBehaviorInsight :=
  mkInsight (user i) (insight_type i) (severity i) (confidence_score i) x
    (analysis i) (recommendations i) (timestamp i).
Definition set_analysis x (i : LLMBehaviorInsight) : LLMBehaviorInsight :=
  mkInsight (user i) (insight_type i) (severity i) (confidence_score i) (description i)
    x (recommendations i) (timestamp i).
Definition set_recommendations x (i : LLMBehaviorInsight) : LLMBehaviorInsight :=
  mkInsight (user i) (insight_type i) (severity i) (confidence_score i) (description i)
    (analysis i) x (timestamp i).
Definition set_timestamp x (i : LLMBehaviorInsight) : LLMBehaviorInsight :=
  mkInsight (user i) (insight_type i) (severity i) (confidence_score i) (description i)
    (analysis i) (recommendations i) x.

(** The body of a [try] block that fills in an insight: what has been
    assigned stays assigned when an exception leaves the block. *)
Definition P (A : Type) : Type := LLMBehaviorInsight -> Res A * LLMBehaviorInsight.

Definition pret {A} (a : A) : P A := fun i => (Val a, i).

Definition pbind {A B} (m : P A) (k : A -> P B) : P B :=
  fun i =>
    match m i with
    | (Val a, i1) => k a i1
    | (Throw e, i1) => (Throw e, i1)
    end.

Definition plift {A} (r : Res A) : P A := fun i => (r, i).
Definition assign (f : LLMBehaviorInsight -> LLMBehaviorInsight) : P unit :=
  fun i => (Val tt, f i).
Definition current : P LLMBehaviorInsight := fun i => (Val i, i).

Declare Scope llm_scope.
Notation "x <- m ;; k" := (pbind m (fun x => k))
  (at level 100, m at next level, right associativity) : llm_scope.
Notation "m ;;; k" := (pbind m (fun _ => k))
  (at level 100, right associativity) : llm_scope.
Local Open Scope llm_scope.

Fixpoint pfor {A} (l : list A) (f : A -> P unit) : P unit :=
  match l with
  | [] => pret tt
  | a :: l' => f a ;;; pfor l' f
  end.

Definition drop_last2 (s : string) : string :=
  Str.substr s 0 (String.length s - 2).

(** The [try] block of [parseLLMResponse]. *)
Definition parse_json_response (response : string) : P unit :=
  response_json <- plift (Json.parse response) ;;
  sev <- plift (Json.value_or Json.get_string response_json "risk_level" "medium") ;;
  assign (set_severity sev) ;;;
  conf <- plift (Json.value_or Json.get_double response_json "confidence_score" (1 # 2)) ;;
  assign (set_confidence_score conf) ;;;
  ana <- plift (Json.value_or Json.get_string response_json "analysis" "Analysis completed") ;;
  assign (set_analysis ana) ;;;
  (if Json.contains response_json "patterns" then
     assign (set_description "Detected patterns: ") ;;;
     patterns <- plift (Json.at_key response_json "patterns") ;;
     pfor (Json.items patterns)
       (fun pattern =>
          s <- plift (Json.get_string pattern) ;;
          assign (fun i => set_description (description i +:+ s +:+ ", ") i)) ;;;
     assign (fun i => set_description (drop_last2 (description i)) i)
   else pret tt) ;;;
  (if Json.contains response_json "recommendations" then
     recs <- plift (Json.at_key response_json "recommendations") ;;
     pfor (Json.items recs)
       (fun rec =>
          s <- plift (Json.get_string rec) ;;
          assign (fun i => set_recommendations (recommendations i ++ [s]) i))
   else pret tt) ;;;
  i <- current ;;
  if String.eqb (severity i) "critical" || String.eqb (severity i) "high" then
    assign (set_insight_type "alert")
  else if negb (match recommendations i with [] => true | _ => false end) then
    assign (set_insight_type "recommendation")
  else
    assign (set_insight_type "pattern").

(** The [catch (const std::exception&)] block. *)
Definition fallback (response : string) (i : LLMBehaviorInsight) : LLMBehaviorInsight :=
  set_insight_type "pattern"
    (set_description "LLM analysis completed"
       (set_analysis response
          (set_confidence_score (1 # 2)
             (set_severity "medium" i)))).

(** [parseLLMResponse], at time [now]; every exception of the library
    derives from [std::exception] and is caught. *)
Definition parseLLMResponse (response user_id : string) (now : Z)
  : Res LLMBehaviorInsight :=
  let insight := set_timestamp now (set_user user_id default_insight) in
  match parse_json_response response insight with
  | (Val _, i) => Val i
  | (Throw _, i) => Val (fallback response i)
  end.

Example parse_high_risk :
  parseLLMResponse
    (Json.dq "{'risk_level': 'high', 'confidence_score': 0.9, 'patterns': ['late logins', 'bulk copy'], 'recommendations': ['review access']}")
    "alice" 1700000000
  = Val (mkInsight "alice" "alert" "high" (9 # 10)
           "Detected patterns: late logins, bulk copy" "Analysis completed"
           ["review access"] 1700000000).
Proof. vm_compute. reflexivity. Qed.

(** C9. A response that [json::parse] rejects yields, as a value and not
    as an exception, an insight of severity medium and confidence 0.5 whose
    analysis is the raw response; it is a pattern insight for the given user
    with the fixed description and no recommendations. *)
Theorem parseLLMResponse_not_json response user_id now e :
  Json.parse response = Throw e ->
  parseLLMResponse response user_id now
  = Val (mkInsight user_id "pattern" "medium" (1 # 2) "LLM analysis completed"
           response [] now).
Proof.
  intros H. unfold parseLLMResponse, parse_json_response, pbind, plift.
  rewrite H. reflexivity.
Qed.

Lemma parseLLMResponse_not_json_witness :
  parseLLMResponse "The user shows no unusual behaviour." "alice" 1700000000
  = Val (mkInsight "alice" "pattern" "medium" (1 # 2) "LLM analysis completed"
           "The user shows no unusual behaviour." [] 1700000000).
Proof.
  exact (parseLLMResponse_not_json
           "The user shows no unusual behaviour." "alice" 1700000000
           (parse_error "[json.exception.parse_error.101] syntax error")
           ltac:(vm_compute; reflexivity)).
Defined.

End LLM.

(** ** The behaviour analyzer (behavior_analyzer.h, behavior_analyzer.cpp) *)

Module Behavior.

Record BehaviorPattern : Type := mkPattern {
  user : string;
  pattern_type : string;
  confidence_score : Q;
  description : string;
  timestamp : Z
}.

Record UserProfile : Type := mkProfile {
  user_id : string;
  baseline_metrics : gmap string Q;
  recent_patterns : list BehaviorPattern;
  risk_score : Q
}.

(** The analyzer's own fields; the anomaly callback is registered or not. *)
Record BehaviorAnalyzer : Type := mkAnalyzer {
  user_profiles_ : gmap string UserProfile;
  anomaly_callback_ : bool;
  pattern_history_ : list BehaviorPattern;
  llm_enabled_ : bool
}.

Definition new_analyzer : BehaviorAnalyzer := mkAnalyzer ∅ false [] false.

Definition set_profiles (ps : gmap string UserProfile) (a : BehaviorAnalyzer)
  : BehaviorAnalyzer :=
  mkAnalyzer ps (anomaly_callback_ a) (pattern_history_ a) (llm_enabled_ a).

Definition set_history (h : list BehaviorPattern) (a : BehaviorAnalyzer)
  : BehaviorAnalyzer :=
  mkAnalyzer (user_profiles_ a) (anomaly_callback_ a) h (llm_enabled_ a).

(** [setAnomalyCallback] *)
Definition setAnomalyCallback (a : BehaviorAnalyzer) : BehaviorAnalyzer :=
  mkAnalyzer (user_profiles_ a) true (pattern_history_ a) (llm_enabled_ a).

(** *** Doubles *)

Definition Qltb (x y : Q) : bool := negb (Qle_bool y x).

(** [std::min] and [std::max] *)
Definition std_min (a b : Q) : Q := if Qltb b a then b else a.
Definition std_max (a b : Q) : Q := if Qltb a b then b else a.

Definition Qabs' (x : Q) : Q := if Qltb x 0 then Qopp x else x.

Definition pad6 (s : string) : string :=
  Str.concat (List.repeat "0" (6 - String.length s)) +:+ s.

(** [std::to_string(double)]: fixed notation with six decimals, rounded to
    nearest, ties to even. *)
Definition to_string_double (q : Q) : string :=
  let a := Z.abs (Qnum q) * 10 ^ 6 in
  let b := Zpos (Qden q) in
  let fl := a / b in
  let n :=
    match 2 * (a - fl * b) ?= b with
    | Lt => fl
    | Gt => fl + 1
    | Eq => if Z.even fl then fl else fl + 1
    end in
  (if Qnum q <? 0 then "-" else "")
  +:+ Str.of_Z (n / 10 ^ 6) +:+ "." +:+ pad6 (Str.of_Z (n mod 10 ^ 6)).

Example to_string_half : to_string_double (1 # 2) = "0.500000".
Proof. vm_compute. reflexivity. Qed.

(** *** Baselines *)

(** [isAnomalous]: the mean relative deviation over the metrics that have a
    non-zero baseline, against the threshold. *)
Definition isAnomalous (current baseline : gmap string Q) (threshold : Q) : bool :=
  if decide (baseline = ∅) then false
  else
    let '(total_deviation, metrics_count) :=
      map_fold
        (fun key current_value (acc : Q * Z) =>
           match baseline !! key with
           | Some baseline_value =>
               if Qeq_bool baseline_value 0 then acc
               else ((fst acc + Qabs' (current_value - baseline_value) / baseline_value)%Q,
                     snd acc + 1)
           | None => acc
           end)
        (0%Q, 0) current in
    if metrics_count =? 0 then false
    else Qltb threshold (total_deviation / inject_Z metrics_count)%Q.

(** [detectAnomalies] computes [isAnomalous] and drops the answer. *)
Definition detectAnomalies (user : string) (current_metrics : gmap string Q)
  (a : BehaviorAnalyzer) : BehaviorAnalyzer :=
  match user_profiles_ a !! user with
  | None => a
  | Some profile =>
      if isAnomalous current_metrics (baseline_metrics profile) (7 # 10) then a else a
  end.

Definition alpha : Q := 1 # 10.

(** [updateBaseline]: a first observation seeds the baseline, a later one
    moves it by the exponential moving average. *)
Definition updateBaseline (user : string) (metrics : gmap string Q)
  (a : BehaviorAnalyzer) : BehaviorAnalyzer :=
  match user_profiles_ a !! user with
  | None => set_profiles (<[user := mkProfile user metrics [] 0]> (user_profiles_ a)) a
  | Some profile =>
      let baseline :=
        merge
          (fun value old =>
             match value, old with
             | Some v, None => Some v
             | Some v, Some b => Some (alpha * v + (1 - alpha) * b)%Q
             | None, _ => old
             end)
          metrics (baseline_metrics profile) in
      set_profiles
        (<[user := mkProfile (user_id profile) baseline (recent_patterns profile)
                     (risk_score profile)]> (user_profiles_ a))
        a
  end.

(** *** The risk score *)

(** The loop of [calculateRiskScore] over [recent_patterns], oldest first:
    the counter is incremented, then tested against 10, and only then is the
    pattern looked at. *)
Fixpoint risk_loop (patterns : list BehaviorPattern)
  (suspicious_count anomalous_count total_recent : Z) : Z * Z * Z :=
  match patterns with
  | [] => (suspicious_count, anomalous_count, total_recent)
  | pattern :: rest =>
      let total_recent := total_recent + 1 in
      if 10 <? total_recent then (suspicious_count, anomalous_count, total_recent)
      else if String.eqb (pattern_type pattern) "suspicious" then
        risk_loop rest (suspicious_count + 1) anomalous_count total_recent
      else if String.eqb (pattern_type pattern) "anomalous" then
        risk_loop rest suspicious_count (anomalous_count + 1) total_recent
      else risk_loop rest suspicious_count anomalous_count total_recent
  end.

Definition risk_of_patterns (patterns : list BehaviorPattern) : Q :=
  let '(suspicious_count, anomalous_count, total_recent) := risk_loop patterns 0 0 0 in
  let risk_score :=
    if 0 <? total_recent then
      ((inject_Z suspicious_count * (8 # 10) + inject_Z anomalous_count * (4 # 10))
       / inject_Z total_recent)%Q
    else 0%Q in
  std_min risk_score 1.

(** [calculateRiskScore] *)
Definition calculateRiskScore (user : string) (a : BehaviorAnalyzer) : Q :=
  match user_profiles_ a !! user with
  | None => 0%Q
  | Some profile => risk_of_patterns (recent_patterns profile)
  end.

(** *** Recording patterns *)

(** [pattern_history_.push_back(pattern)], then [pop_front] above 1000. *)
Definition push_history (pattern : BehaviorPattern) (history : list BehaviorPattern)
  : list BehaviorPattern :=
  let history := history ++ [pattern] in
  if Nat.ltb 1000 (List.length history) then List.tl history else history.

(** An invocation of the anomaly callback. *)
Inductive Event : Type := anomaly_callback (pattern : BehaviorPattern).

(** [analyzeActivity], at time [now]. *)
Definition analyzeActivity (user activity_type : string) (metrics : gmap string Q)
  (now : Z) (a : BehaviorAnalyzer) : BehaviorAnalyzer * list Event :=
  let a := detectAnomalies user metrics a in
  let a := updateBaseline user metrics a in
  let score := calculateRiskScore user a in
  let pattern :=
    if Qltb (7 # 10) score then
      mkPattern user "suspicious" score
        ("Suspicious activity detected: " +:+ activity_type +:+ " (confidence: "
         +:+ to_string_double score +:+ ")") now
    else if Qltb (5 # 10) score then
      mkPattern user "anomalous" score
        ("Anomalous behavior detected: " +:+ activity_type +:+ " (confidence: "
         +:+ to_string_double score +:+ ")") now
    else
      mkPattern user "normal" score ("Normal activity: " +:+ activity_type) now in
  let a := set_history (push_history pattern (pattern_history_ a)) a in
  let a :=
    match user_profiles_ a !! user with
    | None => set_profiles (<[user := mkProfile user ∅ [] 0]> (user_profiles_ a)) a
    | Some _ => a
    end in
  let a :=
    match user_profiles_ a !! user with
    | None => a
    | Some profile =>
        set_profiles
          (<[user := mkProfile (user_id profile) (baseline_metrics profile)
                       (recent_patterns profile ++ [pattern])
                       (confidence_score pattern)]> (user_profiles_ a))
          a
    end in
  (a,
   if negb (String.eqb (pattern_type pattern) "normal") && anomaly_callback_ a
   then [anomaly_callback pattern] else []).

(** The pattern [handleLLMInsight] makes of an insight. *)
Definition pattern_of_insight (insight : LLM.LLMBehaviorInsight) : BehaviorPattern :=
  let type :=
    if String.eqb (LLM.insight_type insight) "alert"
       || String.eqb (LLM.severity insight) "critical"
       || String.eqb (LLM.severity insight) "high" then "suspicious"
    else if String.eqb (LLM.insight_type insight) "pattern"
            || String.eqb (LLM.severity insight) "medium" then "anomalous"
    else "normal" in
  mkPattern (LLM.user insight) type (LLM.confidence_score insight)
    ("[" +:+ LLM.insight_type insight +:+ "] " +:+ LLM.description insight
     +:+ " (LLM confidence: " +:+ to_string_double (LLM.confidence_score insight)
     +:+ ")")
    (LLM.timestamp insight).

(** [handleLLMInsight] *)
Definition handleLLMInsight (insight : LLM.LLMBehaviorInsight) (a : BehaviorAnalyzer)
  : BehaviorAnalyzer * list Event :=
  let pattern := pattern_of_insight insight in
  let a := set_history (push_history pattern (pattern_history_ a)) a in
  let a :=
    match user_profiles_ a !! LLM.user insight with
    | Some profile =>
        set_profiles
          (<[LLM.user insight :=
               mkProfile (user_id profile) (baseline_metrics profile)
                 (recent_patterns profile ++ [pattern])
                 (std_max (risk_score profile) (LLM.confidence_score insight))]>
             (user_profiles_ a))
          a
    | None => a
    end in
  (a,
   if negb (String.eqb (pattern_type pattern) "normal") && anomaly_callback_ a
   then [anomaly_callback pattern] else []).

(** *** Sequences of calls *)

Inductive Call : Type :=
| Activity (user activity_type : string) (metrics : gmap string Q) (now : Z)
| Insight (insight : LLM.LLMBehaviorInsight).

Definition step (a : BehaviorAnalyzer) (c : Call) : BehaviorAnalyzer :=
  match c with
  | Activity user activity_type metrics now =>
      fst (analyzeActivity user activity_type metrics now a)
  | Insight insight => fst (handleLLMInsight insight a)
  end.

Definition run (calls : list Call) : BehaviorAnalyzer :=
  List.fold_left step calls new_analyzer.


(** *** The range of the risk score *)

Lemma Qltb_true x y : Qltb x y = true <-> (x < y)%Q.
Proof.
  unfold Qltb. rewrite negb_true_iff, <- not_true_iff_false, Qle_bool_iff.
  split; [apply Qnot_le_lt|apply Qlt_not_le].
Qed.

Lemma Qltb_false x y : Qltb x y = false <-> (y <= x)%Q.
Proof. unfold Qltb. rewrite negb_false_iff. apply Qle_bool_iff. Qed.

Lemma std_min_range x : (0 <= x)%Q -> (0 <= std_min x 1 <= 1)%Q.
Proof.
  intros Hx. unfold std_min. destruct (Qltb 1 x) eqn:E.
  - split; [discriminate|apply Qle_refl].
  - split; [exact Hx|apply Qltb_false; exact E].
Qed.

Lemma std_max_range r c :
  (0 <= r <= 1)%Q -> (c <= 1)%Q -> (0 <= std_max r c <= 1)%Q.
Proof.
  intros [H0 H1] Hc. unfold std_max. destruct (Qltb r c) eqn:E; [|tauto].
  apply Qltb_true in E. split; [|exact Hc].
  apply Qlt_le_weak. eapply Qle_lt_trans; eassumption.
Qed.

Lemma risk_loop_nonneg patterns s a t :
  0 <= s -> 0 <= a -> 0 <= t ->
  let '(s', a', t') := risk_loop patterns s a t in 0 <= s' /\ 0 <= a' /\ 0 <= t'.
Proof.
  revert s a t. induction patterns as [|p ps IH]; intros s a t Hs Ha Ht.
  - cbn. auto.
  - cbn [risk_loop]. destruct (10 <? t + 1); [repeat split; lia|].
    destruct (String.eqb (pattern_type p) "suspicious"); [apply IH; lia|].
    destruct (String.eqb (pattern_type p) "anomalous"); apply IH; lia.
Qed.

Lemma inject_Z_nonneg z : 0 <= z -> (0 <= inject_Z z)%Q.
Proof. intros H. unfold Qle. cbn. lia. Qed.

Lemma risk_of_patterns_range patterns : (0 <= risk_of_patterns patterns <= 1)%Q.
Proof.
  unfold risk_of_patterns.
  pose proof (risk_loop_nonneg patterns 0 0 0 ltac:(lia) ltac:(lia) ltac:(lia)) as H.
  destruct (risk_loop patterns 0 0 0) as [[s a] t]. destruct H as (Hs & Ha & Ht).
  apply std_min_range.
  destruct (0 <? t) eqn:E; [|apply Qle_refl].
  apply Z.ltb_lt in E. unfold Qdiv.
  apply Qmult_le_0_compat.
  - apply (Qplus_le_compat 0 _ 0);
      apply Qmult_le_0_compat; try apply inject_Z_nonneg; try assumption; discriminate.
  - apply Qinv_le_0_compat, inject_Z_nonneg. lia.
Qed.

Lemma calculateRiskScore_range user a : (0 <= calculateRiskScore user a <= 1)%Q.
Proof.
  unfold calculateRiskScore. destruct (user_profiles_ a !! user).
  - apply risk_of_patterns_range.
  - split; [apply Qle_refl|discriminate].
Qed.

(** Every stored risk score is within [0, 1]. *)
Definition risk_in_range (a : BehaviorAnalyzer) : Prop :=
  forall u p, user_profiles_ a !! u = Some p -> (0 <= risk_score p <= 1)%Q.

Lemma risk_in_range_new : risk_in_range new_analyzer.
Proof. intros u p H. cbn in H. rewrite lookup_empty in H. discriminate. Qed.

Lemma risk_in_range_insert a u p :
  risk_in_range a -> (0 <= risk_score p <= 1)%Q ->
  risk_in_range (set_profiles (<[u := p]> (user_profiles_ a)) a).
Proof.
  intros Ha Hp v q. cbn [user_profiles_ set_profiles].
  destruct (decide (u = v)) as [->|Hne].
  - rewrite lookup_insert_eq. intros [= <-]. exact Hp.
  - rewrite lookup_insert_ne by exact Hne. apply Ha.
Qed.

Lemma risk_in_range_set_history a h :
  risk_in_range a -> risk_in_range (set_history h a).
Proof. intros Ha u p. apply Ha. Qed.

Lemma detectAnomalies_id user metrics a : detectAnomalies user metrics a = a.
Proof.
  unfold detectAnomalies. destruct (user_profiles_ a !! user); [|reflexivity].
  destruct (isAnomalous _ _ _); reflexivity.
Qed.

Lemma updateBaseline_range user metrics a :
  risk_in_range a -> risk_in_range (updateBaseline user metrics a).
Proof.
  intros Ha. unfold updateBaseline.
  destruct (user_profiles_ a !! user) as [p|] eqn:E.
  - apply risk_in_range_insert; [exact Ha|]. cbn. exact (Ha _ _ E).
  - apply risk_in_range_insert; [exact Ha|]. cbn. split; [apply Qle_refl|discriminate].
Qed.

(** [analyzeActivity] keeps every risk score within [0, 1]. *)
Lemma analyzeActivity_range user activity_type metrics now a :
  risk_in_range a ->
  risk_in_range (fst (analyzeActivity user activity_type metrics now a)).
Proof.
  intros Ha. unfold analyzeActivity. rewrite detectAnomalies_id.
  cbn [fst].
  set (a1 := updateBaseline user metrics a).
  assert (H1 : risk_in_range a1) by (apply updateBaseline_range; exact Ha).
  set (score := calculateRiskScore user a1).
  assert (Hs : (0 <= score <= 1)%Q) by apply calculateRiskScore_range.
  set (pattern := if Qltb (7 # 10) score then _ else _).
  assert (Hp : confidence_score pattern = score).
  { subst pattern. destruct (Qltb (7 # 10) score); [reflexivity|].
    destruct (Qltb (5 # 10) score); reflexivity. }
  set (a2 := set_history _ a1).
  assert (H2 : risk_in_range a2) by (apply risk_in_range_set_history; exact H1).
  set (a3 := match user_profiles_ a2 !! user with None => _ | Some _ => a2 end).
  assert (H3 : risk_in_range a3).
  { subst a3. destruct (user_profiles_ a2 !! user); [exact H2|].
    apply risk_in_range_insert; [exact H2|]. cbn. split; [apply Qle_refl|discriminate]. }
  destruct (user_profiles_ a3 !! user); [|exact H3].
  apply risk_in_range_insert; [exact H3|]. cbn [risk_score]. rewrite Hp. exact Hs.
Qed.

(** So does [handleLLMInsight], for an insight whose confidence is at most 1. *)
Lemma handleLLMInsight_range insight a :
  (LLM.confidence_score insight <= 1)%Q ->
  risk_in_range a ->
  risk_in_range (fst (handleLLMInsight insight a)).
Proof.
  intros Hc Ha. unfold handleLLMInsight. cbn [fst].
  set (a1 := set_history _ a).
  assert (H1 : risk_in_range a1) by (apply risk_in_range_set_history; exact Ha).
  destruct (user_profiles_ a1 !! LLM.user insight) as [p|] eqn:E; [|exact H1].
  apply risk_in_range_insert; [exact H1|]. cbn [risk_score].
  apply std_max_range; [exact (H1 _ _ E)|exact Hc].
Qed.

Definition insight_in_range (c : Call) : Prop :=
  match c with
  | Insight insight => (LLM.confidence_score insight <= 1)%Q
  | Activity _ _ _ _ => True
  end.

(** The invariant of the specification holds as long as no insight carries
    a confidence above 1. *)
Lemma risk_in_range_run calls :
  Forall insight_in_range calls -> risk_in_range (run calls).
Proof.
  unfold run. intros H.
  assert (G : forall a, risk_in_range a -> risk_in_range (List.fold_left step calls a)).
  { induction H as [|c calls Hc _ IH]; intros a Ha; [exact Ha|].
    cbn [List.fold_left]. apply IH. destruct c as [u t m n|i]; cbn [step].
    - apply analyzeActivity_range. exact Ha.
    - apply handleLLMInsight_range; assumption. }
  apply G, risk_in_range_new.
Qed.

(** The answer of a model that reports its confidence as 1.5. *)
Definition overconfident_response : string :=
  Json.dq "{'risk_level': 'high', 'confidence_score': 1.5, 'analysis': 'Bulk copy to removable media'}".

Definition overconfident_insight : LLM.LLMBehaviorInsight :=
  LLM.mkInsight "alice" "alert" "high" (3 # 2) "" "Bulk copy to removable media" [] 200.

Example overconfident_parsed :
  LLM.parseLLMResponse overconfident_response "alice" 200 = Val overconfident_insight.
Proof. vm_compute. reflexivity. Qed.

(** C4 fails on the code: after one activity of a user and the fusion of
    an insight that [parseLLMResponse] produced with confidence 1.5, the
    user's risk score is 1.5. *)
Theorem risk_score_above_one :
  risk_score <$>
    (user_profiles_
       (run [Activity "alice" "login" {[ "activity_level" := 8 # 10 ]} 100;
             Insight overconfident_insight])
     !! "alice")
  = Some (3 # 2)
  /\ ~ risk_in_range
        (run [Activity "alice" "login" {[ "activity_level" := 8 # 10 ]} 100;
              Insight overconfident_insight]).
Proof.
  assert (E : risk_score <$>
                (user_profiles_
                   (run [Activity "alice" "login" {[ "activity_level" := 8 # 10 ]} 100;
                         Insight overconfident_insight])
                 !! "alice")
              = Some (3 # 2)) by (vm_compute; reflexivity).
  split; [exact E|].
  intros H.
  destruct (user_profiles_ _ !! "alice") as [p|] eqn:F; [|discriminate].
  specialize (H _ _ F). cbn in E. injection E as E. rewrite E in H.
  destruct H as [_ H]. apply (Qle_not_lt _ _ H). reflexivity.
Qed.

(** *** The confidence score against its specification *)

Definition last_n {A} (n : nat) (l : list A) : list A :=
  List.skipn (List.length l - n) l.

Definition has_type (t : string) (p : BehaviorPattern) : bool :=
  String.eqb (pattern_type p) t.

(** The specification's formula: the weighted share of suspicious and
    anomalous patterns among the last 10 recorded ones, clamped to 1. *)
Definition confidence_over_last_10 (patterns : list BehaviorPattern) : Q :=
  let considered := last_n 10 patterns in
  let total_considered := Z.of_nat (List.length considered) in
  let suspicious_count :=
    Z.of_nat (List.length (List.filter (has_type "suspicious") considered)) in
  let anomalous_count :=
    Z.of_nat (List.length (List.filter (has_type "anomalous") considered)) in
  std_min
    (if 0 <? total_considered then
       ((inject_Z suspicious_count * (8 # 10) + inject_Z anomalous_count * (4 # 10))
        / inject_Z total_considered)%Q
     else 0%Q)
    1.

Lemma risk_loop_short patterns s a t :
  t + Z.of_nat (List.length patterns) <= 10 ->
  0 <= t ->
  risk_loop patterns s a t
  = (s + Z.of_nat (List.length (List.filter (has_type "suspicious") patterns)),
     a + Z.of_nat (List.length (List.filter (has_type "anomalous") patterns)),
     t + Z.of_nat (List.length patterns)).
Proof.
  revert s a t. induction patterns as [|p ps IH]; intros s a t Hlen Ht.
  - cbn. rewrite !Z.add_0_r. reflexivity.
  - cbn [risk_loop List.length List.filter] in *.
    change (has_type "suspicious" p) with (String.eqb (pattern_type p) "suspicious").
    change (has_type "anomalous" p) with (String.eqb (pattern_type p) "anomalous").
    destruct (Z.ltb_spec 10 (t + 1)) as [Hgt|_]; [lia|].
    destruct (String.eqb_spec (pattern_type p) "suspicious") as [E|_].
    + rewrite E. change (String.eqb "suspicious" "anomalous") with false.
      cbn [List.length]. rewrite IH by lia.
      apply f_equal2; [apply f_equal2|]; lia.
    + destruct (String.eqb (pattern_type p) "anomalous"); cbn [List.length];
        rewrite IH by lia; (apply f_equal2; [apply f_equal2|]; lia).
Qed.

(** Up to 10 recorded patterns the code computes the specified score. *)
Lemma risk_of_patterns_short patterns :
  (List.length patterns <= 10)%nat ->
  risk_of_patterns patterns = confidence_over_last_10 patterns.
Proof.
  intros H. unfold risk_of_patterns, confidence_over_last_10, last_n.
  rewrite risk_loop_short by lia.
  replace (List.length patterns - 10)%nat with 0%nat by lia.
  cbn [List.skipn]. rewrite !Z.add_0_l. reflexivity.
Qed.

Definition high_risk_insight (now : Z) : LLM.LLMBehaviorInsight :=
  LLM.mkInsight "alice" "alert" "high" (9 # 10) "Detected patterns: bulk copy"
    "Analysis completed" [] now.

(** One activity of a user, then ten high-risk insights about her. *)
Definition eleven_calls : list Call :=
  Activity "alice" "login" {[ "activity_level" := 8 # 10 ]} 100
  :: List.map (fun k => Insight (high_risk_insight (200 + Z.of_nat k))) (List.seq 0 10).

Definition patterns_of (user : string) (a : BehaviorAnalyzer) : list BehaviorPattern :=
  match user_profiles_ a !! user with
  | Some profile => recent_patterns profile
  | None => []
  end.

(** C5 fails on the code: with 11 recorded patterns, the last 10 of them
    suspicious, the specified score is 0.8, and the code, which walks the
    list from the oldest pattern and divides by 11, computes 36/55; the next
    activity is then recorded as anomalous and not as suspicious. *)
Theorem calculateRiskScore_eleven_patterns :
  let a := run eleven_calls in
  List.map pattern_type (patterns_of "alice" a)
  = "normal" :: List.repeat "suspicious" 10
  /\ (confidence_over_last_10 (patterns_of "alice" a) == 8 # 10)%Q
  /\ (calculateRiskScore "alice" a == 36 # 55)%Q
  /\ List.map pattern_type
       (last_n 1 (patterns_of "alice"
                    (fst (analyzeActivity "alice" "file_copy"
                            {[ "activity_level" := 8 # 10 ]} 300 a))))
     = ["anomalous"].
Proof. cbn zeta. repeat split; vm_compute; reflexivity. Qed.

(** *** The fusion of insights *)

Definition insight_for_bob : LLM.LLMBehaviorInsight :=
  LLM.mkInsight "bob" "alert" "critical" (9 # 10) "Detected patterns: mass download"
    "Analysis completed" [] 100.

(** C7, as stated, fails: for a user without a profile the insight reaches
    the global history only; no profile appears, so there is no recent list
    and no risk score, where the native path creates the profile. *)
Lemma handleLLMInsight_without_profile :
  let a := fst (handleLLMInsight insight_for_bob new_analyzer) in
  pattern_history_ a = [pattern_of_insight insight_for_bob]
  /\ user_profiles_ a !! "bob" = None
  /\ patterns_of "bob" (fst (analyzeActivity "bob" "login" ∅ 100 new_analyzer))
     = [mkPattern "bob" "normal" 0 "Normal activity: login" 100].
Proof. cbn zeta. repeat split; vm_compute; reflexivity. Qed.

Definition fused (insight : LLM.LLMBehaviorInsight) (profile : UserProfile)
  : UserProfile :=
  mkProfile (user_id profile) (baseline_metrics profile)
    (recent_patterns profile ++ [pattern_of_insight insight])
    (std_max (risk_score profile) (LLM.confidence_score insight)).

Lemma push_history_spec pattern history :
  push_history pattern history
  = if Nat.ltb 1000 (List.length (history ++ [pattern]))
    then List.tl (history ++ [pattern]) else history ++ [pattern].
Proof. reflexivity. Qed.

(** C7, amended. [handleLLMInsight] appends the mapped pattern to the
    global history as [analyzeActivity] appends its own (at the end, the
    oldest entry dropped above 1000). If the user has a profile, the pattern
    is appended to its recent list, as the native path does, and the risk
    score becomes the larger of the old score and the insight's confidence;
    if not, the profiles are left as they are. *)
Theorem handleLLMInsight_fuses insight a :
  let a' := fst (handleLLMInsight insight a) in
  pattern_history_ a' = push_history (pattern_of_insight insight) (pattern_history_ a)
  /\ user_profiles_ a'
     = match user_profiles_ a !! LLM.user insight with
       | Some profile => <[LLM.user insight := fused insight profile]> (user_profiles_ a)
       | None => user_profiles_ a
       end
  /\ (forall user activity_type metrics now,
        let n := fst (analyzeActivity user activity_type metrics now a) in
        exists pattern,
          pattern_history_ n = push_history pattern (pattern_history_ a)
          /\ patterns_of user n = patterns_of user a ++ [pattern]).
Proof.
  cbn zeta. split; [|split].
  - unfold handleLLMInsight. cbn [fst].
    destruct (user_profiles_ _ !! LLM.user insight); reflexivity.
  - unfold handleLLMInsight. cbn [fst user_profiles_ set_history].
    destruct (user_profiles_ a !! LLM.user insight); reflexivity.
  - intros user activity_type metrics now.
    unfold analyzeActivity. rewrite detectAnomalies_id. cbn [fst].
    set (a1 := updateBaseline user metrics a).
    set (pattern := if Qltb (7 # 10) (calculateRiskScore user a1) then _ else _).
    exists pattern.
    assert (Hh : pattern_history_ a1 = pattern_history_ a).
    { subst a1. unfold updateBaseline.
      destruct (user_profiles_ a !! user); reflexivity. }
    assert (Hp : exists p, user_profiles_ a1 !! user = Some p
                           /\ recent_patterns p = patterns_of user a).
    { subst a1. unfold updateBaseline, patterns_of.
      destruct (user_profiles_ a !! user) as [p|];
        cbn [user_profiles_ set_profiles]; rewrite lookup_insert_eq; eauto. }
    destruct Hp as (p & Hp & Hr).
    cbn [user_profiles_ set_history pattern_history_]. rewrite Hp.
    cbn [user_profiles_ set_history]. rewrite Hp.
    cbn [pattern_history_ set_profiles set_history]. rewrite Hh.
    split; [reflexivity|].
    unfold patterns_of at 1. cbn [user_profiles_ set_profiles].
    rewrite lookup_insert_eq. cbn [recent_patterns]. rewrite Hr. reflexivity.
Qed.
End Behavior.

(** ** The DLP monitor (dlp_monitor.h, dlp_monitor.cpp) *)

Module DLP.

Record DLPEvent : Type := mkEvent {
  timestamp : string;
  type : string;
  file_path : string;
  destination : string;
  user : string;
  policy_violated : string;
  blocked : bool
}.

(** *** Reading numbers the way [std::stoi] does *)

Definition is_space (c : ascii) : bool :=
  let n := nat_of_ascii c in
  (Nat.eqb n 32 || (Nat.leb 9 n && Nat.leb n 13))%bool.

Fixpoint skip_spaces (s : string) : string :=
  match s with
  | String c s' => if is_space c then skip_spaces s' else s
  | EmptyString => EmptyString
  end.

Definition digit_value (base : Z) (c : ascii) : option Z :=
  let n := Z.of_nat (nat_of_ascii c) in
  let v :=
    if (48 <=? n) && (n <=? 57) then n - 48
    else if (97 <=? n) && (n <=? 122) then n - 87
    else if (65 <=? n) && (n <=? 90) then n - 55
    else base in
  if v <? base then Some v else None.

Fixpoint read_digits (base : Z) (s : string) (acc : Z) (n : nat) : Z * nat :=
  match s with
  | String c s' =>
      match digit_value base c with
      | Some d => read_digits base s' (base * acc + d) (S n)
      | None => (acc, n)
      end
  | EmptyString => (acc, n)
  end.

(** [std::stoi(s, nullptr, base)] for base 10 or 16; [None] when it throws
    ([std::invalid_argument] without digits, [std::out_of_range] beyond
    [int]). *)
Definition stoi (base : Z) (s : string) : option Z :=
  let s := skip_spaces s in
  let '(neg, s) :=
    match s with
    | String "-" r => (true, r)
    | String "+" r => (false, r)
    | _ => (false, s)
    end in
  let s :=
    match s with
    | String "0" (String x (String d r)) =>
        if (base =? 16) && (Ascii.eqb x "x" || Ascii.eqb x "X")
           && match digit_value 16 d with Some _ => true | None => false end
        then String d r else s
    | _ => s
    end in
  let '(v, n) := read_digits base s 0 0 in
  let v := if neg then - v else v in
  if Nat.eqb n 0 then None
  else if (v <? - 2 ^ 31) || (2 ^ 31 - 1 <? v) then None
  else Some v.

(** [s.erase(s.find_last_not_of(" \n\r\t") + 1)] *)
Definition is_trim (c : ascii) : bool :=
  let n := nat_of_ascii c in
  (Nat.eqb n 32 || Nat.eqb n 10 || Nat.eqb n 13 || Nat.eqb n 9)%bool.

Fixpoint rtrim (s : string) : string :=
  match s with
  | EmptyString => EmptyString
  | String c s' =>
      match rtrim s' with
      | EmptyString => if is_trim c then EmptyString else String c EmptyString
      | t => String c t
      end
  end.

(** The non-empty tokens of a line, split at spaces. *)
Fixpoint split_spaces (s : string) (token : string) : list string :=
  match s with
  | EmptyString => if Str.empty token then [] else [token]
  | String c s' =>
      if Ascii.eqb c " " then
        (if Str.empty token then [] else [token]) ++ split_spaces s' EmptyString
      else split_spaces s' (token +:+ String c EmptyString)
  end.

(** [hexToIp]: the address part of a [/proc/net/tcp] endpoint, bytes
    reversed, in dotted decimal; an exception of [std::stoi] leaves it. *)
Definition hexToIp (hex_addr : string) : Res string :=
  match Str.find hex_addr ":" with
  | None => Val hex_addr
  | Some colon_pos =>
      let ip_hex := Str.substr hex_addr 0 colon_pos in
      if Nat.eqb (String.length ip_hex) 8 then
        Res_bind
          (Res_mapM
             (fun i =>
                match stoi 16 (Str.substr ip_hex i 2) with
                | Some byte_val => Val (Str.of_Z byte_val +:+ (if Nat.ltb 0 i then "." else ""))
                | None => Throw (std_exception "stoi")
                end)
             [6; 4; 2; 0]%nat)
          (fun parts => Val (Str.concat parts))
      else Val hex_addr
  end.

Example hexToIp_example : hexToIp "0500000A:01BB" = Val "10.0.0.5".
Proof. vm_compute. reflexivity. Qed.

Definition suspicious_ports : list Z := [21; 22; 25; 110; 143; 993; 995].

Definition suspicious_commands : list string :=
  ["scp"; "rsync"; "ftp"; "sftp"; "wget"; "curl"; "nc"; "netcat"; "ssh"].

(** The keywords of the case-insensitive content search. *)
Definition has_keyword (lower_content : string) : bool :=
  Str.contains lower_content "confidential"
  || Str.contains lower_content "secret"
  || Str.contains lower_content "internal"
  || Str.contains lower_content "password"
  || Str.contains lower_content "api_key"
  || Str.contains lower_content "token".

(** What a fallback pass sees of the machine: the output of a command run
    through [popen], as the strings successive [fgets] calls return ([None]
    when the pipe cannot be opened), and the lines of [/proc/net/tcp]. *)
Record Machine : Type := mkMachine {
  popen : string -> option (list string);
  proc_net_tcp : option (list string)
}.

(** What a path names for [std::ifstream]: a regular file with its bytes,
    or a directory, which opens like a file and fails at the first read.
    A path that names nothing that can be opened is absent. *)
Inductive Node : Type :=
| regular (content : string)
| directory.

(** What the stream buffer throws when a read fails; the iterators of
    [checkContentAgainstPolicies] read the buffer directly, so nothing turns
    the exception into a stream state. *)
Definition underflow_error (strerror : string) : exn :=
  ios_failure ("basic_filebuf::underflow error reading the file: " +:+ strerror).

Section Engine.

(** The regular expression engine: [std::regex] and
    [std::regex_search(content, pattern)], which answers or throws
    [std::regex_error] ([None]). *)
Variable regex : Type.
Variable regex_search : string -> regex -> option bool.

Record DLPPolicy : Type := mkPolicy {
  name : string;
  file_extensions : list string;
  content_patterns : list regex;
  restricted_paths : list string;
  block_transfer : bool
}.

Record DLPMonitor : Type := mkMonitor {
  policies_ : list DLPPolicy;
  monitored_paths_ : gset string;
  running_ : bool;
  callback_ : bool
}.

(** [addPolicy], [removePolicy] *)
Definition addPolicy (policy : DLPPolicy) (m : DLPMonitor) : DLPMonitor :=
  mkMonitor (policies_ m ++ [policy])
    (list_to_set (restricted_paths policy) ∪ monitored_paths_ m)
    (running_ m) (callback_ m).

Definition removePolicy (policy_name : string) (m : DLPMonitor) : DLPMonitor :=
  mkMonitor (List.filter (fun p => negb (String.eqb (name p) policy_name)) (policies_ m))
    (monitored_paths_ m) (running_ m) (callback_ m).

(** *** Files against policies *)

(** The search of [checkContentAgainstPolicies] in a file's content: every
    pattern of every policy is tried; after a pattern that does not match,
    the keywords are searched in the lower-cased content; a pattern whose
    search throws [std::regex_error] is skipped. *)
Definition content_matches (policies : list DLPPolicy) (content : string) : bool :=
  let lower_content := Str.tolower content in
  List.existsb
    (fun policy =>
       List.existsb
         (fun pattern =>
            match regex_search content pattern with
            | Some true => true
            | Some false => has_keyword lower_content
            | None => false
            end)
         (content_patterns policy))
    policies.

(** [checkContentAgainstPolicies]: a path that cannot be opened and an
    empty file do not match; reading a directory throws, and the exception
    leaves the function. *)
Definition checkContentAgainstPolicies (files : gmap string Node)
  (policies : list DLPPolicy) (file_path : string) : Res bool :=
  match files !! file_path with
  | None => Val false
  | Some directory => Throw (underflow_error "Is a directory")
  | Some (regular content) =>
      if Str.empty content then Val false
      else Val (content_matches policies content)
  end.

(** The match of one policy by the path alone: an extension of the policy
    occurs in the path, or a restricted path of the policy starts it. *)
Definition matches_by_path (policy : DLPPolicy) (file_path : string) : bool :=
  List.existsb (fun ext => Str.contains file_path ext) (file_extensions policy)
  || List.existsb (fun path => Str.found_at_0 file_path path) (restricted_paths policy).

(** The loop of [checkFileAgainstPolicies] over the policies still to be
    tried: for each one the path is checked first and the content second,
    against the patterns of all [policies]. *)
Fixpoint check_file_loop (files : gmap string Node) (policies rest : list DLPPolicy)
  (file_path : string) : Res bool :=
  match rest with
  | [] => Val false
  | policy :: rest' =>
      if matches_by_path policy file_path then Val true
      else
        match checkContentAgainstPolicies files policies file_path with
        | Val true => Val true
        | Val false => check_file_loop files policies rest' file_path
        | Throw e => Throw e
        end
  end.

(** [checkFileAgainstPolicies] *)
Definition checkFileAgainstPolicies (files : gmap string Node)
  (policies : list DLPPolicy) (file_path : string) : Res bool :=
  check_file_loop files policies policies file_path.

(** *** The polling fallback *)

Definition checkPortAgainstPolicies (now : string) (m : DLPMonitor) (port : Z)
  : list DLPEvent :=
  if List.existsb (Z.eqb port) suspicious_ports then
    List.flat_map
      (fun policy =>
         if block_transfer policy && callback_ m then
           [mkEvent now "suspicious_port" "Network connection"
              ("localhost:" +:+ Str.of_Z port) "current_user"
              ("Connection to suspicious port: " +:+ Str.of_Z port) false]
         else [])
      (policies_ m)
  else [].

Definition checkDestinationAgainstPolicies (now : string) (m : DLPMonitor)
  (destination : string) : list DLPEvent :=
  List.flat_map
    (fun policy =>
       if List.existsb (fun restricted_dest => Str.contains destination restricted_dest)
            (restricted_paths policy)
       then
         if callback_ m then
           [mkEvent now "restricted_destination" "Network transfer" destination
              "current_user" ("Transfer to restricted destination: " +:+ destination)
              (block_transfer policy)]
         else []
       else [])
    (policies_ m).

Definition port_of_line (line : string) : option Z :=
  if Str.contains line "tcp" || Str.contains line "udp" then
    match Str.find_last_of line ":" with
    | Some colon_pos =>
        let port_str := Str.drop (S colon_pos) line in
        let port_str :=
          match Str.find port_str " " with
          | Some space_pos => Str.substr port_str 0 space_pos
          | None => port_str
          end in
        stoi 10 port_str
    | None => None
    end
  else None.

Definition ss_command : string :=
  "ss -tuln 2>/dev/null | grep -E ':(21|22|25|110|143|993|995|80|443)' || true".

(** [monitorNetworkConnections] *)
Definition monitorNetworkConnections (now : string) (env : Machine) (m : DLPMonitor)
  : list DLPEvent :=
  match popen env ss_command with
  | None => []
  | Some lines =>
      List.flat_map
        (fun line =>
           match port_of_line line with
           | Some port => checkPortAgainstPolicies now m port
           | None => []
           end)
        lines
  end.

(** [monitorSuspiciousProcesses] *)
Definition monitorSuspiciousProcesses (now : string) (env : Machine) (m : DLPMonitor)
  : list DLPEvent :=
  List.flat_map
    (fun cmd =>
       match popen env ("pgrep -x " +:+ cmd +:+ " 2>/dev/null || true") with
       | Some (buffer :: _) =>
           let pid_str := rtrim buffer in
           match popen env ("ps -p " +:+ pid_str +:+ " -o pid,ppid,cmd 2>/dev/null || true") with
           | Some (_ :: _) =>
               List.flat_map
                 (fun policy =>
                    if block_transfer policy && callback_ m then
                      [mkEvent now "suspicious_process" cmd "network" "current_user"
                         ("Suspicious network process detected: " +:+ cmd) false]
                    else [])
                 (policies_ m)
           | _ => []
           end
       | _ => []
       end)
    suspicious_commands.

(** [monitorFileTransfers]: the events emitted, and the exception that
    ended the pass early if [hexToIp] threw. *)
Fixpoint file_transfer_lines (now : string) (m : DLPMonitor) (lines : list string)
  : list DLPEvent * Res unit :=
  match lines with
  | [] => ([], Val tt)
  | line :: rest =>
      let fields := split_spaces line EmptyString in
      if Nat.leb 8 (List.length fields)
         && String.eqb (List.nth 3 fields EmptyString) "01" then
        match hexToIp (List.nth 2 fields EmptyString) with
        | Val readable_remote =>
            let '(evs, r) := file_transfer_lines now m rest in
            (checkDestinationAgainstPolicies now m readable_remote ++ evs, r)
        | Throw e => ([], Throw e)
        end
      else file_transfer_lines now m rest
  end.

Definition monitorFileTransfers (now : string) (env : Machine) (m : DLPMonitor)
  : list DLPEvent * Res unit :=
  match proc_net_tcp env with
  | None => ([], Val tt)
  | Some lines => file_transfer_lines now m (List.tl lines)
  end.

(** One pass of the loop of [fallbackNetworkMonitoring]. *)
Definition fallback_pass (now : string) (env : Machine) (m : DLPMonitor)
  : list DLPEvent * Res unit :=
  let '(evs, r) := monitorFileTransfers now env m in
  (monitorNetworkConnections now env m ++ monitorSuspiciousProcesses now env m ++ evs, r).

(** *** The file match predicate against its specification *)

(** The extension of a path: its file name from the last dot on, the dot
    included; none for a name without a dot or with a leading dot only. *)
Definition extension_of (path : string) : string :=
  let fn := Upgrade.filename path in
  match Str.find_last_of fn "." with
  | Some (S i) => Str.drop (S i) fn
  | _ => EmptyString
  end.

(** The match of one policy, in the specification's words: by extension,
    by path prefix, or by a content pattern of the policy. *)
Definition policy_matches_file (files : gmap string Node) (policy : DLPPolicy)
  (file_path : string) : Prop :=
  In (extension_of file_path) (file_extensions policy)
  \/ (exists path, In path (restricted_paths policy)
                   /\ String.prefix path file_path = true)
  \/ (exists content pattern,
        files !! file_path = Some (regular content)
        /\ In pattern (content_patterns policy)
        /\ regex_search content pattern = Some true).

(** What the content check looks for: a readable, non-empty file and a
    pattern of any policy that matches it, or that is searched without a
    match while the content holds one of the keywords in any case. *)
Definition content_hit (files : gmap string Node) (policies : list DLPPolicy)
  (file_path : string) : Prop :=
  exists content,
    files !! file_path = Some (regular content)
    /\ content <> EmptyString
    /\ exists policy pattern,
         In policy policies
         /\ In pattern (content_patterns policy)
         /\ (regex_search content pattern = Some true
             \/ (regex_search content pattern = Some false
                 /\ has_keyword (Str.tolower content) = true)).

(** The answer of the content check for a path that is not a directory. *)
Definition content_found (files : gmap string Node) (policies : list DLPPolicy)
  (file_path : string) : bool :=
  match files !! file_path with
  | Some (regular content) => negb (Str.empty content) && content_matches policies content
  | _ => false
  end.

Lemma checkContentAgainstPolicies_readable files policies file_path :
  files !! file_path <> Some directory ->
  checkContentAgainstPolicies files policies file_path
  = Val (content_found files policies file_path).
Proof.
  unfold checkContentAgainstPolicies, content_found. intros H.
  destruct (files !! file_path) as [[content|]|]; [|contradiction|reflexivity].
  destruct (Str.empty content); reflexivity.
Qed.

Lemma content_found_iff files policies file_path :
  content_found files policies file_path = true
  <-> content_hit files policies file_path.
Proof.
  unfold content_found, content_hit, content_matches.
  destruct (files !! file_path) as [[content|]|].
  2,3: split; [discriminate|intros (c & H & _); discriminate].
  destruct content as [|c0 content]; cbn [Str.empty negb andb].
  { split; [discriminate|]. intros (c & [= <-] & H & _). contradiction. }
  rewrite List.existsb_exists. split.
  - intros (policy & Hin & H). rewrite List.existsb_exists in H.
    destruct H as (pattern & Hp & H).
    eexists. split; [reflexivity|]. split; [discriminate|].
    exists policy, pattern. split; [exact Hin|]. split; [exact Hp|].
    destruct (regex_search _ pattern) as [[|]|]; [left; reflexivity|right; auto|discriminate].
  - intros (c & [= <-] & _ & policy & pattern & Hin & Hp & H).
    exists policy. split; [exact Hin|]. rewrite List.existsb_exists.
    exists pattern. split; [exact Hp|].
    destruct H as [->|[-> H]]; [reflexivity|exact H].
Qed.

(** On a path that is not a directory the loop answers, and says whether
    one of the policies it tries matches by the path or the content check
    finds something. *)
Lemma check_file_loop_readable files policies rest file_path :
  files !! file_path <> Some directory ->
  check_file_loop files policies rest file_path
  = Val (List.existsb
           (fun policy => matches_by_path policy file_path
                          || content_found files policies file_path)
           rest).
Proof.
  intros H. induction rest as [|policy rest IH]; [reflexivity|].
  cbn [check_file_loop List.existsb].
  rewrite (checkContentAgainstPolicies_readable _ _ _ H), IH.
  destruct (matches_by_path policy file_path); [reflexivity|].
  destruct (content_found files policies file_path); reflexivity.
Qed.

(** On a directory the first policy decides: it matches by the path, or
    the content check throws. *)
Lemma checkFileAgainstPolicies_directory files policies file_path :
  files !! file_path = Some directory ->
  checkFileAgainstPolicies files policies file_path
  = match policies with
    | [] => Val false
    | first :: _ =>
        if matches_by_path first file_path then Val true
        else Throw (underflow_error "Is a directory")
    end.
Proof.
  intros H. unfold checkFileAgainstPolicies.
  destruct policies as [|first rest]; [reflexivity|].
  cbn [check_file_loop]. unfold checkContentAgainstPolicies. rewrite H.
  reflexivity.
Qed.

Lemma matches_by_path_iff policy file_path :
  matches_by_path policy file_path = true
  <-> (exists ext, In ext (file_extensions policy)
                   /\ Str.contains file_path ext = true)
      \/ (exists path, In path (restricted_paths policy)
                       /\ String.prefix path file_path = true).
Proof.
  unfold matches_by_path. rewrite orb_true_iff, !List.existsb_exists.
  split; (intros [H|(path & Hp & H)]; [left; exact H|right]);
    exists path; (split; [exact Hp|]); apply Str.found_at_0_iff; exact H.
Qed.

(** [checkFileAgainstPolicies] on a path that is not a directory, exactly. *)
Lemma checkFileAgainstPolicies_iff files policies file_path :
  files !! file_path <> Some directory ->
  exists b,
    checkFileAgainstPolicies files policies file_path = Val b
    /\ (b = true
        <-> (exists policy,
                In policy policies
                /\ ((exists ext, In ext (file_extensions policy)
                                 /\ Str.contains file_path ext = true)
                    \/ (exists path, In path (restricted_paths policy)
                                     /\ String.prefix path file_path = true)))
            \/ content_hit files policies file_path).
Proof.
  intros Hdir. unfold checkFileAgainstPolicies.
  rewrite (check_file_loop_readable _ _ _ _ Hdir).
  eexists. split; [reflexivity|].
  rewrite List.existsb_exists. split.
  - intros (policy & Hin & H). rewrite orb_true_iff in H.
    destruct H as [H|H].
    + left. exists policy. split; [exact Hin|]. apply matches_by_path_iff. exact H.
    + right. apply content_found_iff. exact H.
  - intros [(policy & Hin & H)|H].
    + exists policy. split; [exact Hin|].
      apply orb_true_iff. left. apply matches_by_path_iff. exact H.
    + pose proof H as (c & _ & _ & policy & _ & Hin & _).
      exists policy. split; [exact Hin|].
      apply orb_true_iff. right. apply content_found_iff. exact H.
Qed.

Lemma take_drop n s : Str.take n s +:+ Str.drop n s = s.
Proof.
  revert s. induction n as [|n IH]; intros [|c s]; try reflexivity.
  cbn [Str.take Str.drop].
  change (String c (Str.take n s +:+ Str.drop n s) = String c s).
  rewrite IH. reflexivity.
Qed.

Lemma append_empty_r s : s +:+ EmptyString = s.
Proof.
  induction s as [|c s IH]; [reflexivity|].
  change (String c (s +:+ EmptyString) = String c s). rewrite IH. reflexivity.
Qed.

Lemma append_assoc a b c : (a +:+ b) +:+ c = a +:+ b +:+ c.
Proof.
  induction a as [|x a IH]; [reflexivity|].
  change (String x ((a +:+ b) +:+ c) = String x (a +:+ b +:+ c)).
  rewrite IH. reflexivity.
Qed.

Lemma contains_drop n s : Str.contains s (Str.drop n s) = true.
Proof.
  apply Str.contains_iff. exists (Str.take n s), EmptyString.
  rewrite append_empty_r, take_drop. reflexivity.
Qed.

Lemma contains_empty s : Str.contains s EmptyString = true.
Proof.
  apply Str.contains_iff. exists EmptyString, s. reflexivity.
Qed.

Lemma contains_trans s t u :
  Str.contains s t = true -> Str.contains t u = true -> Str.contains s u = true.
Proof.
  rewrite !Str.contains_iff. intros (a & b & ->) (c & d & ->).
  exists (a +:+ c), (d +:+ b). rewrite !append_assoc. reflexivity.
Qed.

(** The extension of a path occurs in the path. *)
Lemma contains_extension file_path :
  Str.contains file_path (extension_of file_path) = true.
Proof.
  unfold extension_of.
  destruct (Str.find_last_of (Upgrade.filename file_path) ".") as [[|i]|];
    try apply contains_empty.
  apply contains_trans with (t := Upgrade.filename file_path);
    [|apply contains_drop].
  unfold Upgrade.filename.
  destruct (Str.find_last_of file_path "/"); [apply contains_drop|].
  apply Str.contains_iff. exists EmptyString, EmptyString.
  rewrite append_empty_r. reflexivity.
Qed.

(** C3, amended. On a path that is not a directory the predicate returns
    true whenever some policy has the file's extension in its extension set
    or a restricted path that is a prefix of the file path, and whenever the
    file is readable and not empty and a content pattern of any policy
    matches it or, searched without a match, leaves the keyword search to
    find one of confidential, secret, internal, password, api_key, token in
    any case. It returns false when no extension of a policy occurs in the
    path, no restricted path is a prefix of it, and the content check finds
    nothing. *)
Theorem checkFileAgainstPolicies_bounds files policies file_path :
  files !! file_path <> Some directory ->
  ((exists policy,
       In policy policies
       /\ (In (extension_of file_path) (file_extensions policy)
           \/ (exists path, In path (restricted_paths policy)
                            /\ String.prefix path file_path = true)))
   \/ content_hit files policies file_path ->
   checkFileAgainstPolicies files policies file_path = Val true)
  /\ ((forall policy ext,
         In policy policies -> In ext (file_extensions policy) ->
         Str.contains file_path ext = false)
      /\ (forall policy path,
            In policy policies -> In path (restricted_paths policy) ->
            String.prefix path file_path = false)
      /\ ~ content_hit files policies file_path ->
      checkFileAgainstPolicies files policies file_path = Val false).
Proof.
  intros Hdir.
  destruct (checkFileAgainstPolicies_iff files policies file_path Hdir)
    as (b & -> & Hb).
  split.
  - intros H. f_equal. apply Hb.
    destruct H as [(policy & Hin & H)|H]; [left|right; exact H].
    exists policy. split; [exact Hin|].
    destruct H as [H|H]; [left|right; exact H].
    exists (extension_of file_path). split; [exact H|apply contains_extension].
  - intros (He & Hp & Hc). f_equal. apply not_true_iff_false. intros H.
    apply Hb in H.
    destruct H as [(policy & Hin & [(ext & Hi & H)|(path & Hi & H)])|H].
    + rewrite (He _ _ Hin Hi) in H. discriminate.
    + rewrite (Hp _ _ Hin Hi) in H. discriminate.
    + contradiction.
Qed.

(** *** The block flag of the fallback's events *)

Definition alert_only (e : DLPEvent) : Prop :=
  (type e = "suspicious_port" \/ type e = "suspicious_process") /\ blocked e = false.

(** A restricted-destination event carries the block flag of the policy
    whose restricted destination occurs in the remote address. *)
Definition flagged_by_policy (m : DLPMonitor) (e : DLPEvent) : Prop :=
  type e = "restricted_destination"
  /\ exists policy dest,
       In policy (policies_ m)
       /\ In dest (restricted_paths policy)
       /\ Str.contains (destination e) dest = true
       /\ blocked e = block_transfer policy.

Lemma checkPortAgainstPolicies_events now m port e :
  In e (checkPortAgainstPolicies now m port) -> alert_only e.
Proof.
  unfold checkPortAgainstPolicies.
  destruct (List.existsb _ _); [|intros []].
  rewrite List.in_flat_map. intros (policy & _ & H).
  destruct (block_transfer policy && callback_ m); [|destruct H].
  destruct H as [<-|[]]. split; [left; reflexivity|reflexivity].
Qed.

Lemma checkDestinationAgainstPolicies_events now m dest e :
  In e (checkDestinationAgainstPolicies now m dest) -> flagged_by_policy m e.
Proof.
  unfold checkDestinationAgainstPolicies.
  rewrite List.in_flat_map. intros (policy & Hin & H).
  destruct (List.existsb _ _) eqn:E; [|destruct H].
  destruct (callback_ m); [|destruct H].
  destruct H as [<-|[]].
  apply List.existsb_exists in E. destruct E as (d & Hd & E).
  split; [reflexivity|]. exists policy, d. cbn. auto.
Qed.

Lemma monitorNetworkConnections_events now env m e :
  In e (monitorNetworkConnections now env m) -> alert_only e.
Proof.
  unfold monitorNetworkConnections.
  destruct (popen env ss_command) as [lines|]; [|intros []].
  rewrite List.in_flat_map. intros (line & _ & H).
  destruct (port_of_line line); [|destruct H].
  eapply checkPortAgainstPolicies_events. exact H.
Qed.

Lemma monitorSuspiciousProcesses_events now env m e :
  In e (monitorSuspiciousProcesses now env m) -> alert_only e.
Proof.
  unfold monitorSuspiciousProcesses.
  rewrite List.in_flat_map. intros (cmd & _ & H).
  destruct (popen env _) as [[|buffer ?]|]; try destruct H.
  destruct (popen env _) as [[|? ?]|]; try destruct H.
  rewrite List.in_flat_map in H. destruct H as (policy & _ & H).
  destruct (block_transfer policy && callback_ m); [|destruct H].
  destruct H as [<-|[]]. split; [right; reflexivity|reflexivity].
Qed.

Lemma file_transfer_lines_events now m lines e :
  In e (fst (file_transfer_lines now m lines)) -> flagged_by_policy m e.
Proof.
  induction lines as [|line rest IH]; cbn [file_transfer_lines]; [intros []|].
  destruct (Nat.leb 8 _ && String.eqb _ "01"); [|exact IH].
  destruct (hexToIp _) as [remote|ex]; [|intros []].
  destruct (file_transfer_lines now m rest) as [evs r]. cbn [fst] in *.
  rewrite in_app_iff. intros [H|H]; [|auto].
  eapply checkDestinationAgainstPolicies_events. exact H.
Qed.

(** C8, amended. In a pass of the polling fallback every suspicious-port
    and suspicious-process event has [blocked = false]; a
    restricted-destination event carries the [block_transfer] flag of the
    policy whose restricted destination occurs in the remote address. The
    pass emits no other kind of event. *)
Theorem fallback_pass_blocked now env m e :
  In e (fst (fallback_pass now env m)) ->
  alert_only e \/ flagged_by_policy m e.
Proof.
  unfold fallback_pass, monitorFileTransfers.
  destruct (proc_net_tcp env) as [lines|].
  - pose proof (file_transfer_lines_events now m (List.tl lines) e) as Hf.
    destruct (file_transfer_lines now m (List.tl lines)) as [evs r].
    cbn [fst] in *. rewrite !in_app_iff. intros [H|[H|H]].
    + left. eapply monitorNetworkConnections_events. exact H.
    + left. eapply monitorSuspiciousProcesses_events. exact H.
    + right. auto.
  - cbn [fst]. rewrite !in_app_iff. intros [H|[H|[]]]; left.
    + eapply monitorNetworkConnections_events. exact H.
    + eapply monitorSuspiciousProcesses_events. exact H.
Qed.

End Engine.

(** *** The agent's configuration *)

(** Patterns without metacharacters, such as the ones the agent configures
    ([std::regex("confidential")], ...): the search is a substring search
    and does not throw. *)
Definition literal_search (content pattern : string) : option bool :=
  Some (Str.contains content pattern).

(** The two policies installed by the agent's [main]. *)
Definition confidential_policy : DLPPolicy string :=
  mkPolicy string "confidential_files" [".docx"; ".xlsx"; ".pdf"; ".txt"]
    ["confidential"; "secret"; "internal"] ["/home"; "/tmp"] true.

Definition sensitive_policy : DLPPolicy string :=
  mkPolicy string "sensitive_data" [".sql"; ".db"; ".key"; ".pem"]
    ["password"; "api_key"; "token"] ["/var"; "/etc"] true.

Definition agent_monitor : DLPMonitor string :=
  addPolicy string sensitive_policy
    (addPolicy string confidential_policy (mkMonitor string [] ∅ false true)).

Example report_pdf_matches :
  checkFileAgainstPolicies string literal_search ∅ (policies_ string agent_monitor)
    "/opt/data/report.pdf" = Val true.
Proof. vm_compute. reflexivity. Qed.

(** A policy with one content pattern and nothing else, and a file that
    does not contain it. *)
Definition project_policy : DLPPolicy string :=
  mkPolicy string "project" [] ["project-x"] [] true.

Definition notes_path : string := "/srv/share/notes.md".

Definition notes_files : gmap string Node :=
  {[ notes_path := regular "deploy with API_KEY=123" ]}.

(** C3, as stated, fails: the file matches the only policy by none of
    extension, path prefix and content pattern, and the predicate returns
    true, for the keyword it finds in the content. *)
Lemma checkFileAgainstPolicies_keyword_only :
  checkFileAgainstPolicies string literal_search notes_files [project_policy] notes_path
  = Val true
  /\ ~ exists policy,
        In policy [project_policy]
        /\ policy_matches_file string literal_search notes_files policy notes_path.
Proof.
  split; [vm_compute; reflexivity|].
  intros (policy & [<-|[]] & [H|[(path & [] & _)|(content & pattern & Hc & Hp & H)]]).
  - destruct H.
  - unfold notes_files in Hc. rewrite lookup_singleton_eq in Hc.
    injection Hc as <-. destruct Hp as [<-|[]].
    vm_compute in H. discriminate.
Qed.

(** A directory under a watched path, and two policies of which the second
    restricts that path: the content check made for the first policy ends
    the call with an exception. *)
Definition drop_files : gmap string Node := {[ "/srv/share/drop" := directory ]}.

Definition share_policy : DLPPolicy string :=
  mkPolicy string "share" [] [] ["/srv/share"] true.

Example checkFileAgainstPolicies_throws :
  checkFileAgainstPolicies string literal_search drop_files
    [project_policy; share_policy] "/srv/share/drop"
  = Throw (underflow_error "Is a directory").
Proof. vm_compute. reflexivity. Qed.

Lemma checkFileAgainstPolicies_bounds_witness :
  checkFileAgainstPolicies string literal_search notes_files
    (policies_ string agent_monitor) "/opt/data/report.pdf" = Val true
  /\ checkFileAgainstPolicies string literal_search notes_files
       [project_policy] "/opt/data/report.bin" = Val false.
Proof.
  split.
  - apply (proj1 (checkFileAgainstPolicies_bounds string literal_search notes_files
                    (policies_ string agent_monitor) "/opt/data/report.pdf"
                    ltac:(vm_compute; discriminate))).
    left. exists confidential_policy. split; [left; reflexivity|].
    left. vm_compute. auto.
  - apply (proj2 (checkFileAgainstPolicies_bounds string literal_search notes_files
                    [project_policy] "/opt/data/report.bin"
                    ltac:(vm_compute; discriminate))).
    split; [|split].
    + intros policy ext [<-|[]] [].
    + intros policy path [<-|[]] [].
    + intros (content & Hc & _). vm_compute in Hc. discriminate.
Defined.

(** A machine with one established connection, to 10.0.0.5:443, and a
    policy that restricts that address. *)
Definition one_connection : Machine :=
  {| popen := fun _ => Some [];
     proc_net_tcp :=
       Some ["  sl  local_address rem_address   st tx_queue rx_queue tr tm->when retrnsmt   uid  timeout inode";
             "   1: 0100007F:A1B2 0500000A:01BB 01 00000000:00000000 00:00000000 00000000  1000        0 12345 1 0000000000000000 20 4 30 10 -1"] |}.

Definition restricting_monitor : DLPMonitor string :=
  mkMonitor string
    [mkPolicy string "no_lab_uploads" [] [] ["10.0.0.5"] true] ∅ true true.

(** C8, as stated, fails: the fallback pass emits a restricted-destination
    event with [blocked = true]. *)
Lemma fallback_pass_blocks :
  fst (fallback_pass string "2025-01-06 12:00:00" one_connection restricting_monitor)
  = [mkEvent "2025-01-06 12:00:00" "restricted_destination" "Network transfer"
       "10.0.0.5" "current_user" "Transfer to restricted destination: 10.0.0.5" true].
Proof. vm_compute. reflexivity. Qed.

Lemma fallback_pass_blocked_witness :
  flagged_by_policy string restricting_monitor
    (mkEvent "2025-01-06 12:00:00" "restricted_destination" "Network transfer"
       "10.0.0.5" "current_user" "Transfer to restricted destination: 10.0.0.5" true).
Proof.
  destruct (fallback_pass_blocked string "2025-01-06 12:00:00" one_connection
              restricting_monitor
              (mkEvent "2025-01-06 12:00:00" "restricted_destination" "Network transfer"
                 "10.0.0.5" "current_user"
                 "Transfer to restricted destination: 10.0.0.5" true)
              ltac:(vm_compute; auto)) as [[[H|H] _]|H].
  - discriminate H.
  - discriminate H.
  - exact H.
Defined.

End DLP.

(** ** The upgrade manager: what its operations guarantee *)

Module UpgradeProps.
Import Upgrade.
Local Open Scope upg_scope.

(** [operator!=], [operator<=] and [operator>=] on versions *)
Definition version_ne (a b : VersionInfo) : bool := negb (version_eqb a b).
Definition version_le (a b : VersionInfo) : bool := version_lt a b || version_eqb a b.
Definition version_ge (a b : VersionInfo) : bool := version_gt a b || version_eqb a b.

(** The number triple a version is compared by. *)
Definition triple (v : VersionInfo) : Z * Z * Z := (major v, minor v, patch v).

Lemma version_eqb_triple a b : version_eqb a b = true <-> triple a = triple b.
Proof.
  unfold version_eqb, triple. rewrite !andb_true_iff, !Z.eqb_eq.
  split; [intros [[-> ->] ->]; reflexivity|intros [= -> -> ->]; auto].
Qed.

Lemma version_lt_irrefl a : version_lt a a = false.
Proof. unfold version_lt. rewrite !Z.eqb_refl. cbn. apply Z.ltb_irrefl. Qed.

Lemma version_lt_trans a b c :
  version_lt a b = true -> version_lt b c = true -> version_lt a c = true.
Proof.
  unfold version_lt.
  destruct (Z.eqb_spec (major a) (major b)), (Z.eqb_spec (major b) (major c)),
    (Z.eqb_spec (major a) (major c)),
    (Z.eqb_spec (minor a) (minor b)), (Z.eqb_spec (minor b) (minor c)),
    (Z.eqb_spec (minor a) (minor c)); cbn [negb];
    rewrite ?Z.ltb_lt; lia.
Qed.

Lemma version_trichotomy a b :
  (version_lt a b = true /\ version_eqb a b = false /\ version_gt a b = false)
  \/ (version_lt a b = false /\ version_eqb a b = true /\ version_gt a b = false)
  \/ (version_lt a b = false /\ version_eqb a b = false /\ version_gt a b = true).
Proof.
  unfold version_gt, version_lt, version_eqb.
  destruct (Z.eqb_spec (major a) (major b)), (Z.eqb_spec (major b) (major a)),
    (Z.eqb_spec (minor a) (minor b)), (Z.eqb_spec (minor b) (minor a)),
    (Z.eqb_spec (patch a) (patch b)); cbn [negb andb];
    rewrite ?Z.ltb_lt, ?Z.ltb_ge; lia.
Qed.

(** X1. The comparison operators of [VersionInfo] order versions by their
    number triple, strictly and totally; the build tag and the release date
    take no part. *)
Theorem version_order :
  (forall a, version_lt a a = false)
  /\ (forall a b c,
        version_lt a b = true -> version_lt b c = true -> version_lt a c = true)
  /\ (forall a b,
        (version_lt a b = true /\ version_eqb a b = false /\ version_gt a b = false)
        \/ (version_lt a b = false /\ version_eqb a b = true /\ version_gt a b = false)
        \/ (version_lt a b = false /\ version_eqb a b = false /\ version_gt a b = true))
  /\ (forall a b, version_le a b = negb (version_gt a b))
  /\ (forall a b, version_ge a b = negb (version_lt a b))
  /\ (forall a b, version_ne a b = version_lt a b || version_gt a b)
  /\ (forall a b, version_eqb a b = true <-> triple a = triple b).
Proof.
  split; [exact version_lt_irrefl|]. split; [exact version_lt_trans|].
  split; [exact version_trichotomy|].
  unfold version_le, version_ge, version_ne.
  repeat split; try (intros a b;
    destruct (version_trichotomy a b) as [(-> & -> & ->)|[(-> & -> & ->)|(-> & -> & ->)]];
    reflexivity); apply version_eqb_triple.
Qed.

(** Symbolic execution of an operation: unfold the plumbing, then split on
    the next result or condition that is still unknown. *)
Ltac exec_unfold :=
  repeat (progress
    (cbv beta iota zeta delta
       [bind ret lift emit throw get_mgr get_world modify_mgr put_files assign_update
        when try_catch json_field fst snd mgr world Res_bind];
     rewrite ?updateStatus_run)).

Ltac exec_split :=
  match goal with
  | |- context [match ?r with Val _ => _ | Throw _ => _ end] =>
      lazymatch r with
      | context [match _ with _ => _ end] => fail
      | _ => destruct r eqn:?
      end
  | |- context [if ?b then _ else _] =>
      lazymatch b with
      | context [match _ with _ => _ end] => fail
      | _ => destruct b eqn:?
      end
  | |- context [match ?e with parse_error _ => _ | _ => _ end] =>
      is_var e; destruct e
  end.

Ltac exec := exec_unfold; repeat (exec_split; exec_unfold).

Lemma set_files_same w : set_files (files w) w = w.
Proof. destruct w; reflexivity. Qed.

Lemma opened_dev_null s : opened dev_null s = s.
Proof. unfold opened. cbn. rewrite set_files_same. destruct s; reflexivity. Qed.

(** The transport failed: no handle, no output file, a transfer error, or
    an empty body. *)
Definition transport_failed (t : Transfer) (s : Sys) : bool :=
  negb (curl_handle t) || cannot_open (world s) dev_null
  || match result t with CURLE_OK => Str.empty (received t) | _ => true end.

(** [getLatestVersionInfo] touches no file, and of the manager only the
    record of the last network error; its result is empty exactly when the
    transport failed. *)
Lemma getLatestVersionInfo_run t s :
  exists info m evs,
    getLatestVersionInfo t s = (Val info, mkSys m (world s), evs)
    /\ Str.empty info = transport_failed t s
    /\ (transport_failed t s = false -> info = received t)
    /\ (m = mgr s \/ m = set_last_network_error (network_error t) (mgr s)).
Proof.
  unfold getLatestVersionInfo, bind, get_mgr, transport_failed.
  rewrite downloadFile_run, opened_dev_null.
  destruct (negb (curl_handle t));
    [destruct s; cbn; eexists _, _, _; intuition discriminate|].
  destruct (cannot_open _ _);
    [destruct s; cbn; eexists _, _, _; intuition discriminate|].
  cbn zeta.
  destruct (result t); cbn; destruct s; cbn; eexists _, _, _;
    (split; [reflexivity|]); intuition discriminate.
Qed.

(** Where a [checkForUpdates] call ends. *)
Definition settled (s : Sys) (b : bool) (s' : Sys) : Prop :=
  world s' = world s
  /\ (status_ (mgr s') = IDLE \/ (b = false /\ status_ (mgr s') = FAILED))
  /\ update_available_ (mgr s') = update_available_ (mgr s) || b
  /\ (b = true ->
      version_gt (version (available_update_ (mgr s'))) (current_version_ (mgr s)) = true)
  /\ current_version_ (mgr s') = current_version_ (mgr s).

Ltac manager_fields :=
  cbn [mgr world status_ status_message_ set_status update_available_
       set_available_update set_update_available set_last_network_error
       available_update_ version download_url checksum release_notes file_size
       signature set_version set_download_url
       set_checksum set_release_notes set_file_size set_signature
       current_version_ last_network_error_ update_server_url_ backup_directory_
       backup_enabled_ temp_directory_ auto_update_interval_
       update_available_callback_ progress_callback_ status_callback_] in *.

Lemma checkForUpdates_settled t s :
  exists b s' evs, checkForUpdates t s = (Val b, s', evs) /\ settled s b s'.
Proof.
  unfold checkForUpdates.
  unfold bind at 1, emit at 1.
  unfold bind at 1. rewrite updateStatus_run.
  unfold try_catch.
  unfold bind at 1.
  destruct (getLatestVersionInfo_run t
              (mkSys (set_status CHECKING "Checking for updates..." (mgr s)) (world s)))
    as (info & m & evs & -> & _ & _ & Hm).
  cbn [world mgr] in *.
  assert (Hu : update_available_ m = update_available_ (mgr s))
    by (destruct Hm as [->| ->]; reflexivity).
  assert (Hc : current_version_ m = current_version_ (mgr s))
    by (destruct Hm as [->| ->]; reflexivity).
  clear Hm.
  exec.
  all: eexists _, _, _; (split; [reflexivity|]); unfold settled; manager_fields;
    rewrite ?Hu, ?Hc, ?orb_false_r, ?orb_true_r;
    repeat split; auto; try discriminate; try congruence.
Qed.

(** X2. [checkForUpdates] never lets an exception escape and never touches a
    file. It ends in IDLE, or in FAILED with result false; it sets the
    update-available flag when it returns true and never clears it; a true
    result means the recorded update is newer than the running version,
    which stays what it was. *)
Theorem checkForUpdates_outcome t s :
  exists b,
    result_of (checkForUpdates t s) = Val b
    /\ settled s b (state_of (checkForUpdates t s)).
Proof.
  destruct (checkForUpdates_settled t s) as (b & s' & evs & -> & H).
  exists b. split; [reflexivity|exact H].
Qed.

Definition no_version_information : string :=
  "Failed to retrieve version information - backend server may not be running or network connection failed".

Lemma checkForUpdates_transport t s :
  exists b s' evs,
    checkForUpdates t s = (Val b, s', evs)
    /\ (status_message_ (mgr s') = no_version_information
        <-> transport_failed t s = true)
    /\ (transport_failed t s = true ->
        b = false
        /\ status_ (mgr s') = FAILED
        /\ available_update_ (mgr s') = available_update_ (mgr s)
        /\ update_available_ (mgr s') = update_available_ (mgr s)).
Proof.
  unfold no_version_information, checkForUpdates.
  unfold bind at 1, emit at 1.
  unfold bind at 1. rewrite updateStatus_run.
  unfold try_catch.
  unfold bind at 1.
  destruct (getLatestVersionInfo_run t
              (mkSys (set_status CHECKING "Checking for updates..." (mgr s)) (world s)))
    as (info & m & evs & -> & Ht & _ & Hm).
  change (transport_failed t (mkSys (set_status CHECKING "Checking for updates..." (mgr s))
                                (world s)))
    with (transport_failed t s) in Ht.
  rewrite <- Ht. clear Ht.
  assert (Hu : update_available_ m = update_available_ (mgr s))
    by (destruct Hm as [->| ->]; reflexivity).
  assert (Ha : available_update_ m = available_update_ (mgr s))
    by (destruct Hm as [->| ->]; reflexivity).
  clear Hm.
  destruct (Str.empty info) eqn:E.
  - exec. eexists _, _, _. split; [reflexivity|].
    cbn [mgr status_message_ status_ set_status available_update_ update_available_].
    tauto.
  - clear Hu Ha.
    exec; (eexists _, _, _; split; [reflexivity|]);
      cbn [mgr status_message_ set_status];
      (split; [split|]); discriminate.
Qed.

(** X3. [checkForUpdates] reports that no version information could be
    retrieved exactly when the transport failed; it returns false then, and
    the recorded update and the update-available flag are as before. *)
Theorem checkForUpdates_transport_failure t s :
  let s' := state_of (checkForUpdates t s) in
  (status_message_ (mgr s') = no_version_information <-> transport_failed t s = true)
  /\ (transport_failed t s = true ->
      result_of (checkForUpdates t s) = Val false
      /\ status_ (mgr s') = FAILED
      /\ available_update_ (mgr s') = available_update_ (mgr s)
      /\ update_available_ (mgr s') = update_available_ (mgr s)).
Proof.
  cbn zeta. destruct (checkForUpdates_transport t s) as (b & s' & evs & -> & H1 & H2).
  unfold state_of, result_of. cbn [fst snd]. split; [exact H1|].
  intros H. destruct (H2 H) as (-> & H3). auto.
Qed.
(** X4. The auto-update loop, for any number of iterations: no iteration lets
    an exception escape, no file is touched, the running version stays what
    it was, and an update-available flag that is set stays set. *)
Theorem autoUpdateCheckLoop_outcome ts s :
  exists s' evs,
    autoUpdateCheckLoop ts s = (Val tt, s', evs)
    /\ world s' = world s
    /\ current_version_ (mgr s') = current_version_ (mgr s)
    /\ (update_available_ (mgr s) = true -> update_available_ (mgr s') = true)
    /\ (ts <> [] -> status_ (mgr s') = IDLE \/ status_ (mgr s') = FAILED).
Proof.
  unfold autoUpdateCheckLoop. revert s.
  induction ts as [|t ts IH]; intros s.
  - eexists _, _. split; [reflexivity|]. repeat split; auto. congruence.
  - cbn [forM]. unfold bind at 1. unfold bind at 1.
    destruct (checkForUpdates_settled t s) as (b & s1 & ev1 & -> & Hw & Hst & Hu & _ & Hc).
    cbn [ret].
    destruct (IH s1) as (s2 & ev2 & E2 & Hw2 & Hc2 & Hu2 & Hst2).
    rewrite E2. eexists _, _. split; [reflexivity|].
    split; [congruence|]. split; [congruence|]. split.
    + intros H. apply Hu2. rewrite Hu, H. reflexivity.
    + intros _. destruct ts as [|t' ts'].
      * cbn in E2. injection E2 as <- _. tauto.
      * apply Hst2. discriminate.
Qed.

(** The version a descriptor names: the initialiser of [latest_version]. *)
Definition latest_version_of (j : Json.json) : Res VersionInfo :=
  Res_bind (Res_bind (Json.at_key j "major") Json.get_int) (fun v_major =>
  Res_bind (Res_bind (Json.at_key j "minor") Json.get_int) (fun v_minor =>
  Res_bind (Res_bind (Json.at_key j "patch") Json.get_int) (fun v_patch =>
  Res_bind (Json.value_or Json.get_string j "build" "") (fun v_build =>
  Res_bind (Json.value_or Json.get_string j "release_date" "") (fun v_date =>
  Val (mkVersion v_major v_minor v_patch v_build v_date)))))).

(** X5. A descriptor that names a newer version but has no [download_url]:
    [checkForUpdates] fails, but has already recorded the new version beside
    the URL and checksum it held before. *)
Theorem checkForUpdates_torn_update t s j v :
  transport_failed t s = false ->
  Json.parse (received t) = Val j ->
  latest_version_of j = Val v ->
  version_gt v (current_version_ (mgr s)) = true ->
  Json.contains j "download_url" = false ->
  exists s' evs,
    checkForUpdates t s = (Val false, s', evs)
    /\ status_ (mgr s') = FAILED
    /\ version (available_update_ (mgr s')) = v
    /\ download_url (available_update_ (mgr s')) = download_url (available_update_ (mgr s))
    /\ checksum (available_update_ (mgr s')) = checksum (available_update_ (mgr s))
    /\ update_available_ (mgr s') = update_available_ (mgr s).
Proof.
  intros Ht Hj Hv Hgt Hurl.
  unfold checkForUpdates.
  unfold bind at 1, emit at 1.
  unfold bind at 1. rewrite updateStatus_run.
  unfold try_catch.
  unfold bind at 1.
  destruct (getLatestVersionInfo_run t
              (mkSys (set_status CHECKING "Checking for updates..." (mgr s)) (world s)))
    as (info & m & evs & -> & He & Hi & Hm).
  change (transport_failed t (mkSys (set_status CHECKING "Checking for updates..." (mgr s))
                                (world s)))
    with (transport_failed t s) in He, Hi.
  rewrite Ht in He. rewrite (Hi Ht). rewrite (Hi Ht) in He. clear Hi.
  assert (Hu : update_available_ m = update_available_ (mgr s))
    by (destruct Hm as [->| ->]; reflexivity).
  assert (Ha : available_update_ m = available_update_ (mgr s))
    by (destruct Hm as [->| ->]; reflexivity).
  assert (Hc : current_version_ m = current_version_ (mgr s))
    by (destruct Hm as [->| ->]; reflexivity).
  clear Hm. rewrite He. exec_unfold. rewrite Hj.
  destruct j as [| | | | | |o]; try discriminate Hurl;
    try (unfold latest_version_of, Json.at_key, Json.get_int, Res_bind in Hv;
         discriminate Hv).
  unfold Json.contains in Hurl. unfold Json.at_key at 4.
  destruct (Json.obj_lookup "download_url" o); [discriminate|]. clear Hurl.
  rewrite <- Hc in Hgt. revert Hv Hgt. unfold latest_version_of.
  exec; intros Hv; try discriminate Hv; injection Hv as <-; intros Hgt;
    try congruence;
    try match goal with
        | H : Json.get_string Json.JNull = Val _ |- _ => discriminate H
        end.
  all: eexists _, _; (split; [reflexivity|]); manager_fields;
    repeat split; first [reflexivity|rewrite Ha; reflexivity|rewrite Hu; reflexivity].
Qed.

Definition torn_descriptor : string := Json.dq "{'major': 2, 'minor': 0, 'patch': 0}".

Lemma checkForUpdates_torn_update_witness :
  exists s' evs,
    checkForUpdates (sample_transfer torn_descriptor) sample_sys = (Val false, s', evs)
    /\ version (available_update_ (mgr s')) = mkVersion 2 0 0 "" "".
Proof.
  destruct (checkForUpdates_torn_update (sample_transfer torn_descriptor) sample_sys
              (Json.JObject [("major", Json.JInt 2); ("minor", Json.JInt 0);
                             ("patch", Json.JInt 0)])
              (mkVersion 2 0 0 "" "")
              ltac:(vm_compute; reflexivity) ltac:(vm_compute; reflexivity)
              ltac:(vm_compute; reflexivity) ltac:(vm_compute; reflexivity)
              ltac:(vm_compute; reflexivity))
    as (s' & evs & H1 & _ & H2 & _).
  exists s', evs. split; [exact H1|exact H2].
Defined.

(** *** What a check finds, and what it announces *)

(** The rest of the descriptor, as it is read after a newer version was
    recorded: the assignments to [available_update_], in their order. *)
Definition update_of (j : Json.json) (v : VersionInfo) : Res UpdateInfo :=
  Res_bind (Res_bind (Json.at_key j "download_url") Json.get_string) (fun url =>
  Res_bind (Res_bind (Json.at_key j "checksum") Json.get_string) (fun sum =>
  Res_bind (Json.value_or Json.get_string j "release_notes" "") (fun notes =>
  Res_bind (Json.value_or Json.get_int j "file_size" 0) (fun size =>
  Res_bind (Json.value_or Json.get_string j "signature" "") (fun sig =>
  Val (mkUpdate v url sum notes (size mod 2 ^ 64) sig)))))).

(** The update a check finds: the server has answered with a descriptor
    that names a version newer than the running one and can be read in
    full. *)
Definition found_update (t : Transfer) (s : Sys) : option UpdateInfo :=
  if transport_failed t s then None
  else
    match
      Res_bind (Json.parse (received t)) (fun j =>
      Res_bind (latest_version_of j) (fun v =>
      if version_gt v (current_version_ (mgr s))
      then Res_bind (update_of j v) (fun u => Val (Some u))
      else Val None))
    with
    | Val found => found
    | Throw _ => None
    end.

Definition finds (s : Sys) (t : Transfer) : bool :=
  match found_update t s with Some _ => true | None => false end.

(** The updates the update-available callback was invoked with. *)
Definition announced (evs : list Event) : list UpdateInfo :=
  List.flat_map
    (fun e => match e with update_available_callback u => [u] | _ => [] end)
    evs.

Lemma announced_app l1 l2 : announced (l1 ++ l2) = announced l1 ++ announced l2.
Proof. apply List.flat_map_app. Qed.

Lemma announced_status cb st msg : announced (status_events cb st msg) = [].
Proof. destruct cb; reflexivity. Qed.

Lemma length_announced evs : List.length (announced evs) = fired evs.
Proof.
  unfold announced, fired. induction evs as [|e evs IH]; [reflexivity|].
  destruct e; cbn [List.flat_map List.filter is_update_available app List.length];
    rewrite ?IH; reflexivity.
Qed.

Lemma fired_for_announced v evs :
  fired_for v evs
  = List.length (List.filter (fun u => version_eqb (version u) v) (announced evs)).
Proof.
  unfold announced, fired_for. induction evs as [|e evs IH]; [reflexivity|].
  destruct e; cbn [List.flat_map List.filter announces app]; try exact IH.
  destruct (version_eqb (version u) v); cbn [List.length]; rewrite IH; reflexivity.
Qed.

(** One call: it returns whether it has found an update, which it has
    recorded then and announces to a registered callback, once; it touches
    no file, and neither the running version nor the registration. *)
Lemma checkForUpdates_finds t s :
  exists s' evs,
    checkForUpdates t s = (Val (finds s t), s', evs)
    /\ announced evs
       = match found_update t s with
         | Some u => if registered s then [u] else []
         | None => []
         end
    /\ (forall u, found_update t s = Some u -> available_update_ (mgr s') = u)
    /\ world s' = world s
    /\ current_version_ (mgr s') = current_version_ (mgr s)
    /\ registered s' = registered s.
Proof.
  unfold checkForUpdates.
  unfold bind at 1, emit at 1.
  unfold bind at 1. rewrite updateStatus_run.
  unfold try_catch.
  unfold bind at 1.
  set (s0 := mkSys (set_status CHECKING "Checking for updates..." (mgr s)) (world s)).
  pose proof (calm_getLatestVersionInfo t s0) as [Hf _].
  destruct (getLatestVersionInfo_run t s0) as (info & m & evs & E & He & Hi & Hm).
  rewrite E in Hf. rewrite E. unfold events_of in Hf. cbn [snd] in Hf.
  assert (Hevs : announced evs = []).
  { apply List.length_zero_iff_nil. rewrite length_announced. exact Hf. }
  clear Hf E.
  change (transport_failed t s0) with (transport_failed t s) in He, Hi.
  assert (Hc : current_version_ m = current_version_ (mgr s))
    by (destruct Hm as [->| ->]; reflexivity).
  assert (Hreg : update_available_callback_ m = update_available_callback_ (mgr s))
    by (destruct Hm as [->| ->]; reflexivity).
  assert (Hcb : status_callback_ m = status_callback_ (mgr s))
    by (destruct Hm as [->| ->]; reflexivity).
  clear Hm. unfold finds, found_update, registered. cbn [world s0].
  destruct (transport_failed t s) eqn:Ht.
  - rewrite He. exec. eexists _, _. split; [reflexivity|].
    split; [rewrite ?announced_app, ?announced_status, ?Hevs; reflexivity|].
    manager_fields. repeat split; auto. discriminate.
  - rewrite (Hi eq_refl) in *. clear Hi. rewrite He.
    unfold latest_version_of, update_of. rewrite <- Hc, <- Hreg.
    exec_unfold. manager_fields.
    repeat (exec_split; exec_unfold; manager_fields).
    all: eexists _, _; (split; [reflexivity|]);
      (split; [rewrite ?announced_app, ?announced_status, ?Hevs; reflexivity|]);
      repeat split; auto; try discriminate; try congruence;
      intros u [= <-]; reflexivity.
Qed.

(** What a check finds depends on the state only through the files and the
    running version. *)
Lemma found_update_same t s s' :
  world s' = world s ->
  current_version_ (mgr s') = current_version_ (mgr s) ->
  found_update t s' = found_update t s.
Proof.
  intros Hw Hc. unfold found_update, transport_failed. rewrite Hw, Hc. reflexivity.
Qed.

Definition found_list (s : Sys) (ts : list Transfer) : list UpdateInfo :=
  List.flat_map
    (fun t => match found_update t s with Some u => [u] | None => [] end)
    ts.

Lemma check_sequence_finds ts s s0 :
  world s0 = world s ->
  current_version_ (mgr s0) = current_version_ (mgr s) ->
  registered s0 = true ->
  exists s' evs,
    check_sequence ts s0 = (Val (List.map (finds s) ts), s', evs)
    /\ announced evs = found_list s ts.
Proof.
  revert s0. induction ts as [|t ts IH]; intros s0 Hw Hc Hreg.
  - eexists _, _. split; reflexivity.
  - cbn [check_sequence]. unfold bind at 1.
    destruct (checkForUpdates_finds t s0) as (s1 & ev1 & -> & Ha & _ & Hw1 & Hc1 & Hr1).
    unfold bind.
    destruct (IH s1) as (s2 & ev2 & -> & Ha2); [congruence|congruence|congruence|].
    cbn [ret List.map]. unfold finds at 1.
    rewrite (found_update_same t s s0 Hw Hc).
    eexists _, _. split; [reflexivity|].
    rewrite !announced_app, Ha, Ha2, Hreg. cbn [announced List.flat_map].
    rewrite app_nil_r. unfold found_list. cbn [List.flat_map].
    rewrite (found_update_same t s s0 Hw Hc). reflexivity.
Qed.

Lemma length_found_list s ts :
  List.length (found_list s ts) = List.length (List.filter (finds s) ts).
Proof.
  unfold found_list, finds. induction ts as [|t ts IH]; [reflexivity|].
  cbn [List.flat_map List.filter]. rewrite List.length_app, IH.
  destruct (found_update t s); reflexivity.
Qed.

Lemma found_list_same_version s ts v :
  (forall t, In t ts ->
     exists u, found_update t s = Some u /\ version_eqb (version u) v = true) ->
  List.length (List.filter (fun u => version_eqb (version u) v) (found_list s ts))
  = List.length ts.
Proof.
  unfold found_list. induction ts as [|t ts IH]; intros H; [reflexivity|].
  cbn [List.flat_map]. rewrite List.filter_app, List.length_app, IH.
  - destruct (H t (or_introl eq_refl)) as (u & -> & Hv).
    cbn [List.filter]. rewrite Hv. reflexivity.
  - intros t' Ht'. apply H. right. exact Ht'.
Qed.

(** C6, amended. With a registered callback, a [checkForUpdates] call fires
    the callback once, with the update it has recorded, when it finds an
    update: the server has answered with a descriptor that names a newer
    version and can be read in full. No other call fires it. A sequence of
    calls, a caller's or the auto-update loop's, fires it once for every
    call that finds an update: while the server keeps reporting the same
    newer version, once per call and not once for that version. *)
Theorem checkForUpdates_fires_once_per_finding ts s :
  registered s = true ->
  result_of (check_sequence ts s) = Val (List.map (finds s) ts)
  /\ announced (events_of (check_sequence ts s)) = found_list s ts
  /\ announced (events_of (autoUpdateCheckLoop ts s)) = found_list s ts
  /\ fired (events_of (check_sequence ts s)) = List.length (List.filter (finds s) ts)
  /\ fired (events_of (autoUpdateCheckLoop ts s))
     = List.length (List.filter (finds s) ts)
  /\ forall v,
       (forall t, In t ts ->
          exists u, found_update t s = Some u /\ version_eqb (version u) v = true) ->
       fired_for v (events_of (autoUpdateCheckLoop ts s)) = List.length ts.
Proof.
  intros Hreg. rewrite autoUpdateCheckLoop_events.
  destruct (check_sequence_finds ts s s eq_refl eq_refl Hreg) as (s' & evs & -> & Ha).
  unfold result_of, events_of. cbn [fst snd].
  split; [reflexivity|]. split; [exact Ha|]. split; [exact Ha|].
  rewrite <- length_announced, Ha, length_found_list.
  split; [reflexivity|]. split; [reflexivity|].
  intros v Hv. rewrite fired_for_announced, Ha. apply found_list_same_version. exact Hv.
Qed.

Lemma checkForUpdates_fires_once_per_finding_witness :
  fired (events_of (autoUpdateCheckLoop
                      [sample_transfer descriptor_1_0_1; sample_transfer descriptor_1_0_1]
                      listening_sys)) = 2%nat.
Proof.
  destruct (checkForUpdates_fires_once_per_finding
              [sample_transfer descriptor_1_0_1; sample_transfer descriptor_1_0_1]
              listening_sys ltac:(reflexivity)) as (_ & _ & _ & _ & H & _).
  rewrite H. vm_compute. reflexivity.
Defined.

(** *** What no operation changes *)

(** The running version, the configuration and the registered callbacks. *)
Definition same_setup (m m' : UpgradeManager) : Prop :=
  current_version_ m' = current_version_ m
  /\ auto_update_interval_ m' = auto_update_interval_ m
  /\ update_server_url_ m' = update_server_url_ m
  /\ backup_directory_ m' = backup_directory_ m
  /\ backup_enabled_ m' = backup_enabled_ m
  /\ temp_directory_ m' = temp_directory_ m
  /\ update_available_callback_ m' = update_available_callback_ m
  /\ progress_callback_ m' = progress_callback_ m
  /\ status_callback_ m' = status_callback_ m.

Definition steady {A} (op : M A) : Prop :=
  forall s, same_setup (mgr s) (mgr (state_of (op s))).

Lemma same_setup_refl m : same_setup m m.
Proof. repeat split. Qed.

Lemma same_setup_trans m1 m2 m3 :
  same_setup m1 m2 -> same_setup m2 m3 -> same_setup m1 m3.
Proof. unfold same_setup. intuition congruence. Qed.

Lemma steady_ret {A} (a : A) : steady (ret a).
Proof. intros s. apply same_setup_refl. Qed.

Lemma steady_lift {A} (r : Res A) : steady (lift r).
Proof. intros s. apply same_setup_refl. Qed.

Lemma steady_emit e : steady (emit e).
Proof. intros s. apply same_setup_refl. Qed.

Lemma steady_get_mgr : steady get_mgr.
Proof. intros s. apply same_setup_refl. Qed.

Lemma steady_get_world : steady get_world.
Proof. intros s. apply same_setup_refl. Qed.

Lemma steady_quiet {A} (op : M A) : quiet op -> steady op.
Proof. intros H s. destruct (H s) as [_ ->]. apply same_setup_refl. Qed.

Lemma steady_modify f :
  (forall m, same_setup m (f m)) -> steady (modify_mgr f).
Proof. intros H s. apply H. Qed.

Lemma steady_bind {A B} (op : M A) (k : A -> M B) :
  steady op -> (forall a, steady (k a)) -> steady (bind op k).
Proof.
  intros Hm Hk s. specialize (Hm s). unfold bind, state_of in *.
  destruct (op s) as [[[a|e] s1] ev1]; cbn [fst snd] in *; [|exact Hm].
  specialize (Hk a s1). unfold state_of in Hk.
  destruct (k a s1) as [[r s2] ev2]; cbn [fst snd] in *.
  exact (same_setup_trans _ _ _ Hm Hk).
Qed.

Lemma steady_try_catch {A} (op : M A) (h : exn -> M A) :
  steady op -> (forall e, steady (h e)) -> steady (try_catch op h).
Proof.
  intros Hm Hh s. specialize (Hm s). unfold try_catch, state_of in *.
  destruct (op s) as [[[a|e] s1] ev1]; cbn [fst snd] in *; [exact Hm|].
  specialize (Hh e s1). unfold state_of in Hh.
  destruct (h e s1) as [[r s2] ev2]; cbn [fst snd] in *.
  exact (same_setup_trans _ _ _ Hm Hh).
Qed.

Lemma steady_when b op : steady op -> steady (when b op).
Proof. destruct b; [auto|intros _; apply steady_ret]. Qed.

Lemma steady_forM {A} (l : list A) (f : A -> M unit) :
  (forall a, steady (f a)) -> steady (forM l f).
Proof.
  intros H. induction l as [|a l IH]; cbn [forM]; [apply steady_ret|].
  apply steady_bind; auto.
Qed.

Lemma steady_updateStatus st msg : steady (updateStatus st msg).
Proof. intros s. rewrite updateStatus_run. repeat split. Qed.

Lemma steady_assign_update f : steady (assign_update f).
Proof. intros s. repeat split. Qed.

Lemma steady_downloadFile t url path : steady (downloadFile t url path).
Proof.
  intros s. rewrite downloadFile_run. unfold opened.
  destruct (negb (curl_handle t)); [apply same_setup_refl|].
  destruct (cannot_open _ _); [apply same_setup_refl|].
  cbn zeta. destruct (result t), (String.eqb path dev_null); repeat split.
Qed.

Create HintDb steady.
#[local] Hint Resolve steady_ret steady_lift steady_emit steady_get_mgr
  steady_get_world steady_when steady_updateStatus steady_assign_update
  steady_downloadFile : steady.
#[local] Hint Extern 1 (steady (json_field _ _ _)) => apply steady_lift : steady.
#[local] Hint Extern 1 (steady (modify_mgr _)) =>
  (apply steady_modify; intros ?; repeat split) : steady.
#[local] Hint Extern 2 (steady _) =>
  (apply steady_quiet; solve [repeat quiet_step]) : steady.

Ltac steady_step :=
  first [ apply steady_bind; [|intros ?]
        | apply steady_try_catch; [|intros ?]
        | solve [auto with steady]
        | match goal with
          | |- steady (match ?x with _ => _ end) => destruct x
          end ].

Lemma steady_rollbackUpdate : steady rollbackUpdate.
Proof. unfold rollbackUpdate. repeat steady_step. Qed.

Lemma steady_checkForUpdates t : steady (checkForUpdates t).
Proof. unfold checkForUpdates, getLatestVersionInfo. repeat steady_step. Qed.

(** X6. No operation changes the version the manager runs as, its
    configuration, or the registered callbacks; a successful installation
    too leaves [current_version_] at the old version. *)
Theorem operations_keep_setup :
  (forall t, steady (checkForUpdates t))
  /\ (forall t update, steady (downloadUpdate t update))
  /\ steady installUpdate
  /\ steady rollbackUpdate
  /\ (forall ts, steady (autoUpdateCheckLoop ts)).
Proof.
  split; [exact steady_checkForUpdates|]. split.
  { intros t update. unfold downloadUpdate, fs_remove. repeat steady_step. }
  split.
  { unfold installUpdate. repeat steady_step. }
  split; [exact steady_rollbackUpdate|].
  intros ts. unfold autoUpdateCheckLoop. apply steady_forM. intros t.
  apply steady_bind; [apply steady_checkForUpdates|intros _; apply steady_ret].
Qed.

(** *** Checksums and downloads *)

Lemma length_append a b :
  String.length (a +:+ b) = (String.length a + String.length b)%nat.
Proof.
  induction a as [|c a IH]; [reflexivity|].
  change (S (String.length (a +:+ b)) = S (String.length a + String.length b)).
  rewrite IH. reflexivity.
Qed.

Lemma length_take n s : String.length (Str.take n s) = Nat.min n (String.length s).
Proof.
  revert s. induction n as [|n IH]; intros [|c s]; cbn [Str.take String.length Nat.min];
    try reflexivity.
  rewrite IH. reflexivity.
Qed.

Lemma length_drop n s : String.length (Str.drop n s) = (String.length s - n)%nat.
Proof.
  revert s. induction n as [|n IH]; intros [|c s]; cbn [Str.drop String.length Nat.sub];
    try reflexivity.
  apply IH.
Qed.

Lemma take_append n a b :
  (n <= String.length a)%nat -> Str.take n (a +:+ b) = Str.take n a.
Proof.
  revert a. induction n as [|n IH]; intros [|c a] H; cbn [String.length] in H;
    try reflexivity; try lia.
  change (String c (Str.take n (a +:+ b)) = String c (Str.take n a)).
  rewrite IH by lia. reflexivity.
Qed.

Lemma drop_append n a b :
  (n <= String.length a)%nat -> Str.drop n (a +:+ b) = Str.drop n a +:+ b.
Proof.
  revert a. induction n as [|n IH]; intros [|c a] H; cbn [String.length] in H;
    try reflexivity; try lia.
  change (Str.drop n (a +:+ b) = Str.drop n a +:+ b). apply IH. lia.
Qed.

Lemma bytes_append a b : Str.bytes (a +:+ b) = Str.bytes a ++ Str.bytes b.
Proof.
  unfold Str.bytes. induction a as [|c a IH]; [reflexivity|].
  change (Z.of_nat (nat_of_ascii c)
          :: List.map (fun x => Z.of_nat (nat_of_ascii x)) (list_ascii_of_string (a +:+ b))
          = Z.of_nat (nat_of_ascii c)
            :: (List.map (fun x => Z.of_nat (nat_of_ascii x)) (list_ascii_of_string a)
                ++ List.map (fun x => Z.of_nat (nat_of_ascii x)) (list_ascii_of_string b))).
  rewrite IH. reflexivity.
Qed.

Lemma buffer_size_pos : (0 < buffer_size)%nat.
Proof. unfold buffer_size. lia. Qed.

(** The read loop feeds the hash with whole buffers only: the bytes after
    the last full buffer never reach it. *)
Lemma checksum_loop_blocks k :
  forall fuel ctx blocks tail,
    String.length blocks = (k * buffer_size)%nat ->
    (String.length tail < buffer_size)%nat ->
    (k <= fuel)%nat ->
    checksum_loop fuel ctx (blocks +:+ tail) = ctx ++ Str.bytes blocks.
Proof.
  pose proof buffer_size_pos as Hpos.
  induction k as [|k IH]; intros fuel ctx blocks tail Hb Ht Hk.
  - destruct blocks; [|discriminate Hb].
    change (EmptyString +:+ tail) with tail.
    change (Str.bytes EmptyString) with (@nil Z). rewrite app_nil_r.
    destruct fuel as [|fuel]; [reflexivity|].
    cbn [checksum_loop]. cbn zeta. rewrite length_take.
    destruct (Nat.eqb_spec (Nat.min buffer_size (String.length tail)) buffer_size);
      [lia|reflexivity].
  - destruct fuel as [|fuel]; [lia|].
    cbn [checksum_loop]. cbn zeta.
    assert (Hle : (buffer_size <= String.length blocks)%nat) by (rewrite Hb; lia).
    rewrite take_append, drop_append by exact Hle.
    rewrite length_take.
    destruct (Nat.eqb_spec (Nat.min buffer_size (String.length blocks)) buffer_size);
      [|lia].
    rewrite IH; [| |exact Ht|lia].
    + unfold Sha256.SHA256_Update. rewrite <- app_assoc, <- bytes_append.
      rewrite DLP.take_drop. reflexivity.
    + rewrite length_drop, Hb. lia.
Qed.

(** X7. [calculateChecksum] is the SHA-256 digest of the file's whole
    8192-byte buffers: what follows the last full buffer is not hashed. *)
Theorem calculateChecksum_whole_buffers path w k blocks tail :
  read_file path w = Some (blocks +:+ tail) ->
  String.length blocks = (k * buffer_size)%nat ->
  (String.length tail < buffer_size)%nat ->
  calculateChecksum path w = sha256_hex blocks
  /\ forall expected,
       verifyUpdateFile path expected w = String.eqb (sha256_hex blocks) expected.
Proof.
  intros Hr Hb Ht.
  assert (E : calculateChecksum path w = sha256_hex blocks).
  { unfold calculateChecksum, sha256_hex, Sha256.SHA256_Final, Sha256.SHA256_Init.
    rewrite Hr. rewrite (checksum_loop_blocks k); [reflexivity|exact Hb|exact Ht|].
    rewrite length_append, Hb. pose proof buffer_size_pos. nia. }
  split; [exact E|]. intros expected. unfold verifyUpdateFile. rewrite E. reflexivity.
Qed.

Lemma calculateChecksum_whole_buffers_witness :
  calculateChecksum "/usr/local/bin/workforce_agent" sample_world = sha256_hex "".
Proof.
  apply (calculateChecksum_whole_buffers
           "/usr/local/bin/workforce_agent" sample_world 0 "" "ELF-1.0.0").
  - reflexivity.
  - reflexivity.
  - apply Nat.ltb_lt. vm_compute. reflexivity.
Defined.

(** The digest of the empty input. *)
Definition empty_digest : string :=
  "e3b0c44298fc1c149afbf4c8996fb92427ae41e4649b934ca495991b7852b855".

Lemma sha256_hex_empty : sha256_hex "" = empty_digest.
Proof. vm_compute. reflexivity. Qed.

(** Whether a transfer to [path] delivers a body. *)
Definition delivers (t : Transfer) (s : Sys) (path : string) : bool :=
  curl_handle t && negb (cannot_open (world s) path)
  && match result t with CURLE_OK => negb (Str.empty (received t)) | _ => false end.


(** *** Backup, restore and replacement *)

Definition with_file (path content : string) (s : Sys) : Sys :=
  mkSys (mgr s) (set_files (<[path := content]> (files (world s))) (world s)).

(** Whether [from] can be copied over another file [to]. *)
Definition copyable (from to : string) (w : World) : bool :=
  match files w !! from with
  | Some _ =>
      negb (String.eqb from to)
      && match io_error w from to with None => true | Some _ => false end
  | None => false
  end.

(** The copy of [from] over another file [to] breaks while writing: what it
    leaves at [to]. *)
Definition breaks (from to : string) (w : World) : option string :=
  match files w !! from, io_error w from to with
  | Some content, Some (broken written _) =>
      if String.eqb from to then None else Some (Str.take written content)
  | _, _ => None
  end.

(** [fs::copy] with [overwrite_existing], case by case. *)
Lemma fs_copy_overwrite_run from to s :
  fs_copy from to true s
  = match files (world s) !! from with
    | None => (Throw (cannot_copy "No such file or directory" from to), s, [])
    | Some content =>
        if String.eqb from to then (Throw (cannot_copy "File exists" from to), s, [])
        else
          match io_error (world s) from to with
          | Some (refused strerror) => (Throw (cannot_copy strerror from to), s, [])
          | Some (broken written strerror) =>
              (Throw (cannot_copy strerror from to),
               with_file to (Str.take written content) s, [])
          | None => (Val tt, with_file to content s, [])
          end
    end.
Proof.
  unfold fs_copy, bind, get_world, throw, put_files, with_file.
  destruct (files (world s) !! from); [|reflexivity].
  destruct (String.eqb from to); [reflexivity|]. cbn [negb andb].
  destruct (io_error (world s) from to) as [[?|? ?]|]; reflexivity.
Qed.

Lemma backupCurrentVersion_spec s :
  backupCurrentVersion s
  = match self_exe (world s) with
    | Some exe =>
        let backup := backup_path_of (mgr s) in
        match files (world s) !! exe with
        | Some content =>
            if copyable exe backup (world s)
            then (Val true, with_file backup content s, [])
            else
              match breaks exe backup (world s) with
              | Some part => (Val false, with_file backup part s, [])
              | None => (Val false, s, [])
              end
        | None => (Val false, s, [])
        end
    | None => (Val false, s, [])
    end.
Proof.
  unfold backupCurrentVersion, try_catch, copyable, breaks.
  unfold bind at 1, get_mgr at 1. unfold bind at 1, get_world at 1.
  destruct (self_exe (world s)) as [exe|]; [|reflexivity].
  unfold bind. rewrite fs_copy_overwrite_run. cbn zeta.
  destruct (files (world s) !! exe); [|reflexivity].
  destruct (String.eqb exe _), (io_error (world s) exe _) as [[?|? ?]|]; reflexivity.
Qed.

Lemma restoreBackup_spec s :
  restoreBackup s
  = match self_exe (world s) with
    | Some exe =>
        let backup := backup_path_of (mgr s) in
        match files (world s) !! backup with
        | Some content =>
            if copyable backup exe (world s)
            then (Val true, with_file exe content s, [])
            else
              match breaks backup exe (world s) with
              | Some part => (Val false, with_file exe part s, [])
              | None => (Val false, s, [])
              end
        | None => (Val false, s, [])
        end
    | None => (Val false, s, [])
    end.
Proof.
  unfold restoreBackup, try_catch, copyable, breaks.
  unfold bind at 1, get_mgr at 1. unfold bind at 1, get_world at 1.
  unfold fs_exists. cbn zeta.
  destruct (files (world s) !! backup_path_of (mgr s)) as [content|] eqn:E;
    cbn [negb]; [|destruct (self_exe (world s)); reflexivity].
  destruct (self_exe (world s)) as [exe|]; [|reflexivity].
  unfold bind. rewrite fs_copy_overwrite_run, E.
  destruct (String.eqb _ exe), (io_error (world s) _ exe) as [[?|? ?]|]; reflexivity.
Qed.

(** X9. A backup that succeeded brings the executable back: whatever happened
    to the executable since, as long as the backup file, the version the
    backup is named after and the backup directory are the same,
    [restoreBackup] succeeds (unless the copy itself fails) and the
    executable holds again what it held when the backup was made. *)
Theorem backup_restore_round_trip s s1 evs exe later :
  backupCurrentVersion s = (Val true, s1, evs) ->
  self_exe (world s) = Some exe ->
  self_exe (world later) = Some exe ->
  backup_path_of (mgr later) = backup_path_of (mgr s) ->
  files (world later) !! backup_path_of (mgr s)
  = files (world s1) !! backup_path_of (mgr s) ->
  io_error (world later) (backup_path_of (mgr s)) exe = None ->
  exists s2,
    restoreBackup later = (Val true, s2, [])
    /\ files (world s2) !! exe = files (world s) !! exe
    /\ forall p, p <> exe -> files (world s2) !! p = files (world later) !! p.
Proof.
  intros Hb Hexe Hexe' Hpath Hfile Hio.
  rewrite backupCurrentVersion_spec, Hexe in Hb. cbn zeta in Hb.
  destruct (files (world s) !! exe) as [content|] eqn:E; [|discriminate].
  destruct (copyable exe (backup_path_of (mgr s)) (world s)) eqn:Hc;
    [|destruct (breaks _ _ _); discriminate].
  injection Hb as <- _.
  unfold with_file in Hfile. cbn [world files set_files] in Hfile.
  rewrite lookup_insert_eq in Hfile.
  assert (Hne : String.eqb (backup_path_of (mgr s)) exe = false).
  { unfold copyable in Hc. rewrite E in Hc.
    rewrite String.eqb_sym. destruct (String.eqb exe _); [discriminate|reflexivity]. }
  rewrite restoreBackup_spec, Hexe', Hpath. cbn zeta. rewrite Hfile.
  unfold copyable. rewrite Hfile, Hne, Hio. cbn [negb andb].
  eexists. split; [reflexivity|].
  unfold with_file. cbn [world files set_files]. split.
  - apply lookup_insert_eq.
  - intros p Hp. apply lookup_insert_ne. congruence.
Qed.

(** An installed agent whose backup directory holds nothing yet, and the
    same agent after its executable was overwritten. *)
Definition overwritten_sys : Sys :=
  with_file "/usr/local/bin/workforce_agent" "ELF-broken"
    (state_of (backupCurrentVersion sample_sys)).

Lemma backup_restore_round_trip_witness :
  exists s2,
    restoreBackup overwritten_sys = (Val true, s2, [])
    /\ files (world s2) !! "/usr/local/bin/workforce_agent" = Some "ELF-1.0.0".
Proof.
  destruct (backup_restore_round_trip sample_sys
              (state_of (backupCurrentVersion sample_sys)) []
              "/usr/local/bin/workforce_agent" overwritten_sys
              ltac:(vm_compute; reflexivity) ltac:(reflexivity) ltac:(reflexivity)
              ltac:(reflexivity) ltac:(vm_compute; reflexivity) ltac:(reflexivity))
    as (s2 & H1 & H2 & _).
  exists s2. split; [exact H1|]. rewrite H2. vm_compute. reflexivity.
Defined.

(** Whether a rollback can succeed: backups are enabled, the executable's
    path is known and the backup of the running version can be copied over
    it. *)
Definition can_rollback (s : Sys) : bool :=
  backup_enabled_ (mgr s)
  && match self_exe (world s) with
     | Some exe => copyable (backup_path_of (mgr s)) exe (world s)
     | None => false
     end.

(** What a rollback that fails leaves of the executable, if it gets as far
    as writing to it: the part of the backup that was written. *)
Definition torn_by_rollback (s : Sys) : option (string * string) :=
  if backup_enabled_ (mgr s) then
    match self_exe (world s) with
    | Some exe =>
        match breaks (backup_path_of (mgr s)) exe (world s) with
        | Some part => Some (exe, part)
        | None => None
        end
    | None => None
    end
  else None.

Lemma rollbackUpdate_cases s :
  exists ok s' evs,
    rollbackUpdate s = (Val ok, s', evs)
    /\ ok = can_rollback s
    /\ status_ (mgr s') = (if ok then IDLE else FAILED)
    /\ status_message_ (mgr s')
       = (if ok then "Rollback completed" else "Rollback failed")
    /\ (ok = false ->
        world s' = match torn_by_rollback s with
                   | Some (exe, part) => world (with_file exe part s)
                   | None => world s
                   end)
    /\ (ok = true ->
        exists exe,
          self_exe (world s) = Some exe
          /\ files (world s') !! exe = files (world s) !! backup_path_of (mgr s)
          /\ forall p, p <> exe -> files (world s') !! p = files (world s) !! p).
Proof.
  unfold rollbackUpdate, can_rollback, torn_by_rollback.
  unfold bind at 1, emit at 1.
  unfold bind at 1. rewrite updateStatus_run.
  unfold bind at 1, get_mgr at 1. cbn [mgr set_status backup_enabled_].
  unfold bind at 1.
  destruct (backup_enabled_ (mgr s)); cbn [negb andb].
  2:{ unfold ret at 1. cbn [negb]. unfold bind. rewrite updateStatus_run.
      eexists _, _, _. split; [reflexivity|]. cbn. repeat split; auto. discriminate. }
  rewrite restoreBackup_spec. cbn [mgr world]. cbn zeta.
  change (backup_path_of (set_status ROLLBACK "Rolling back update..." (mgr s)))
    with (backup_path_of (mgr s)).
  destruct (self_exe (world s)) as [exe|].
  2:{ cbn [negb]. unfold bind. rewrite updateStatus_run.
      eexists _, _, _. split; [reflexivity|]. cbn. repeat split; auto. discriminate. }
  destruct (files (world s) !! backup_path_of (mgr s)) as [content|] eqn:E.
  2:{ cbn [negb]. unfold bind. rewrite updateStatus_run.
      eexists _, _, _. split; [reflexivity|].
      unfold copyable, breaks. rewrite E. cbn. repeat split; auto. discriminate. }
  destruct (copyable (backup_path_of (mgr s)) exe (world s)) eqn:Hc; cbn [negb].
  - unfold bind. rewrite updateStatus_run.
    eexists _, _, _. split; [reflexivity|].
    cbn [ret mgr world with_file files set_files status_ status_message_ set_status].
    repeat split; auto; try discriminate.
    intros _. exists exe. split; [reflexivity|]. split.
    + apply lookup_insert_eq.
    + intros p Hp. apply lookup_insert_ne. congruence.
  - destruct (breaks (backup_path_of (mgr s)) exe (world s)) as [part|];
      cbn [negb]; unfold bind; rewrite updateStatus_run;
      eexists _, _, _; (split; [reflexivity|]);
      cbn [ret mgr world with_file files set_files status_ status_message_ set_status];
      repeat split; auto; discriminate.
Qed.

(** X10. [rollbackUpdate] returns a verdict and lets no exception escape: true
    exactly when a rollback can succeed. The executable then holds the
    backup and the status is IDLE. Otherwise the status is FAILED, and no
    file has changed unless the copy of the backup broke while writing:
    then the executable is left with the part that was written. *)
Theorem rollbackUpdate_verdict s :
  let s' := state_of (rollbackUpdate s) in
  result_of (rollbackUpdate s) = Val (can_rollback s)
  /\ status_ (mgr s') = (if can_rollback s then IDLE else FAILED)
  /\ (can_rollback s = false ->
      world s' = match torn_by_rollback s with
                 | Some (exe, part) => world (with_file exe part s)
                 | None => world s
                 end)
  /\ (can_rollback s = true ->
      exists exe,
        self_exe (world s) = Some exe
        /\ files (world s') !! exe = files (world s) !! backup_path_of (mgr s)
        /\ forall p, p <> exe -> files (world s') !! p = files (world s) !! p).
Proof.
  cbn zeta.
  destruct (rollbackUpdate_cases s) as (ok & s' & evs & -> & -> & Hst & _ & Hf & Ht).
  unfold result_of, state_of. cbn [fst snd]. auto.
Qed.

(** A disk that fills up while the backup is copied back: the rollback
    fails and leaves a truncated executable. *)
Definition full_disk_world : World :=
  {| files := {[ "/usr/local/bin/workforce_agent" := "ELF-1.0.1";
                 "/var/backups/workforce_agent_1.0.0-dev_backup" := "ELF-1.0.0" ]};
     self_exe := Some "/usr/local/bin/workforce_agent";
     io_error := fun _ to =>
       if String.eqb to "/usr/local/bin/workforce_agent"
       then Some (broken 4 "No space left on device") else None;
     cannot_open := fun _ => false;
     chmod_error := fun _ => None;
     shell := fun _ f => (2, f) |}.

Definition set_backup_directory (dir : string) (m : UpgradeManager) : UpgradeManager :=
  {| auto_update_interval_ := auto_update_interval_ m;
     status_ := status_ m;
     status_message_ := status_message_ m;
     current_version_ := current_version_ m;
     available_update_ := available_update_ m;
     update_available_ := update_available_ m;
     update_server_url_ := update_server_url_ m;
     backup_directory_ := dir;
     backup_enabled_ := backup_enabled_ m;
     temp_directory_ := temp_directory_ m;
     last_network_error_ := last_network_error_ m;
     update_available_callback_ := update_available_callback_ m;
     progress_callback_ := progress_callback_ m;
     status_callback_ := status_callback_ m |}.

Definition full_disk_sys : Sys :=
  mkSys (set_backup_directory "/var/backups" (new_manager 0 0 0 0)) full_disk_world.

Example rollbackUpdate_tears_executable :
  result_of (rollbackUpdate full_disk_sys) = Val false
  /\ files (world (state_of (rollbackUpdate full_disk_sys)))
       !! "/usr/local/bin/workforce_agent" = Some "ELF-".
Proof. split; vm_compute; reflexivity. Qed.

Lemma append_old_ne exe : exe +:+ ".old" <> exe.
Proof.
  intros H. apply (f_equal String.length) in H. rewrite length_append in H.
  cbn [String.length] in H. lia.
Qed.

(** [fs::copy] without options, case by case. *)
Lemma fs_copy_new_run from to s :
  fs_copy from to false s
  = match files (world s) !! from with
    | None => (Throw (cannot_copy "No such file or directory" from to), s, [])
    | Some content =>
        if String.eqb from to || fs_exists to (world s)
        then (Throw (cannot_copy "File exists" from to), s, [])
        else
          match io_error (world s) from to with
          | Some (refused strerror) => (Throw (cannot_copy strerror from to), s, [])
          | Some (broken written strerror) =>
              (Throw (cannot_copy strerror from to),
               with_file to (Str.take written content) s, [])
          | None => (Val tt, with_file to content s, [])
          end
    end.
Proof.
  unfold fs_copy, bind, get_world, throw, put_files, with_file.
  destruct (files (world s) !! from); [|reflexivity].
  destruct (String.eqb from to); [reflexivity|]. cbn [negb andb orb].
  destruct (fs_exists to (world s)); [reflexivity|].
  destruct (io_error (world s) from to) as [[?|? ?]|]; reflexivity.
Qed.

Lemma fs_permissions_run path s :
  fs_permissions path s
  = if negb (fs_exists path (world s)) then
      (Throw (filesystem_error
                ("filesystem error: cannot set permissions: No such file or directory ["
                 +:+ path +:+ "]")), s, [])
    else
      match chmod_error (world s) path with
      | Some strerror =>
          (Throw (filesystem_error
                    ("filesystem error: cannot set permissions: " +:+ strerror
                     +:+ " [" +:+ path +:+ "]")), s, [])
      | None => (Val tt, s, [])
      end.
Proof.
  unfold fs_permissions, bind, get_world, throw, ret.
  destruct (negb (fs_exists path (world s))); [reflexivity|].
  destruct (chmod_error (world s) path); reflexivity.
Qed.

(** The first step of [replaceExecutable]: an old [.old] file is removed. *)
Lemma remove_if_exists_run path s :
  when (fs_exists path (world s)) (fs_remove path) s = (Val tt, removed path s, [])
  \/ (when (fs_exists path (world s)) (fs_remove path) s = (Val tt, s, [])
      /\ files (world s) !! path = None).
Proof.
  unfold fs_exists. destruct (files (world s) !! path); [left|right; split]; reflexivity.
Qed.

(** Two states whose worlds differ in their files only. *)
Definition same_system (s s' : Sys) : Prop :=
  mgr s' = mgr s
  /\ self_exe (world s') = self_exe (world s)
  /\ io_error (world s') = io_error (world s)
  /\ chmod_error (world s') = chmod_error (world s).

Lemma same_system_with_file path content s : same_system s (with_file path content s).
Proof. repeat split. Qed.


Definition new_agent_sys : Sys := with_file "/tmp/new_agent" "ELF-1.0.1" sample_sys.


(** A disk that fills up while the new executable is written: neither that
    copy nor the one that should restore the executable completes, and
    [replaceExecutable] throws with a truncated executable behind it. *)
Definition filling_disk_sys : Sys :=
  with_file "/tmp/new_agent" "ELF-1.0.1"
    (mkSys (new_manager 0 0 0 0)
       {| files := {[ "/usr/local/bin/workforce_agent" := "ELF-1.0.0" ]};
          self_exe := Some "/usr/local/bin/workforce_agent";
          io_error := fun from to =>
            if String.eqb to "/usr/local/bin/workforce_agent"
            then Some (broken (if String.eqb from "/tmp/new_agent" then 6 else 2)
                         "No space left on device")
            else None;
          cannot_open := fun _ => false;
          chmod_error := fun _ => None;
          shell := fun _ f => (2, f) |}).

Example replaceExecutable_tears_executable :
  exists e s',
    replaceExecutable "/tmp/new_agent" filling_disk_sys = (Throw e, s', [])
    /\ files (world s') !! "/usr/local/bin/workforce_agent" = Some "EL"
    /\ files (world s') !! "/usr/local/bin/workforce_agent.old" = Some "ELF-1.0.0".
Proof. eexists _, _. vm_compute. repeat split. Qed.

(** What a backup that fails leaves at the backup path, if its copy gets as
    far as writing: the part of the executable that was written. *)
Definition torn_by_backup (s : Sys) : option string :=
  match self_exe (world s) with
  | Some exe => breaks exe (backup_path_of (mgr s)) (world s)
  | None => None
  end.


(** An operating system on which the executable cannot be copied to its
    [.old] neighbour: the exception of [replaceExecutable] leaves
    [installUpdate]. *)
Definition no_old_copy_world : World :=
  {| files := {[ "/usr/local/bin/workforce_agent" := "ELF-1.0.0" ]};
     self_exe := Some "/usr/local/bin/workforce_agent";
     io_error := fun _ to =>
       if String.eqb to "/usr/local/bin/workforce_agent.old"
       then Some (refused "Permission denied") else None;
     cannot_open := fun _ => false;
     chmod_error := fun _ => None;
     shell := fun _ f =>
       (0, <["/tmp/workforce_agent_updates/extracted_update/workforce_agent"
             := "ELF-1.0.1"]> f) |}.

Example installUpdate_escapes :
  let s := mkSys (new_manager 0 0 0 0) no_old_copy_world in
  result_of (installUpdate s)
  = Throw (cannot_copy "Permission denied" "/usr/local/bin/workforce_agent"
             "/usr/local/bin/workforce_agent.old")
  /\ status_ (mgr (state_of (installUpdate s))) = INSTALLING.
Proof. split; vm_compute; reflexivity. Qed.

(** *** Paths of the configuration *)

(** [expandEnvironmentVariables], given the value of [getenv("HOME")]. *)
Definition expandEnvironmentVariables (home : option string) (path : string) : string :=
  if Str.contains path "$HOME" then
    match home with
    | Some home =>
        match Str.find path "$HOME" with
        | Some pos => Str.take pos path +:+ home +:+ Str.drop (pos + 5) path
        | None => path
        end
    | None => path
    end
  else path.

Lemma no_dollar_cons c s :
  Str.contains (String c s) "$" = false ->
  c <> "$"%char /\ Str.contains s "$" = false.
Proof.
  intros H. split.
  - intros ->. apply not_true_iff_false in H. apply H.
    apply Str.contains_iff. exists EmptyString, s. reflexivity.
  - apply not_true_iff_false. intros F. apply not_true_iff_false in H. apply H.
    apply Str.contains_iff in F. destruct F as (u & v & ->).
    apply Str.contains_iff. exists (String c u), v. reflexivity.
Qed.

Lemma find_from_after before rest pos :
  Str.contains before "$" = false ->
  Str.find_from "$HOME" (before +:+ "$HOME" +:+ rest) pos
  = Some (pos + String.length before)%nat.
Proof.
  revert pos. induction before as [|c before IH]; intros pos H.
  - change (EmptyString +:+ "$HOME" +:+ rest) with (String "$" ("HOME" +:+ rest)).
    cbn [Str.find_from]. rewrite (Str.prefix_app "$HOME" rest : String.prefix "$HOME" (String "$" ("HOME" +:+ rest)) = true).
    cbn [String.length]. f_equal. lia.
  - destruct (no_dollar_cons c before H) as [Hc Hb].
    change (String c before +:+ "$HOME" +:+ rest)
      with (String c (before +:+ "$HOME" +:+ rest)).
    cbn [Str.find_from String.prefix].
    destruct (ascii_dec "$" c) as [E|_]; [congruence|].
    rewrite IH by exact Hb. cbn [String.length]. f_equal. lia.
Qed.

(** X13. [expandEnvironmentVariables] replaces the first [$HOME] of a path by
    the home directory and nothing else: what stands before it and after
    it, a second [$HOME] included, stays. Without a home directory, or
    without [$HOME] in it, the path is unchanged. *)
Theorem expandEnvironmentVariables_first home before rest :
  Str.contains before "$" = false ->
  expandEnvironmentVariables (Some home) (before +:+ "$HOME" +:+ rest)
  = before +:+ home +:+ rest
  /\ expandEnvironmentVariables None (before +:+ "$HOME" +:+ rest)
     = before +:+ "$HOME" +:+ rest
  /\ expandEnvironmentVariables (Some home) before = before.
Proof.
  intros H. unfold expandEnvironmentVariables.
  assert (Hc : Str.contains (before +:+ "$HOME" +:+ rest) "$HOME" = true)
    by (apply Str.contains_iff; eauto).
  rewrite Hc. unfold Str.find. rewrite find_from_after by exact H.
  cbn [Nat.add]. split; [|split; [reflexivity|]].
  - rewrite <- (DLP.append_empty_r before) at 1.
    rewrite take_append by (rewrite DLP.append_empty_r; lia).
    rewrite !DLP.append_empty_r.
    assert (Ht : Str.take (String.length before) before = before).
    { clear. induction before as [|c s IH]; [reflexivity|].
      cbn [String.length Str.take]. rewrite IH. reflexivity. }
    rewrite Ht. f_equal. f_equal.
    assert (Hd : forall s t, Str.drop (String.length s + 5) (s +:+ "$HOME" +:+ t) = t).
    { clear. induction s as [|c s IH]; intros t; [reflexivity|]. apply IH. }
    apply Hd.
  - destruct (Str.contains before "$HOME") eqn:F; [|reflexivity].
    exfalso. apply not_true_iff_false in H. apply H.
    apply Str.contains_iff in F. destruct F as (u & v & ->).
    apply Str.contains_iff. exists u, ("HOME" +:+ v). reflexivity.
Qed.

Lemma expandEnvironmentVariables_first_witness :
  expandEnvironmentVariables (Some "/home/agent") (backup_directory_ (new_manager 0 0 0 0))
  = "/home/agent/.workforce_agent/backups".
Proof.
  apply (expandEnvironmentVariables_first "/home/agent" "" "/.workforce_agent/backups").
  reflexivity.
Defined.
End UpgradeProps.

(** ** The DLP monitor: policies, file events and the kernel-probe path *)

Module DLPProps.
Import DLP.

Section Engine.

Variable regex : Type.
Variable regex_search : string -> regex -> option bool.

#[local] Arguments name {regex}.
#[local] Arguments file_extensions {regex}.
#[local] Arguments content_patterns {regex}.
#[local] Arguments restricted_paths {regex}.
#[local] Arguments block_transfer {regex}.
#[local] Arguments policies_ {regex}.
#[local] Arguments monitored_paths_ {regex}.
#[local] Arguments running_ {regex}.
#[local] Arguments callback_ {regex}.
#[local] Arguments addPolicy {regex}.
#[local] Arguments removePolicy {regex}.
#[local] Arguments checkFileAgainstPolicies {regex}.
#[local] Arguments checkContentAgainstPolicies {regex}.
#[local] Arguments content_matches {regex}.
#[local] Arguments content_found {regex}.
#[local] Arguments matches_by_path {regex}.
#[local] Arguments check_file_loop {regex}.
#[local] Arguments content_hit {regex}.
#[local] Arguments checkPortAgainstPolicies {regex}.
#[local] Arguments checkDestinationAgainstPolicies {regex}.
#[local] Arguments monitorNetworkConnections {regex}.
#[local] Arguments monitorSuspiciousProcesses {regex}.
#[local] Arguments monitorFileTransfers {regex}.
#[local] Arguments file_transfer_lines {regex}.
#[local] Arguments fallback_pass {regex}.
#[local] Arguments alert_only : clear implicits.
#[local] Arguments flagged_by_policy {regex}.

(** *** Installing and removing policies *)

Lemma filter_app_last {A} (f : A -> bool) (l : list A) (x : A) :
  List.filter f (l ++ [x]) = List.filter f l ++ (if f x then [x] else []).
Proof. rewrite List.filter_app. reflexivity. Qed.

(** X14. A policy that is added and then removed by its name is gone, with
    every other policy of that name, and the remaining policies keep their
    order; the paths it brought stay among the monitored paths, which
    [removePolicy] never shrinks. *)
Theorem removePolicy_after_addPolicy (policy : DLPPolicy regex) (m : DLPMonitor regex) :
  let m' := removePolicy (name policy) (addPolicy policy m) in
  policies_ m' = policies_ (removePolicy (name policy) m)
  /\ (forall q, In q (policies_ m') -> name q <> name policy)
  /\ (forall q, In q (policies_ m) -> name q <> name policy -> In q (policies_ m'))
  /\ ((forall q, In q (policies_ m) -> name q <> name policy) ->
      policies_ m' = policies_ m)
  /\ (forall path, In path (restricted_paths policy) -> path ∈ monitored_paths_ m')
  /\ monitored_paths_ m ⊆ monitored_paths_ m'.
Proof.
  cbn zeta. unfold removePolicy, addPolicy. cbn [policies_ monitored_paths_].
  rewrite filter_app_last, String.eqb_refl. cbn [negb]. rewrite app_nil_r.
  split; [reflexivity|]. split.
  { intros q Hq. apply List.filter_In in Hq. destruct Hq as [_ Hq].
    destruct (String.eqb_spec (name q) (name policy)); [discriminate|assumption]. }
  split.
  { intros q Hq Hne. apply List.filter_In. split; [exact Hq|].
    destruct (String.eqb_spec (name q) (name policy)); [contradiction|reflexivity]. }
  split.
  { intros H. induction (policies_ m) as [|q l IH]; [reflexivity|].
    cbn [List.filter].
    destruct (String.eqb_spec (name q) (name policy)) as [E|_]; cbn [negb].
    - exfalso. exact (H q (or_introl eq_refl) E).
    - f_equal. apply IH. intros q' Hq'. apply H. right. exact Hq'. }
  split.
  { intros path Hp. apply elem_of_union. left.
    apply elem_of_list_to_set, list_elem_of_In. exact Hp. }
  apply union_subseteq_r.
Qed.

(** *** The file match predicate under growing policy sets *)

Lemma content_hit_app files (ps qs : list (DLPPolicy regex)) path :
  content_hit regex_search files ps path \/ content_hit regex_search files qs path ->
  content_hit regex_search files (ps ++ qs) path.
Proof.
  intros [(c & Hc & Hne & p & pat & Hin & H)|(c & Hc & Hne & p & pat & Hin & H)];
    exists c; (split; [exact Hc|]); (split; [exact Hne|]); exists p, pat;
    (split; [|exact H]); apply in_or_app; auto.
Qed.

(** X15. Installing a policy never makes a file pass that matched before, and
    without policies no file matches. *)
Theorem checkFileAgainstPolicies_monotone files (m : DLPMonitor regex) policy path :
  (checkFileAgainstPolicies regex_search files (policies_ m) path = Val true ->
   checkFileAgainstPolicies regex_search files (policies_ (addPolicy policy m)) path
   = Val true)
  /\ checkFileAgainstPolicies regex_search files [] path = Val false.
Proof.
  split; [|reflexivity].
  unfold addPolicy. cbn [policies_].
  destruct (files !! path) as [[content|]|] eqn:E.
  2:{ rewrite !(checkFileAgainstPolicies_directory regex regex_search) by exact E.
      destruct (policies_ m) as [|first rest]; [discriminate|]. cbn [app]. auto. }
  all: assert (Hdir : files !! path <> Some directory) by (rewrite E; discriminate);
    destruct (checkFileAgainstPolicies_iff regex regex_search files (policies_ m) path Hdir)
      as (b & -> & Hb);
    destruct (checkFileAgainstPolicies_iff regex regex_search files
                (policies_ m ++ [policy]) path Hdir) as (b' & -> & Hb');
    intros [= ->]; f_equal; apply Hb';
    destruct (proj1 Hb eq_refl) as [(q & Hq & H)|H];
    [left; exists q; split; [apply in_or_app; left; exact Hq|exact H]
    |right; apply content_hit_app; left; exact H].
Qed.

(** *** File events *)

(** An event read from the inotify descriptor. *)
Record inotify_event : Type := mkInotify {
  wd : Z;
  mask : Z;
  len : Z;
  event_name : string
}.

(** [watch_path.back() == '/'] *)
Fixpoint ends_with_slash (s : string) : bool :=
  match s with
  | EmptyString => false
  | String c EmptyString => Ascii.eqb c "/"
  | String _ s' => ends_with_slash s'
  end.

(** The path of the file an event names, below its watch. *)
Definition full_path_of (watch_path : string) (event : inotify_event) : string :=
  if ends_with_slash watch_path then watch_path +:+ event_name event
  else watch_path +:+ "/" +:+ event_name event.

(** The body of the event loop of [monitorFileSystem] for one event, given
    the watches that were set up: the events handed to the callback, and
    the exception that leaves the loop, and with it the monitoring thread,
    when the check throws. *)
Definition file_event (now : string) (files : gmap string Node)
  (wd_to_path : gmap Z string) (m : DLPMonitor regex) (event : inotify_event)
  : list DLPEvent * Res unit :=
  match wd_to_path !! wd event with
  | None => ([], Val tt)
  | Some watch_path =>
      if 0 <? len event then
        let full_file_path := full_path_of watch_path event in
        match checkFileAgainstPolicies regex_search files (policies_ m) full_file_path with
        | Val true =>
            if callback_ m then
              ([mkEvent now "file_access" full_file_path "" "current_user"
                  "File access policy violation" true], Val tt)
            else ([], Val tt)
        | Val false => ([], Val tt)
        | Throw e => ([], Throw e)
        end
      else ([], Val tt)
  end.

(** X16. A named file event under a watch that is a restricted path of an
    installed policy is reported, as a blocked violation, whatever the
    file's extension and content and whatever the policy's block flag,
    unless the event names a directory and the first installed policy does
    not match it by its path: then the content check throws, nothing is
    reported, and the exception leaves the monitoring loop. *)
Theorem file_event_under_restricted_path now files wd_to_path m event watch_path policy :
  wd_to_path !! wd event = Some watch_path ->
  0 < len event ->
  In policy (policies_ m) ->
  In watch_path (restricted_paths policy) ->
  callback_ m = true ->
  let full_file_path := full_path_of watch_path event in
  let first_matches :=
    match policies_ m with
    | first :: _ => matches_by_path first full_file_path
    | [] => false
    end in
  String.prefix watch_path full_file_path = true
  /\ (files !! full_file_path <> Some directory \/ first_matches = true ->
      file_event now files wd_to_path m event
      = ([mkEvent now "file_access" full_file_path "" "current_user"
            "File access policy violation" true], Val tt))
  /\ (files !! full_file_path = Some directory -> first_matches = false ->
      file_event now files wd_to_path m event
      = ([], Throw (underflow_error "Is a directory"))).
Proof.
  intros Hwd Hlen Hin Hpath Hcb. cbn zeta. unfold file_event. rewrite Hwd, Hcb.
  destruct (Z.ltb_spec 0 (len event)) as [_|]; [|lia].
  cbn zeta.
  set (full := full_path_of watch_path event).
  assert (Hp : String.prefix watch_path full = true)
    by (unfold full, full_path_of; destruct (ends_with_slash watch_path);
        apply Str.prefix_app).
  split; [exact Hp|].
  destruct (files !! full) as [[content|]|] eqn:E.
  2:{ rewrite (checkFileAgainstPolicies_directory regex regex_search) by exact E.
      destruct (policies_ m) as [|first rest]; [destruct Hin|].
      split.
      - intros [H|H]; [contradiction|]. rewrite H. reflexivity.
      - intros _ H. rewrite H. reflexivity. }
  all: assert (Hdir : files !! full <> Some directory) by (rewrite E; discriminate);
    destruct (checkFileAgainstPolicies_iff regex regex_search files (policies_ m) full Hdir)
      as (b & -> & Hb);
    assert (b = true) as ->
      by (apply Hb; left; exists policy; split; [exact Hin|];
          right; exists watch_path; auto);
    (split; [reflexivity|intros; discriminate]).
Qed.

(** *** The kernel-probe path *)

(** The record the eBPF probes send for every [tcp_sendmsg] and
    [udp_sendmsg]. *)
Record transfer_event_t : Type := mkTransferEvent {
  pid : Z;
  uid : Z;
  saddr : Z;
  daddr : Z;
  sport : Z;
  dport : Z;
  size : Z;
  comm : string
}.

(** [inet_ntop(AF_INET, ...)] *)
Variable inet_ntop : Z -> string.

Definition destination_of (event : transfer_event_t) : string :=
  inet_ntop (daddr event) +:+ ":" +:+ Str.of_Z (dport event).

(** The three checks made for every policy, in their order: a later one
    replaces the reason of an earlier one. *)
Definition violation_of (policy : DLPPolicy regex) (event : transfer_event_t)
  : bool * string :=
  let violation := false in
  let violation_reason := "" in
  let '(violation, violation_reason) :=
    if 1024 * 1024 <? size event then (true, "Large network transfer detected")
    else (violation, violation_reason) in
  let '(violation, violation_reason) :=
    if List.existsb (fun restricted_dest => Str.contains (destination_of event) restricted_dest)
         (restricted_paths policy)
    then (true, "Transfer to restricted destination")
    else (violation, violation_reason) in
  let '(violation, violation_reason) :=
    if List.existsb (Z.eqb (dport event)) suspicious_ports
    then (true, "Transfer using potentially insecure protocol")
    else (violation, violation_reason) in
  (violation, violation_reason).

(** [checkNetworkTransfer] *)
Definition checkNetworkTransfer (now : string) (m : DLPMonitor regex)
  (event : transfer_event_t) : list DLPEvent :=
  List.flat_map
    (fun policy =>
       let '(violation, violation_reason) := violation_of policy event in
       if violation && callback_ m then
         [mkEvent now "network_transfer" (comm event) (destination_of event)
            "current_user" violation_reason (block_transfer policy)]
       else [])
    (policies_ m).

Definition restricts (policy : DLPPolicy regex) (event : transfer_event_t) : bool :=
  List.existsb (fun restricted_dest => Str.contains (destination_of event) restricted_dest)
    (restricted_paths policy).

Definition suspicious_port (event : transfer_event_t) : bool :=
  List.existsb (Z.eqb (dport event)) suspicious_ports.

Definition large (event : transfer_event_t) : bool := 1024 * 1024 <? size event.

Lemma violation_of_spec policy event :
  violation_of policy event
  = (large event || restricts policy event || suspicious_port event,
     if suspicious_port event then "Transfer using potentially insecure protocol"
     else if restricts policy event then "Transfer to restricted destination"
     else if large event then "Large network transfer detected"
     else "").
Proof.
  unfold violation_of, large, restricts, suspicious_port.
  destruct (1024 * 1024 <? size event), (List.existsb _ (restricted_paths policy)),
    (List.existsb _ suspicious_ports); reflexivity.
Qed.

(** Whether a transfer is a violation under a policy, and the event that
    reports it. *)
Definition violates (event : transfer_event_t) (policy : DLPPolicy regex) : bool :=
  large event || restricts policy event || suspicious_port event.

Definition reported (now : string) (event : transfer_event_t) (policy : DLPPolicy regex)
  : DLPEvent :=
  mkEvent now "network_transfer" (comm event) (destination_of event) "current_user"
    (if suspicious_port event then "Transfer using potentially insecure protocol"
     else if restricts policy event then "Transfer to restricted destination"
     else "Large network transfer detected")
    (block_transfer policy).

Lemma checkNetworkTransfer_spec now m event :
  checkNetworkTransfer now m event
  = if callback_ m
    then List.map (reported now event) (List.filter (violates event) (policies_ m))
    else [].
Proof.
  unfold checkNetworkTransfer.
  induction (policies_ m) as [|policy l IH].
  - destruct (callback_ m); reflexivity.
  - cbn [List.flat_map List.filter]. rewrite violation_of_spec, IH.
    fold (violates event policy).
    destruct (callback_ m); [|rewrite andb_false_r; reflexivity].
    rewrite andb_true_r.
    destruct (violates event policy) eqn:E; cbn [List.map app]; [|reflexivity].
    f_equal. unfold reported. f_equal. unfold violates in E.
    destruct (suspicious_port event), (restricts policy event), (large event);
      try reflexivity; discriminate E.
Qed.

(** X17. The events of the kernel-probe path: with a callback registered, one
    network-transfer event for every installed policy under which the
    transfer is a violation (it is large, or its destination contains a
    restricted path of the policy, or it goes to a suspicious port), in the
    order of the policies, and no other event; without a callback, none.
    Each event carries the block flag of its policy, and of the reasons that
    apply the one checked last: the port before the destination before the
    size. A transfer that is large or goes to a suspicious port is reported
    once for every installed policy. *)
Theorem checkNetworkTransfer_events now m event :
  checkNetworkTransfer now m event
  = (if callback_ m
     then List.map (reported now event) (List.filter (violates event) (policies_ m))
     else [])
  /\ (forall policy,
        callback_ m = true -> In policy (policies_ m) ->
        restricts policy event = true ->
        In (reported now event policy) (checkNetworkTransfer now m event))
  /\ (forall e, In e (checkNetworkTransfer now m event) ->
        type e = "network_transfer"
        /\ file_path e = comm event
        /\ destination e = destination_of event
        /\ callback_ m = true
        /\ exists policy,
             In policy (policies_ m)
             /\ blocked e = block_transfer policy
             /\ (large event || restricts policy event || suspicious_port event) = true
             /\ policy_violated e
                = (if suspicious_port event
                   then "Transfer using potentially insecure protocol"
                   else if restricts policy event then "Transfer to restricted destination"
                   else "Large network transfer detected"))
  /\ (callback_ m = true -> large event || suspicious_port event = true ->
      List.map blocked (checkNetworkTransfer now m event)
      = List.map block_transfer (policies_ m)).
Proof.
  rewrite checkNetworkTransfer_spec. split; [reflexivity|]. split; [|split].
  - intros policy -> Hin Hr. apply List.in_map, List.filter_In.
    split; [exact Hin|]. unfold violates. rewrite Hr, orb_true_r. reflexivity.
  - intros e He. destruct (callback_ m); [|destruct He].
    apply List.in_map_iff in He. destruct He as (policy & <- & He).
    apply List.filter_In in He. destruct He as [Hin Hv].
    cbn [type file_path destination blocked policy_violated reported].
    repeat split. exists policy. repeat split; [exact Hin|exact Hv].
  - intros -> Hv.
    induction (policies_ m) as [|policy l IH]; [reflexivity|].
    cbn [List.filter List.map].
    assert (E : violates event policy = true).
    { unfold violates.
      destruct (large event), (suspicious_port event), (restricts policy event);
        try reflexivity; discriminate. }
    rewrite E. cbn [List.map blocked reported]. rewrite IH. reflexivity.
Qed.

(** *** The polling fallback and the alerts made of its events *)

Lemma flat_map_nil {A B} (f : A -> list B) (l : list A) :
  (forall x, In x l -> f x = []) -> List.flat_map f l = [].
Proof.
  induction l as [|x l IH]; intros H; [reflexivity|].
  cbn [List.flat_map]. rewrite (H x (or_introl eq_refl)), IH; [reflexivity|].
  intros y Hy. apply H. right. exact Hy.
Qed.

Lemma fallback_pass_sources now env (m : DLPMonitor regex) e :
  In e (fst (fallback_pass now env m)) ->
  In e (monitorNetworkConnections now env m)
  \/ In e (monitorSuspiciousProcesses now env m)
  \/ In e (fst (monitorFileTransfers now env m)).
Proof.
  unfold fallback_pass.
  destruct (monitorFileTransfers now env m) as [evs r]. cbn [fst].
  rewrite !in_app_iff. tauto.
Qed.

(** How many policies ask for blocking. *)
Definition blocking (m : DLPMonitor regex) : nat :=
  List.length (List.filter block_transfer (policies_ m)).

(** X18. The fallback reports a suspicious port once for every policy that asks
    for blocking, and neither ports nor processes when no policy does; with
    no callback registered a pass reports nothing at all. *)
Theorem fallback_needs_blocking_policy now env (m : DLPMonitor regex) :
  (forall port,
      List.length (checkPortAgainstPolicies now m port)
      = if List.existsb (Z.eqb port) suspicious_ports && callback_ m
        then blocking m else 0%nat)
  /\ (blocking m = 0%nat ->
      monitorNetworkConnections now env m = []
      /\ monitorSuspiciousProcesses now env m = [])
  /\ (callback_ m = false -> fst (fallback_pass now env m) = []).
Proof.
  assert (Hport : forall port,
             List.length (checkPortAgainstPolicies now m port)
             = if List.existsb (Z.eqb port) suspicious_ports && callback_ m
               then blocking m else 0%nat).
  { intros port. unfold checkPortAgainstPolicies, blocking.
    destruct (List.existsb _ suspicious_ports); [|reflexivity]. cbn [andb].
    induction (policies_ m) as [|p l IH]; [destruct (callback_ m); reflexivity|].
    cbn [List.flat_map List.filter]. rewrite List.length_app, IH.
    destruct (block_transfer p), (callback_ m); reflexivity. }
  assert (Hnone : forall (f : DLPPolicy regex -> DLPEvent),
             blocking m = 0%nat \/ callback_ m = false ->
             List.flat_map
               (fun policy => if block_transfer policy && callback_ m then [f policy] else [])
               (policies_ m) = []).
  { intros f H. apply flat_map_nil. intros p Hp.
    destruct H as [H| ->]; [|rewrite andb_false_r; reflexivity].
    destruct (block_transfer p) eqn:E; [|reflexivity].
    exfalso. unfold blocking in H.
    assert (Hin : In p (List.filter block_transfer (policies_ m)))
      by (apply List.filter_In; auto).
    destruct (List.filter block_transfer (policies_ m)); [destruct Hin|discriminate]. }
  assert (Hquiet : blocking m = 0%nat \/ callback_ m = false ->
             monitorNetworkConnections now env m = []
             /\ monitorSuspiciousProcesses now env m = []).
  { intros H. split.
    - unfold monitorNetworkConnections.
      destruct (popen env ss_command) as [lines|]; [|reflexivity].
      apply flat_map_nil. intros line _.
      destruct (port_of_line line) as [port|]; [|reflexivity].
      apply List.length_zero_iff_nil. rewrite Hport.
      destruct H as [->| ->]; [|rewrite andb_false_r];
        destruct (List.existsb (Z.eqb port) suspicious_ports); try reflexivity;
        destruct (callback_ m); reflexivity.
    - unfold monitorSuspiciousProcesses. apply flat_map_nil. intros cmd _.
      destruct (popen env _) as [[|buffer ?]|]; try reflexivity.
      destruct (popen env _) as [[|? ?]|]; try reflexivity.
      apply (Hnone (fun _ => mkEvent now "suspicious_process" cmd "network" "current_user"
                                ("Suspicious network process detected: " +:+ cmd) false)).
      exact H. }
  split; [exact Hport|]. split; [intros H; apply Hquiet; left; exact H|].
  intros Hcb.
  destruct (fst (fallback_pass now env m)) as [|e evs] eqn:E; [reflexivity|].
  exfalso.
  assert (He : In e (fst (fallback_pass now env m))) by (rewrite E; left; reflexivity).
  destruct (Hquiet (or_intror Hcb)) as [H1 H2].
  apply fallback_pass_sources in He. rewrite H1, H2 in He.
  destruct He as [[]|[[]|He]].
  unfold monitorFileTransfers in He.
  destruct (proc_net_tcp env) as [lines|]; [|destruct He].
  revert He. generalize (List.tl lines). clear -Hcb. intros l.
  induction l as [|line rest IH]; cbn [file_transfer_lines]; [intros []|].
  destruct (Nat.leb 8 _ && String.eqb _ "01"); [|exact IH].
  destruct (hexToIp _) as [remote|ex]; [|intros []].
  destruct (file_transfer_lines now m rest) as [evs r]. cbn [fst] in *.
  rewrite in_app_iff. intros [H|H]; [|auto].
  unfold checkDestinationAgainstPolicies in H. rewrite Hcb in H.
  apply List.in_flat_map in H. destruct H as (p & _ & H).
  destruct (List.existsb _ _); destruct H.
Qed.

(** The severity the agent's DLP callback gives the alert it sends for an
    event. *)
Definition alert_severity (event : DLPEvent) : string :=
  let severity := "medium" in
  if blocked event then "high"
  else if String.eqb (type event) "file_access" then "high"
  else severity.

(** X19. The severity of the alerts, by the source of the event: a file event
    is always high; an event of the kernel-probe path is high exactly under
    a policy that asks for blocking; in the polling fallback only a
    restricted destination under such a policy is high, and every
    suspicious port or process is medium. *)
Theorem alert_severity_by_source now env files wd_to_path (m : DLPMonitor regex)
  inotify transfer :
  (forall e, In e (fst (file_event now files wd_to_path m inotify)) ->
     alert_severity e = "high")
  /\ (forall e, In e (checkNetworkTransfer now m transfer) ->
      alert_severity e = if blocked e then "high" else "medium")
  /\ (forall e, In e (fst (fallback_pass now env m)) ->
      alert_severity e
      = if String.eqb (type e) "restricted_destination" && blocked e
        then "high" else "medium").
Proof.
  split; [|split].
  - intros e. unfold file_event.
    destruct (wd_to_path !! wd inotify); [|intros []].
    destruct (0 <? len inotify); [|intros []]. cbn zeta.
    destruct (checkFileAgainstPolicies _ _ _ _) as [[|]|]; try (intros []).
    destruct (callback_ m); [|intros []].
    intros [<-|[]]. reflexivity.
  - intros e. unfold checkNetworkTransfer. rewrite List.in_flat_map.
    intros (policy & _ & H). destruct (violation_of policy transfer) as [v reason].
    destruct (v && callback_ m); [|destruct H]. destruct H as [<-|[]].
    unfold alert_severity. cbn [blocked type String.eqb].
    destruct (block_transfer policy); reflexivity.
  - intros e He. apply fallback_pass_sources in He.
    assert (Halert : alert_only e ->
              alert_severity e
              = if String.eqb (type e) "restricted_destination" && blocked e
                then "high" else "medium").
    { intros [[Ht|Ht] Hb]; unfold alert_severity; rewrite Ht, Hb; reflexivity. }
    destruct He as [He|[He|He]].
    + apply Halert. eapply (monitorNetworkConnections_events regex). exact He.
    + apply Halert. eapply (monitorSuspiciousProcesses_events regex). exact He.
    + unfold monitorFileTransfers in He.
      destruct (proc_net_tcp env) as [lines|]; [|destruct He].
      apply (file_transfer_lines_events regex) in He. destruct He as [Ht _].
      unfold alert_severity. rewrite Ht. destruct (blocked e); reflexivity.
Qed.

End Engine.

Definition home_watch : gmap Z string := {[ 1 := "/home" ]}.

Lemma file_event_under_restricted_path_witness :
  file_event string literal_search "2025-01-06 12:00:00" notes_files home_watch
    agent_monitor (mkInotify 1 256 16 "todo.bin")
  = ([mkEvent "2025-01-06 12:00:00" "file_access" "/home/todo.bin" "" "current_user"
        "File access policy violation" true], Val tt).
Proof.
  destruct (file_event_under_restricted_path string literal_search "2025-01-06 12:00:00"
              notes_files home_watch agent_monitor (mkInotify 1 256 16 "todo.bin")
              "/home" confidential_policy
              ltac:(reflexivity) ltac:(reflexivity) ltac:(simpl; auto)
              ltac:(simpl; auto) ltac:(reflexivity)) as (_ & H & _).
  apply H. left. vm_compute. discriminate.
Defined.

(** A directory created under a watched path: the first policy has neither
    extension nor path for it, so the check reads it before the policy that
    restricts the path is tried, and throws. *)
Definition share_watch : gmap Z string := {[ 1 := "/srv/share" ]}.

Definition share_monitor : DLPMonitor string :=
  addPolicy string share_policy
    (addPolicy string project_policy (mkMonitor string [] ∅ false true)).

Example file_event_directory_throws :
  file_event string literal_search "2025-01-06 12:00:00" drop_files share_watch
    share_monitor (mkInotify 1 1073742080 16 "drop")
  = ([], Throw (underflow_error "Is a directory")).
Proof. vm_compute. reflexivity. Qed.

(** *** Addresses of [/proc/net/tcp] *)

(** The kernel prints an IPv4 address as the eight upper-case hexadecimal
    digits of the 32-bit word it is stored in. *)
Definition upper_hex_digit (d : Z) : ascii :=
  ascii_of_nat (Z.to_nat (if d <? 10 then 48 + d else 55 + d)).

Definition hex_byte (b : Z) : string :=
  String (upper_hex_digit (b / 16)) (String (upper_hex_digit (b mod 16)) EmptyString).

Definition all_bytes : list Z := List.map Z.of_nat (List.seq 0 256).

Lemma in_all_bytes z : 0 <= z < 256 -> In z all_bytes.
Proof.
  intros H. unfold all_bytes. apply List.in_map_iff. exists (Z.to_nat z).
  split; [lia|]. apply List.in_seq. lia.
Qed.

Lemma stoi_hex_byte z :
  0 <= z < 256 ->
  stoi 16 (String (upper_hex_digit (z / 16))
             (String (upper_hex_digit (z mod 16)) EmptyString)) = Some z.
Proof.
  intros H.
  assert (E : List.forallb
                (fun b => match stoi 16 (hex_byte b) with
                          | Some v => v =? b
                          | None => false
                          end) all_bytes = true) by (vm_compute; reflexivity).
  rewrite List.forallb_forall in E. specialize (E z (in_all_bytes z H)).
  unfold hex_byte in E.
  destruct (stoi 16 _) as [v|]; [|discriminate].
  apply Z.eqb_eq in E. congruence.
Qed.

Lemma hex_byte_no_colon z :
  0 <= z < 256 ->
  upper_hex_digit (z / 16) <> ":"%char /\ upper_hex_digit (z mod 16) <> ":"%char.
Proof.
  intros H.
  assert (E : List.forallb
                (fun b => negb (Ascii.eqb (upper_hex_digit (b / 16)) ":")
                          && negb (Ascii.eqb (upper_hex_digit (b mod 16)) ":"))
                all_bytes = true) by (vm_compute; reflexivity).
  rewrite List.forallb_forall in E. specialize (E z (in_all_bytes z H)).
  apply andb_true_iff in E. destruct E as [E1 E2].
  split; intros F; rewrite F in *; discriminate.
Qed.

Lemma find_from_skip c x s pos :
  x <> c ->
  Str.find_from (String c EmptyString) (String x s) pos
  = Str.find_from (String c EmptyString) s (S pos).
Proof.
  intros H. cbn [Str.find_from String.prefix].
  destruct (ascii_dec c x) as [E|_]; [congruence|reflexivity].
Qed.

Lemma find_from_here c s pos :
  Str.find_from (String c EmptyString) (String c s) pos = Some pos.
Proof.
  cbn [Str.find_from String.prefix].
  destruct (ascii_dec c c) as [_|E]; [|contradiction].
  destruct s; reflexivity.
Qed.

(** X20. [hexToIp] decodes such an address: it drops the port and gives the
    four bytes in dotted decimal, last byte first. *)
Theorem hexToIp_decodes a b c d port :
  0 <= a < 256 -> 0 <= b < 256 -> 0 <= c < 256 -> 0 <= d < 256 ->
  hexToIp (hex_byte a +:+ hex_byte b +:+ hex_byte c +:+ hex_byte d +:+ ":" +:+ port)
  = Val (Str.of_Z d +:+ "." +:+ Str.of_Z c +:+ "." +:+ Str.of_Z b +:+ "." +:+ Str.of_Z a).
Proof.
  intros Ha Hb Hc Hd.
  destruct (hex_byte_no_colon a Ha) as [A1 A2].
  destruct (hex_byte_no_colon b Hb) as [B1 B2].
  destruct (hex_byte_no_colon c Hc) as [C1 C2].
  destruct (hex_byte_no_colon d Hd) as [D1 D2].
  change (hex_byte a +:+ hex_byte b +:+ hex_byte c +:+ hex_byte d +:+ ":" +:+ port)
    with (String (upper_hex_digit (a / 16)) (String (upper_hex_digit (a mod 16))
         (String (upper_hex_digit (b / 16)) (String (upper_hex_digit (b mod 16))
         (String (upper_hex_digit (c / 16)) (String (upper_hex_digit (c mod 16))
         (String (upper_hex_digit (d / 16)) (String (upper_hex_digit (d mod 16))
         (String ":" port))))))))).
  unfold hexToIp, Str.find.
  rewrite !find_from_skip by assumption. rewrite find_from_here.
  cbn [Str.substr Str.take Str.drop String.length Nat.eqb].
  cbn [Res_mapM Res_bind Str.substr Str.take Str.drop].
  rewrite !stoi_hex_byte by assumption.
  cbn [Res_bind Nat.ltb Nat.leb Str.concat].
  rewrite !DLP.append_empty_r, !DLP.append_assoc. reflexivity.
Qed.

Lemma hexToIp_decodes_witness : hexToIp "0500000A:01BB" = Val "10.0.0.5".
Proof.
  apply (hexToIp_decodes 5 0 0 10 "01BB"); lia.
Defined.
End DLPProps.

(** ** The behaviour analyzer: what its scores and records can be *)

Module BehaviorProps.
Import Behavior.

(** *** The native path on its own *)

Definition normal (p : BehaviorPattern) : Prop :=
  pattern_type p = "normal" /\ (confidence_score p == 0)%Q.

(** Only normal patterns are recorded and every stored score is 0. *)
Definition uneventful (a : BehaviorAnalyzer) : Prop :=
  Forall normal (pattern_history_ a)
  /\ forall u p, user_profiles_ a !! u = Some p ->
                 Forall normal (recent_patterns p) /\ (risk_score p == 0)%Q.

Lemma risk_loop_normal patterns s n t :
  Forall normal patterns -> exists t', risk_loop patterns s n t = (s, n, t').
Proof.
  intros H. revert t. induction H as [|p ps [Hp _] _ IH]; intros t; [cbn; eauto|].
  cbn [risk_loop]. destruct (10 <? t + 1); [eauto|].
  rewrite Hp. cbn [String.eqb Ascii.eqb Bool.eqb]. apply IH.
Qed.

Lemma risk_of_patterns_normal patterns :
  Forall normal patterns -> (risk_of_patterns patterns == 0)%Q.
Proof.
  intros H. unfold risk_of_patterns.
  destruct (risk_loop_normal patterns 0 0 0 H) as [t ->].
  assert (E : ((if 0 <? t
                then (inject_Z 0 * (8 # 10) + inject_Z 0 * (4 # 10)) / inject_Z t
                else 0) == 0)%Q).
  { destruct (0 <? t); [|reflexivity].
    unfold Qdiv. change (inject_Z 0 * (8 # 10) + inject_Z 0 * (4 # 10))%Q with (0 # 100)%Q.
    unfold Qeq, Qmult. cbn. reflexivity. }
  unfold std_min.
  destruct (Qltb 1 _) eqn:F; [|exact E].
  apply Qltb_true in F. rewrite E in F. discriminate.
Qed.

Lemma Forall_push_history (P : BehaviorPattern -> Prop) pattern history :
  Forall P history -> P pattern -> Forall P (push_history pattern history).
Proof.
  intros Hh Hp. unfold push_history.
  assert (H : Forall P (history ++ [pattern])) by (apply Forall_app; auto).
  destruct (Nat.ltb 1000 _); [|exact H].
  destruct (history ++ [pattern]); [exact H|]. cbn. inversion H. assumption.
Qed.

Lemma analyzeActivity_uneventful user activity_type metrics now a :
  uneventful a ->
  uneventful (fst (analyzeActivity user activity_type metrics now a))
  /\ snd (analyzeActivity user activity_type metrics now a) = [].
Proof.
  intros [Hh Hp]. unfold analyzeActivity. rewrite detectAnomalies_id.
  cbn [fst snd].
  set (a1 := updateBaseline user metrics a).
  assert (Hh1 : pattern_history_ a1 = pattern_history_ a).
  { subst a1. unfold updateBaseline. destruct (user_profiles_ a !! user); reflexivity. }
  assert (Hp1 : forall u p, user_profiles_ a1 !! u = Some p ->
                            Forall normal (recent_patterns p) /\ (risk_score p == 0)%Q).
  { subst a1. unfold updateBaseline. intros u p.
    destruct (user_profiles_ a !! user) as [q|] eqn:E; cbn [user_profiles_ set_profiles];
      (destruct (decide (user = u)) as [<-|Hne];
       [rewrite lookup_insert_eq; intros [= <-]; cbn [recent_patterns risk_score]
       |rewrite lookup_insert_ne by exact Hne; apply Hp]).
    - exact (Hp _ _ E).
    - split; [constructor|reflexivity]. }
  assert (Hu : exists p1, user_profiles_ a1 !! user = Some p1).
  { subst a1. unfold updateBaseline.
    destruct (user_profiles_ a !! user); cbn [user_profiles_ set_profiles];
      rewrite lookup_insert_eq; eauto. }
  destruct Hu as [p1 Hu].
  set (score := calculateRiskScore user a1).
  assert (Hs : (score == 0)%Q).
  { subst score. unfold calculateRiskScore. rewrite Hu.
    apply risk_of_patterns_normal. exact (proj1 (Hp1 _ _ Hu)). }
  assert (H7 : Qltb (7 # 10) score = false)
    by (apply Qltb_false; rewrite Hs; discriminate).
  assert (H5 : Qltb (5 # 10) score = false)
    by (apply Qltb_false; rewrite Hs; discriminate).
  rewrite H7, H5.
  set (pattern := mkPattern user "normal" score ("Normal activity: " +:+ activity_type) now).
  assert (Hn : normal pattern) by (split; [reflexivity|exact Hs]).
  cbn [user_profiles_ set_history pattern_history_ anomaly_callback_ pattern_type
       String.eqb Ascii.eqb Bool.eqb negb andb].
  rewrite Hu. cbn [user_profiles_ set_history]. rewrite Hu.
  cbn [set_profiles pattern_history_ user_profiles_ anomaly_callback_ set_history].
  split; [|reflexivity]. split.
  - rewrite Hh1. apply Forall_push_history; assumption.
  - intros u p. cbn [user_profiles_ set_profiles].
    destruct (decide (user = u)) as [<-|Hne].
    + rewrite lookup_insert_eq. intros [= <-]. cbn [recent_patterns risk_score].
      split; [|exact (proj2 Hn)]. apply Forall_app. split; [exact (proj1 (Hp1 _ _ Hu))|].
      constructor; [exact Hn|constructor].
    + rewrite lookup_insert_ne by exact Hne. apply Hp1.
Qed.

Definition is_activity (c : Call) : Prop :=
  match c with Activity _ _ _ _ => True | Insight _ => False end.

(** X21. Left to itself, the analyzer never raises anything: after any number
    of [analyzeActivity] calls, whatever the users, activities and metrics,
    every recorded pattern is normal with confidence 0, every risk score is
    0, and the anomaly callback has not been and is not invoked. *)
Theorem native_analysis_never_flags calls :
  Forall is_activity calls ->
  uneventful (run calls)
  /\ forall user activity_type metrics now,
       snd (analyzeActivity user activity_type metrics now (run calls)) = [].
Proof.
  intros H.
  assert (G : forall a, uneventful a -> uneventful (List.fold_left step calls a)).
  { induction H as [|c calls Hc _ IH]; intros a Ha; [exact Ha|].
    cbn [List.fold_left]. apply IH. destruct c as [u t m n|i]; [|destruct Hc].
    cbn [step]. apply analyzeActivity_uneventful. exact Ha. }
  assert (H0 : uneventful new_analyzer).
  { split; [constructor|]. intros u p Hp. cbn in Hp. rewrite lookup_empty in Hp.
    discriminate. }
  split; [exact (G _ H0)|].
  intros user activity_type metrics now.
  apply analyzeActivity_uneventful. exact (G _ H0).
Qed.

Definition three_logins : list Call :=
  [Activity "alice" "login" {[ "activity_level" := 8 # 10 ]} 100;
   Activity "bob" "file_copy" {[ "bytes" := 5000000 # 1 ]} 160;
   Activity "alice" "periodic_check" {[ "activity_level" := 99 # 1 ]} 220].

Lemma native_analysis_never_flags_witness :
  uneventful (run three_logins).
Proof.
  apply (native_analysis_never_flags three_logins).
  repeat constructor.
Defined.

(** *** The risk score of a long record *)

Definition count (t : string) (patterns : list BehaviorPattern) : Z :=
  Z.of_nat (List.length (List.filter (has_type t) patterns)).

(** With more than [10 - t] patterns left, the loop stops at the eleventh
    count and has looked at the patterns before it only. *)
Lemma risk_loop_long patterns :
  forall s n t,
    0 <= t <= 10 ->
    10 - t < Z.of_nat (List.length patterns) ->
    risk_loop patterns s n t
    = (s + count "suspicious" (List.firstn (Z.to_nat (10 - t)) patterns),
       n + count "anomalous" (List.firstn (Z.to_nat (10 - t)) patterns),
       11).
Proof.
  unfold count.
  induction patterns as [|p ps IH]; intros s n t Ht Hlen; cbn [List.length] in Hlen;
    [lia|].
  cbn [risk_loop].
  destruct (Z.ltb_spec 10 (t + 1)) as [Hgt|Hle].
  - assert (t = 10) as -> by lia. cbn. rewrite !Z.add_0_r. reflexivity.
  - replace (Z.to_nat (10 - t)) with (S (Z.to_nat (10 - (t + 1)))) by lia.
    cbn [List.firstn List.filter].
    change (has_type "suspicious" p) with (String.eqb (pattern_type p) "suspicious").
    change (has_type "anomalous" p) with (String.eqb (pattern_type p) "anomalous").
    destruct (String.eqb_spec (pattern_type p) "suspicious") as [E|_].
    + rewrite E. change (String.eqb "suspicious" "anomalous") with false.
      cbn [List.length]. rewrite IH by lia.
      apply f_equal2; [apply f_equal2|]; lia.
    + destruct (String.eqb (pattern_type p) "anomalous"); cbn [List.length];
        rewrite IH by lia; (apply f_equal2; [apply f_equal2|]; lia).
Qed.

Lemma count_bounds t patterns :
  0 <= count t patterns <= Z.of_nat (List.length patterns).
Proof.
  unfold count. pose proof (List.filter_length_le (has_type t) patterns). lia.
Qed.

Lemma count_disjoint patterns :
  count "suspicious" patterns + count "anomalous" patterns
  <= Z.of_nat (List.length patterns).
Proof.
  unfold count. induction patterns as [|p ps IH]; [cbn; lia|].
  cbn [List.filter List.length].
  change (has_type "suspicious" p) with (String.eqb (pattern_type p) "suspicious").
  change (has_type "anomalous" p) with (String.eqb (pattern_type p) "anomalous").
  destruct (String.eqb_spec (pattern_type p) "suspicious") as [E|_].
  - rewrite E. change (String.eqb "suspicious" "anomalous") with false.
    cbn [List.length]. lia.
  - destruct (String.eqb (pattern_type p) "anomalous"); cbn [List.length]; lia.
Qed.

(** X22. Once more than ten patterns are recorded for a user, the score is
    frozen: it is computed from the ten oldest patterns and divided by 11,
    so that no later pattern changes it and it never exceeds 8/11. *)
Theorem risk_of_patterns_frozen patterns later :
  (10 < List.length patterns)%nat ->
  risk_of_patterns (patterns ++ later) = risk_of_patterns patterns
  /\ risk_of_patterns patterns = risk_of_patterns (List.firstn 11 patterns)
  /\ (risk_of_patterns patterns <= 8 # 11)%Q.
Proof.
  intros H.
  assert (E : forall l, (10 < List.length l)%nat ->
                risk_of_patterns l
                = std_min
                    ((inject_Z (count "suspicious" (List.firstn 10 l)) * (8 # 10)
                      + inject_Z (count "anomalous" (List.firstn 10 l)) * (4 # 10))
                     / inject_Z 11)%Q 1).
  { intros l Hl. unfold risk_of_patterns.
    rewrite (risk_loop_long l 0 0 0) by lia.
    change (Z.to_nat (10 - 0)) with 10%nat. rewrite !Z.add_0_l. reflexivity. }
  split; [|split].
  - rewrite (E (patterns ++ later)) by (rewrite List.length_app; lia).
    rewrite (E patterns H).
    rewrite List.firstn_app.
    replace (10 - List.length patterns)%nat with 0%nat by lia.
    cbn [List.firstn]. rewrite app_nil_r. reflexivity.
  - rewrite (E patterns H).
    rewrite (E (List.firstn 11 patterns)) by (rewrite List.length_firstn; lia).
    rewrite List.firstn_firstn. reflexivity.
  - rewrite (E patterns H).
    pose proof (count_bounds "suspicious" (List.firstn 10 patterns)) as Hs.
    pose proof (count_bounds "anomalous" (List.firstn 10 patterns)) as Ha.
    pose proof (count_disjoint (List.firstn 10 patterns)) as Hd.
    rewrite List.length_firstn in Hs, Ha, Hd.
    set (cs := count "suspicious" (List.firstn 10 patterns)) in *.
    set (ca := count "anomalous" (List.firstn 10 patterns)) in *.
    assert (Hq : ((inject_Z cs * (8 # 10) + inject_Z ca * (4 # 10)) / inject_Z 11
                  <= 8 # 11)%Q).
    { unfold Qle, Qdiv, Qmult, Qplus, Qinv, inject_Z. cbn. lia. }
    unfold std_min. destruct (Qltb 1 _) eqn:F; [|exact Hq].
    apply Qltb_true in F. exfalso.
    apply (Qlt_irrefl 1). eapply Qlt_le_trans; [exact F|].
    eapply Qle_trans; [exact Hq|]. discriminate.
Qed.

Lemma risk_of_patterns_frozen_witness :
  risk_of_patterns
    (List.repeat (mkPattern "alice" "suspicious" (9 # 10) "" 0) 11
     ++ [mkPattern "alice" "normal" 0 "" 1])
  = risk_of_patterns (List.repeat (mkPattern "alice" "suspicious" (9 # 10) "" 0) 11).
Proof.
  apply (risk_of_patterns_frozen
           (List.repeat (mkPattern "alice" "suspicious" (9 # 10) "" 0) 11)
           [mkPattern "alice" "normal" 0 "" 1]).
  cbn. lia.
Defined.

(** *** What is kept *)

Lemma length_push_history pattern history :
  (List.length history <= 1000)%nat ->
  List.length (push_history pattern history)
  = Nat.min (S (List.length history)) 1000.
Proof.
  intros H. unfold push_history.
  assert (E : List.length (history ++ [pattern]) = S (List.length history))
    by (rewrite List.length_app; cbn; lia).
  destruct (Nat.ltb_spec 1000 (List.length (history ++ [pattern]))) as [Hgt|Hle].
  - destruct (history ++ [pattern]) as [|x l]; cbn [List.length List.tl] in *; lia.
  - lia.
Qed.

Lemma updateBaseline_patterns user metrics a :
  pattern_history_ (updateBaseline user metrics a) = pattern_history_ a
  /\ exists p, user_profiles_ (updateBaseline user metrics a) !! user = Some p
               /\ recent_patterns p = patterns_of user a.
Proof.
  unfold updateBaseline, patterns_of.
  destruct (user_profiles_ a !! user) as [p|];
    cbn [user_profiles_ set_profiles pattern_history_];
    rewrite lookup_insert_eq; eauto.
Qed.

(** What a call records: one pattern in the history, and for an activity
    one more pattern in the user's own list. *)
Lemma step_records a c :
  exists pattern,
    pattern_history_ (step a c) = push_history pattern (pattern_history_ a)
    /\ match c with
       | Activity user _ _ _ => patterns_of user (step a c) = patterns_of user a ++ [pattern]
       | Insight _ => True
       end.
Proof.
  destruct c as [user activity_type metrics now|insight]; cbn [step].
  - unfold analyzeActivity. rewrite detectAnomalies_id. cbn [fst].
    destruct (updateBaseline_patterns user metrics a) as (Hh & p & Hp & Hr).
    set (a1 := updateBaseline user metrics a) in *.
    set (pattern := if Qltb (7 # 10) (calculateRiskScore user a1) then _ else _).
    exists pattern.
    cbn [user_profiles_ set_history pattern_history_]. rewrite Hp.
    cbn [user_profiles_ set_history]. rewrite Hp.
    cbn [pattern_history_ set_profiles set_history]. rewrite Hh.
    split; [reflexivity|].
    unfold patterns_of at 1. cbn [user_profiles_ set_profiles].
    rewrite lookup_insert_eq. cbn [recent_patterns]. rewrite Hr. reflexivity.
  - exists (pattern_of_insight insight). split; [|exact I].
    unfold handleLLMInsight. cbn [fst].
    destruct (user_profiles_ _ !! LLM.user insight); reflexivity.
Qed.

(** X23. The global history holds the last 1000 patterns at most, one for every
    call so far; a user's own list is never trimmed and grows by one with
    every activity of that user. *)
Theorem pattern_history_bounded calls :
  List.length (pattern_history_ (run calls)) = Nat.min (List.length calls) 1000
  /\ forall user activity_type metrics now,
       List.length
         (patterns_of user (step (run calls) (Activity user activity_type metrics now)))
       = S (List.length (patterns_of user (run calls))).
Proof.
  split.
  - unfold run.
    assert (G : forall a,
               (List.length (pattern_history_ a) <= 1000)%nat ->
               List.length (pattern_history_ (List.fold_left step calls a))
               = Nat.min (List.length (pattern_history_ a) + List.length calls) 1000).
    { induction calls as [|c calls IH]; intros a Ha; cbn [List.fold_left List.length].
      - lia.
      - destruct (step_records a c) as (pattern & E & _).
        pose proof (length_push_history pattern _ Ha) as L. rewrite <- E in L.
        rewrite IH by lia. lia. }
    rewrite G by (cbn; lia). reflexivity.
  - intros user activity_type metrics now.
    destruct (step_records (run calls) (Activity user activity_type metrics now))
      as (pattern & _ & ->).
    rewrite List.length_app. cbn. lia.
Qed.

(** *** Reading the history *)

(** The loop of [getRecentPatterns]; [limit] is compared as a [size_t]. *)
Fixpoint getRecentPatterns_loop (history : list BehaviorPattern) (user : string)
  (limit : Z) (user_patterns : list BehaviorPattern) : list BehaviorPattern :=
  match history with
  | [] => user_patterns
  | pattern :: rest =>
      if String.eqb (Behavior.user pattern) user then
        let user_patterns := user_patterns ++ [pattern] in
        if limit mod 2 ^ 64 <=? Z.of_nat (List.length user_patterns) then user_patterns
        else getRecentPatterns_loop rest user limit user_patterns
      else getRecentPatterns_loop rest user limit user_patterns
  end.

(** [getRecentPatterns] *)
Definition getRecentPatterns (user : string) (limit : Z) (a : BehaviorAnalyzer)
  : list BehaviorPattern :=
  getRecentPatterns_loop (pattern_history_ a) user limit [].

Definition of_user (user : string) (p : BehaviorPattern) : bool :=
  String.eqb (Behavior.user p) user.

Lemma getRecentPatterns_loop_spec history user limit :
  0 <= limit < 2 ^ 31 ->
  forall acc,
    (List.length acc < Z.to_nat (Z.max 1 limit))%nat ->
    getRecentPatterns_loop history user limit acc
    = acc ++ List.firstn (Z.to_nat (Z.max 1 limit) - List.length acc)
               (List.filter (of_user user) history).
Proof.
  intros Hl.
  induction history as [|p rest IH]; intros acc Hacc.
  - cbn. rewrite List.firstn_nil, app_nil_r. reflexivity.
  - cbn [getRecentPatterns_loop List.filter]. unfold of_user at 1.
    destruct (String.eqb (Behavior.user p) user); [|apply IH; exact Hacc].
    cbn zeta. rewrite Z.mod_small by lia. rewrite List.length_app. cbn [List.length].
    destruct (Z.leb_spec limit (Z.of_nat (List.length acc + 1))) as [Hle|Hgt].
    + replace (Z.to_nat (Z.max 1 limit) - List.length acc)%nat with 1%nat by lia.
      reflexivity.
    + rewrite IH by (rewrite List.length_app; cbn; lia).
      rewrite List.length_app. cbn [List.length].
      replace (Z.to_nat (Z.max 1 limit) - List.length acc)%nat
        with (S (Z.to_nat (Z.max 1 limit) - (List.length acc + 1)))%nat by lia.
      cbn [List.firstn]. rewrite <- app_assoc. reflexivity.
Qed.

(** X24. [getRecentPatterns] returns the oldest patterns of the user that the
    history still holds, [limit] of them at most, in the order they were
    recorded; with a limit of 0 it still returns one. *)
Theorem getRecentPatterns_oldest user limit a :
  0 <= limit < 2 ^ 31 ->
  getRecentPatterns user limit a
  = List.firstn (Z.to_nat (Z.max 1 limit))
      (List.filter (of_user user) (pattern_history_ a)).
Proof.
  intros Hl. unfold getRecentPatterns.
  rewrite getRecentPatterns_loop_spec by (cbn; lia).
  cbn [List.length app]. rewrite Nat.sub_0_r. reflexivity.
Qed.

Lemma getRecentPatterns_oldest_witness :
  List.map timestamp (getRecentPatterns "alice" 1 (run three_logins)) = [100].
Proof.
  rewrite (getRecentPatterns_oldest "alice" 1 (run three_logins)) by lia.
  vm_compute. reflexivity.
Defined.
End BehaviorProps.

(** ** The LLM insight pipeline: from the model's answer to the alert *)

Module LLMProps.
Import LLM.
Local Open Scope llm_scope.

(** *** The kind of an insight *)

Lemma pbind_val {A B} (m : P A) (k : A -> P B) i b i' :
  pbind m k i = (Val b, i') ->
  exists a i1, m i = (Val a, i1) /\ k a i1 = (Val b, i').
Proof.
  unfold pbind. destruct (m i) as [[a|e] i1]; [eauto|discriminate].
Qed.

Definition urgent (i : LLMBehaviorInsight) : bool :=
  String.eqb (severity i) "critical" || String.eqb (severity i) "high".

(** The kind the last statement of the [try] block gives an insight. *)
Definition kind_of (i : LLMBehaviorInsight) : string :=
  if urgent i then "alert"
  else match recommendations i with
       | [] => "pattern"
       | _ :: _ => "recommendation"
       end.

Lemma parse_json_response_kind response i0 i :
  parse_json_response response i0 = (Val tt, i) -> insight_type i = kind_of i.
Proof.
  unfold parse_json_response. intros H.
  repeat (apply pbind_val in H; destruct H as (? & ? & ? & H); cbn beta in H).
  match goal with
  | Hc : current _ = _ |- _ => unfold current in Hc; injection Hc as <- <-
  end.
  unfold assign, kind_of, urgent in *.
  destruct (String.eqb (severity _) "critical" || String.eqb (severity _) "high") eqn:E.
  - injection H as <-. cbn [insight_type severity set_insight_type]. rewrite E.
    reflexivity.
  - destruct (recommendations _) eqn:R; cbn [negb] in H; injection H as <-;
      cbn [insight_type severity recommendations set_insight_type]; rewrite E, ?R;
      reflexivity.
Qed.

Lemma parseLLMResponse_cases response user_id now :
  exists i,
    parseLLMResponse response user_id now = Val i
    /\ (insight_type i = kind_of i
        \/ (insight_type i = "pattern" /\ severity i = "medium"
            /\ confidence_score i = 1 # 2 /\ analysis i = response)).
Proof.
  unfold parseLLMResponse. cbn zeta.
  destruct (parse_json_response response _) as [[[]|e] i] eqn:E.
  - exists i. split; [reflexivity|]. left.
    eapply parse_json_response_kind. exact E.
  - eexists. split; [reflexivity|]. right. repeat split.
Qed.

(** X25. [parseLLMResponse] returns an insight for every response and lets no
    exception escape. The insight is an alert exactly when its severity is
    critical or high; otherwise it is a recommendation when the answer was
    read to the end and carries recommendations, and a pattern in every
    other case. *)
Theorem parseLLMResponse_kinds response user_id now :
  exists i,
    parseLLMResponse response user_id now = Val i
    /\ (insight_type i = "alert" \/ insight_type i = "recommendation"
        \/ insight_type i = "pattern")
    /\ (insight_type i = "alert" <-> urgent i = true)
    /\ (insight_type i = "recommendation" -> recommendations i <> []).
Proof.
  destruct (parseLLMResponse_cases response user_id now) as (i & E & H).
  exists i. split; [exact E|].
  destruct H as [H|(H & Hs & _)]; rewrite H.
  - unfold kind_of. destruct (urgent i); [|destruct (recommendations i)];
      repeat split; auto; try discriminate; intros; discriminate.
  - unfold urgent. rewrite Hs. cbn.
    repeat split; auto; try discriminate; intros; discriminate.
Qed.

(** *** From the insight to the anomaly alert *)

(** The severity the agent's anomaly callback gives the alert it sends for
    a pattern. *)
Definition anomaly_severity (pattern : Behavior.BehaviorPattern) : string :=
  let severity := "low" in
  if Behavior.Qltb (7 # 10) (Behavior.confidence_score pattern) then "high"
  else if Behavior.Qltb (4 # 10) (Behavior.confidence_score pattern) then "medium"
  else severity.

Lemma handleLLMInsight_events insight a :
  snd (Behavior.handleLLMInsight insight a)
  = if negb (String.eqb (Behavior.pattern_type (Behavior.pattern_of_insight insight))
               "normal")
       && Behavior.anomaly_callback_ a
    then [Behavior.anomaly_callback (Behavior.pattern_of_insight insight)]
    else [].
Proof.
  unfold Behavior.handleLLMInsight. cbn [snd].
  destruct (Behavior.user_profiles_ _ !! user insight); reflexivity.
Qed.


(** X27. An answer that is not JSON ends as an alert of medium severity: the
    fallback insight is recorded as an anomalous pattern of confidence 0.5
    for the user, and the anomaly callback is invoked for it. *)
Theorem unparsed_answer_raises_alert response user_id now e a :
  Json.parse response = Throw e ->
  Behavior.anomaly_callback_ a = true ->
  exists i pattern,
    parseLLMResponse response user_id now = Val i
    /\ snd (Behavior.handleLLMInsight i a) = [Behavior.anomaly_callback pattern]
    /\ Behavior.user pattern = user_id
    /\ Behavior.pattern_type pattern = "anomalous"
    /\ Behavior.confidence_score pattern = 1 # 2
    /\ anomaly_severity pattern = "medium".
Proof.
  intros Hp Ha.
  assert (E : parseLLMResponse response user_id now
              = Val (mkInsight user_id "pattern" "medium" (1 # 2) "LLM analysis completed"
                       response [] now)).
  { unfold parseLLMResponse, parse_json_response, pbind, plift. rewrite Hp. reflexivity. }
  eexists _, _. split; [exact E|].
  rewrite handleLLMInsight_events, Ha.
  split; [reflexivity|]. repeat split.
Qed.

Lemma unparsed_answer_raises_alert_witness :
  exists i pattern,
    parseLLMResponse "The user shows no unusual behaviour." "alice" 1700000000 = Val i
    /\ snd (Behavior.handleLLMInsight i (Behavior.setAnomalyCallback Behavior.new_analyzer))
       = [Behavior.anomaly_callback pattern]
    /\ anomaly_severity pattern = "medium".
Proof.
  destruct (unparsed_answer_raises_alert
              "The user shows no unusual behaviour." "alice" 1700000000
              (parse_error "[json.exception.parse_error.101] syntax error")
              (Behavior.setAnomalyCallback Behavior.new_analyzer)
              ltac:(vm_compute; reflexivity) ltac:(reflexivity))
    as (i & pattern & H1 & H2 & _ & _ & _ & H3).
  exists i, pattern. auto.
Defined.

(** *** The analyzer's data and its mutex *)

Record UserBehaviorContext : Type := mkContext {
  user_id : string;
  recent_activities : list string;
  behavior_metrics : gmap string Q;
  risk_indicators : list string;
  last_analysis : Z
}.

(** The fields of [LLMBehaviorAnalyzer] that the data management and the
    analysis use; [data_mutex_] says whether the running thread holds the
    mutex, the callback field whether a callback is registered. *)
Record LLMBehaviorAnalyzer : Type := mkAnalyzer {
  real_time_enabled_ : bool;
  llm_provider_ : string;
  analysis_interval_ : Z;
  user_contexts_ : gmap string UserBehaviorContext;
  insights_history_ : list LLMBehaviorInsight;
  insight_callback_ : bool;
  pending_analyses_ : list string;
  data_mutex_ : bool
}.

Definition set_contexts (c : gmap string UserBehaviorContext) (st : LLMBehaviorAnalyzer)
  : LLMBehaviorAnalyzer :=
  mkAnalyzer (real_time_enabled_ st) (llm_provider_ st) (analysis_interval_ st) c
    (insights_history_ st) (insight_callback_ st) (pending_analyses_ st) (data_mutex_ st).

Definition set_insights (h : list LLMBehaviorInsight) (st : LLMBehaviorAnalyzer)
  : LLMBehaviorAnalyzer :=
  mkAnalyzer (real_time_enabled_ st) (llm_provider_ st) (analysis_interval_ st)
    (user_contexts_ st) h (insight_callback_ st) (pending_analyses_ st) (data_mutex_ st).

Definition set_pending (p : list string) (st : LLMBehaviorAnalyzer) : LLMBehaviorAnalyzer :=
  mkAnalyzer (real_time_enabled_ st) (llm_provider_ st) (analysis_interval_ st)
    (user_contexts_ st) (insights_history_ st) (insight_callback_ st) p (data_mutex_ st).

Definition set_mutex (b : bool) (st : LLMBehaviorAnalyzer) : LLMBehaviorAnalyzer :=
  mkAnalyzer (real_time_enabled_ st) (llm_provider_ st) (analysis_interval_ st)
    (user_contexts_ st) (insights_history_ st) (insight_callback_ st)
    (pending_analyses_ st) b.

(** How a call ends: it returns, with the new state and the insights
    handed to the insight callback, or it locks [data_mutex_] while the
    running thread holds it, which a [std::mutex] does not allow (in
    practice the thread blocks for ever). *)
Inductive Outcome : Type :=
| Done (st : LLMBehaviorAnalyzer) (handed : list LLMBehaviorInsight)
| Relock.

(** [std::lock_guard<std::mutex> lock(data_mutex_)] around a body. *)
Definition lock_guard (body : LLMBehaviorAnalyzer -> Outcome) (st : LLMBehaviorAnalyzer)
  : Outcome :=
  if data_mutex_ st then Relock
  else
    match body (set_mutex true st) with
    | Done st' handed => Done (set_mutex false st') handed
    | Relock => Relock
    end.

(** [user_contexts_[user_id]] after the test that creates a missing
    context. *)
Definition context_of (user : string) (now : Z) (st : LLMBehaviorAnalyzer)
  : UserBehaviorContext :=
  match user_contexts_ st !! user with
  | Some context => context
  | None => mkContext user [] ∅ [] now
  end.

(** [analyzeUserBehavior], at time [now]. *)
Definition analyzeUserBehavior (user : string) (activities : list string)
  (metrics : gmap string Q) (now : Z) : LLMBehaviorAnalyzer -> Outcome :=
  lock_guard (fun st =>
    let context := context_of user now st in
    let recent := recent_activities context ++ activities in
    let recent :=
      if Nat.ltb 100 (List.length recent)
      then List.skipn (List.length recent - 100) recent else recent in
    let context := mkContext (user_id context) recent metrics (risk_indicators context) now in
    let st := set_contexts (<[user := context]> (user_contexts_ st)) st in
    let st :=
      if real_time_enabled_ st then set_pending (pending_analyses_ st ++ [user]) st
      else st in
    Done st []).

(** [addBehaviorData], at time [now]. *)
Definition addBehaviorData (user activity : string) (now : Z)
  : LLMBehaviorAnalyzer -> Outcome :=
  lock_guard (fun st =>
    let context := context_of user now st in
    let recent := recent_activities context ++ [activity] in
    let recent := if Nat.ltb 100 (List.length recent) then List.tl recent else recent in
    let context :=
      mkContext (user_id context) recent (behavior_metrics context)
        (risk_indicators context) (last_analysis context) in
    Done (set_contexts (<[user := context]> (user_contexts_ st)) st) []).

(** No context holds more than 100 activities. *)
Definition bounded (st : LLMBehaviorAnalyzer) : Prop :=
  forall u c, user_contexts_ st !! u = Some c ->
              (List.length (recent_activities c) <= 100)%nat.

Definition activities_of (user : string) (st : LLMBehaviorAnalyzer) : list string :=
  match user_contexts_ st !! user with
  | Some context => recent_activities context
  | None => []
  end.

Lemma bounded_insert st user context :
  bounded st ->
  (List.length (recent_activities context) <= 100)%nat ->
  forall u c, <[user := context]> (user_contexts_ st) !! u = Some c ->
              (List.length (recent_activities c) <= 100)%nat.
Proof.
  intros Hb Hc u c. destruct (decide (user = u)) as [<-|Hne].
  - rewrite lookup_insert_eq. intros [= <-]. exact Hc.
  - rewrite lookup_insert_ne by exact Hne. apply Hb.
Qed.

Lemma last_n_short {A} (n : nat) (l : list A) :
  (List.length l <= n)%nat -> Behavior.last_n n l = l.
Proof.
  intros H. unfold Behavior.last_n.
  replace (List.length l - n)%nat with 0%nat by lia. reflexivity.
Qed.

(** X28. Both ways of adding activities keep every context at 100 activities
    at most, the newest ones, in their order; [analyzeUserBehavior] also
    replaces the metrics and queues the user when real-time analysis is
    enabled. Neither fails when the mutex is free. *)
Theorem recent_activities_bounded st user activities activity metrics now :
  data_mutex_ st = false ->
  bounded st ->
  (exists st',
      analyzeUserBehavior user activities metrics now st = Done st' []
      /\ bounded st'
      /\ activities_of user st' = Behavior.last_n 100 (activities_of user st ++ activities)
      /\ behavior_metrics <$> (user_contexts_ st' !! user) = Some metrics
      /\ pending_analyses_ st'
         = pending_analyses_ st ++ (if real_time_enabled_ st then [user] else [])
      /\ data_mutex_ st' = false)
  /\ (exists st',
        addBehaviorData user activity now st = Done st' []
        /\ bounded st'
        /\ activities_of user st' = Behavior.last_n 100 (activities_of user st ++ [activity])
        /\ pending_analyses_ st' = pending_analyses_ st
        /\ data_mutex_ st' = false).
Proof.
  intros Hm Hb.
  assert (Hold : (List.length (activities_of user st) <= 100)%nat).
  { unfold activities_of. destruct (user_contexts_ st !! user) as [c|] eqn:E;
      [exact (Hb _ _ E)|cbn; lia]. }
  assert (Hctx : recent_activities (context_of user now (set_mutex true st))
                 = activities_of user st).
  { unfold context_of, activities_of. cbn [user_contexts_ set_mutex].
    destruct (user_contexts_ st !! user); reflexivity. }
  split.
  - unfold analyzeUserBehavior, lock_guard. rewrite Hm. cbn zeta. rewrite Hctx.
    set (recent := activities_of user st ++ activities).
    assert (Hr : (if Nat.ltb 100 (List.length recent)
                  then List.skipn (List.length recent - 100) recent else recent)
                 = Behavior.last_n 100 recent).
    { destruct (Nat.ltb_spec 100 (List.length recent)); [reflexivity|].
      symmetry. apply last_n_short. lia. }
    rewrite Hr.
    assert (Hlen : (List.length (Behavior.last_n 100 recent) <= 100)%nat).
    { unfold Behavior.last_n. rewrite List.length_skipn. lia. }
    cbn [real_time_enabled_ set_contexts set_mutex].
    destruct (real_time_enabled_ st); eexists; (split; [reflexivity|]);
      cbn [user_contexts_ set_contexts set_pending set_mutex pending_analyses_
           data_mutex_];
      (split; [intros u c; apply bounded_insert; [exact Hb|exact Hlen]|]);
      unfold activities_of at 1;
      cbn [user_contexts_ set_contexts set_pending set_mutex];
      rewrite lookup_insert_eq; cbn [recent_activities fmap option_fmap option_map
                                     behavior_metrics];
      rewrite ?app_nil_r; auto.
  - unfold addBehaviorData, lock_guard. rewrite Hm. cbn zeta. rewrite Hctx.
    set (recent := activities_of user st ++ [activity]).
    assert (Hl : List.length recent = S (List.length (activities_of user st)))
      by (unfold recent; rewrite List.length_app; cbn; lia).
    assert (Hr : (if Nat.ltb 100 (List.length recent) then List.tl recent else recent)
                 = Behavior.last_n 100 recent).
    { unfold Behavior.last_n.
      destruct (Nat.ltb_spec 100 (List.length recent)).
      - replace (List.length recent - 100)%nat with 1%nat by lia.
        destruct recent; reflexivity.
      - replace (List.length recent - 100)%nat with 0%nat by lia. reflexivity. }
    rewrite Hr.
    assert (Hlen : (List.length (Behavior.last_n 100 recent) <= 100)%nat).
    { unfold Behavior.last_n. rewrite List.length_skipn. lia. }
    eexists. split; [reflexivity|].
    cbn [user_contexts_ set_contexts set_mutex pending_analyses_ data_mutex_].
    split; [intros u c; apply bounded_insert; [exact Hb|exact Hlen]|].
    unfold activities_of at 1. cbn [user_contexts_ set_contexts set_mutex].
    rewrite lookup_insert_eq. auto.
Qed.

(** The analyzer as constructed, after it has seen a hundred activities of
    one user, a login first. *)
Definition busy_analyzer : LLMBehaviorAnalyzer :=
  mkAnalyzer false "openai" 300
    {[ "alice" := mkContext "alice" ("login" :: List.repeat "mail" 99) ∅ [] 0 ]}
    [] false [] false.

Lemma recent_activities_bounded_witness :
  (exists st',
      analyzeUserBehavior "alice" ["copy"; "upload"] ∅ 100 busy_analyzer = Done st' []
      /\ activities_of "alice" st' = List.repeat "mail" 98 ++ ["copy"; "upload"])
  /\ (exists st',
        addBehaviorData "alice" "upload" 100 busy_analyzer = Done st' []
        /\ activities_of "alice" st' = List.repeat "mail" 99 ++ ["upload"]).
Proof.
  destruct (recent_activities_bounded busy_analyzer "alice" ["copy"; "upload"] "upload"
              ∅ 100
              ltac:(reflexivity)
              ltac:(intros u c H; cbn [busy_analyzer user_contexts_] in H;
                    apply lookup_singleton_Some in H;
                    destruct H as [_ <-]; simpl; lia))
    as [(st1 & H1 & _ & H2 & _) (st2 & H3 & _ & H4 & _)].
  split; [exists st1|exists st2]; (split; [assumption|]).
  - rewrite H2. vm_compute. reflexivity.
  - rewrite H4. vm_compute. reflexivity.
Defined.

(** *** The periodic analysis *)

Section Provider.

(** The model's answer to the prompt built for a user, by provider: what
    [analyzeWithOpenAI], [analyzeWithAnthropic] or [analyzeWithLocalModel]
    returns or throws. *)
Variable analyzeWith : string -> string -> LLMBehaviorAnalyzer -> Res string.

Definition known_provider (provider : string) : bool :=
  String.eqb provider "openai" || String.eqb provider "anthropic"
  || String.eqb provider "local".

(** [storeInsight] *)
Definition storeInsight (insight : LLMBehaviorInsight) : LLMBehaviorAnalyzer -> Outcome :=
  lock_guard (fun st =>
    let history := insights_history_ st ++ [insight] in
    let history := if Nat.ltb 1000 (List.length history) then List.tl history else history in
    Done (set_insights history st) []).

(** [analyzeRiskPatterns], at time [now]; what the [try] block throws is
    caught. *)
Definition analyzeRiskPatterns (user : string) (now : Z) (st : LLMBehaviorAnalyzer)
  : Outcome :=
  match user_contexts_ st !! user with
  | None => Done st []
  | Some _ =>
      let response :=
        if known_provider (llm_provider_ st) then analyzeWith (llm_provider_ st) user st
        else Val EmptyString in
      match response with
      | Throw _ => Done st []
      | Val response =>
          if Str.empty response then Done st []
          else
            match parseLLMResponse response user now with
            | Throw _ => Done st []
            | Val insight =>
                match storeInsight insight st with
                | Relock => Relock
                | Done st' _ => Done st' (if insight_callback_ st' then [insight] else [])
                end
            end
      end
  end.

(** [pending_analyses_.erase(it)] for the first occurrence. *)
Fixpoint remove_first (user : string) (pending : list string) : list string :=
  match pending with
  | [] => []
  | x :: rest => if String.eqb x user then rest else x :: remove_first user rest
  end.

Definition set_last_analysis (now : Z) (c : UserBehaviorContext) : UserBehaviorContext :=
  mkContext (user_id c) (recent_activities c) (behavior_metrics c) (risk_indicators c) now.

(** The loop of [performBehavioralAnalysis] over the contexts. *)
Fixpoint analysis_loop (users : list string) (now : Z) (st : LLMBehaviorAnalyzer)
  (handed : list LLMBehaviorInsight) : Outcome :=
  match users with
  | [] => Done st handed
  | user :: rest =>
      match user_contexts_ st !! user with
      | None => analysis_loop rest now st handed
      | Some context =>
          let time_since_analysis := now - last_analysis context in
          let in_pending := List.existsb (String.eqb user) (pending_analyses_ st) in
          if in_pending || (analysis_interval_ st <=? time_since_analysis) then
            match analyzeRiskPatterns user now st with
            | Relock => Relock
            | Done st h =>
                let st :=
                  match user_contexts_ st !! user with
                  | Some context =>
                      set_contexts
                        (<[user := set_last_analysis now context]> (user_contexts_ st)) st
                  | None => st
                  end in
                let st :=
                  if in_pending
                  then set_pending (remove_first user (pending_analyses_ st)) st
                  else st in
                analysis_loop rest now st (handed ++ h)
            end
          else analysis_loop rest now st handed
      end
  end.

(** [performBehavioralAnalysis], at time [now]. *)
Definition performBehavioralAnalysis (now : Z) : LLMBehaviorAnalyzer -> Outcome :=
  lock_guard (fun st =>
    analysis_loop (List.map fst (map_to_list (user_contexts_ st))) now st []).

(** A user is due when queued, or when the user's last analysis is at least
    the interval ago. *)
Definition due (user : string) (now : Z) (st : LLMBehaviorAnalyzer) : Prop :=
  exists context,
    user_contexts_ st !! user = Some context
    /\ (In user (pending_analyses_ st)
        \/ analysis_interval_ st <= now - last_analysis context).

Lemma in_remove_first user other pending :
  other <> user -> In user pending -> In user (remove_first other pending).
Proof.
  intros Hne. induction pending as [|x rest IH]; [intros []|].
  cbn [remove_first]. destruct (String.eqb_spec x other) as [->|_].
  - intros [H|H]; [congruence|exact H].
  - intros [H|H]; [left; exact H|right; auto].
Qed.

Lemma storeInsight_locked insight st :
  data_mutex_ st = true -> storeInsight insight st = Relock.
Proof. intros H. unfold storeInsight, lock_guard. rewrite H. reflexivity. Qed.

Lemma analyzeRiskPatterns_locked user now st :
  data_mutex_ st = true ->
  analyzeRiskPatterns user now st = Relock
  \/ analyzeRiskPatterns user now st = Done st [].
Proof.
  intros H. unfold analyzeRiskPatterns.
  destruct (user_contexts_ st !! user); [|auto].
  cbn zeta.
  destruct (if known_provider _ then _ else _) as [response|e]; [|auto].
  destruct (Str.empty response); [auto|].
  destruct (parseLLMResponse response user now); [|auto].
  rewrite storeInsight_locked by exact H. auto.
Qed.

Lemma analysis_loop_relocks now provider user response users :
  known_provider provider = true ->
  (forall st, analyzeWith provider user st = Val response) ->
  Str.empty response = false ->
  forall st handed,
    In user users ->
    data_mutex_ st = true ->
    llm_provider_ st = provider ->
    due user now st ->
    analysis_loop users now st handed = Relock.
Proof.
  intros Hk Hans Hne.
  induction users as [|k rest IH]; intros st handed Hin Hm Hp Hdue; [destruct Hin|].
  cbn [analysis_loop].
  destruct (decide (k = user)) as [->|Hku].
  - destruct Hdue as (context & Hc & Hd). rewrite Hc. cbn zeta.
    assert (E : List.existsb (String.eqb user) (pending_analyses_ st)
                || (analysis_interval_ st <=? now - last_analysis context) = true).
    { destruct Hd as [Hd|Hd].
      - apply orb_true_iff. left. apply List.existsb_exists.
        exists user. split; [exact Hd|apply String.eqb_refl].
      - apply orb_true_iff. right. apply Z.leb_le. exact Hd. }
    rewrite E. unfold analyzeRiskPatterns. rewrite Hc, Hp, Hk, Hans, Hne.
    destruct (parseLLMResponse_cases response user now) as (i & -> & _).
    rewrite storeInsight_locked by exact Hm. reflexivity.
  - destruct Hin as [Hin|Hin]; [contradiction|].
    destruct (user_contexts_ st !! k) as [ck|] eqn:Ek; [|apply IH; assumption].
    cbn zeta.
    destruct (List.existsb (String.eqb k) (pending_analyses_ st)
              || (analysis_interval_ st <=? now - last_analysis ck)); [|apply IH; assumption].
    destruct (analyzeRiskPatterns_locked k now st Hm) as [->| ->]; [reflexivity|].
    rewrite Ek.
    destruct Hdue as (context & Hc & Hd).
    apply IH; try assumption.
    + destruct (List.existsb (String.eqb k) (pending_analyses_ st)); exact Hm.
    + destruct (List.existsb (String.eqb k) (pending_analyses_ st)); exact Hp.
    + exists context.
      destruct (List.existsb (String.eqb k) (pending_analyses_ st));
        cbn [user_contexts_ set_contexts set_pending pending_analyses_ analysis_interval_];
        (split; [rewrite lookup_insert_ne by exact Hku; exact Hc|]);
        (destruct Hd as [Hd|Hd]; [left|right; exact Hd]);
        [apply in_remove_first; assumption|exact Hd].
Qed.

(** X29. A periodic analysis that gets an answer never returns: the loop of
    [performBehavioralAnalysis] runs under [data_mutex_], and
    [analyzeRiskPatterns] passes every non-empty answer to [storeInsight],
    which locks the same mutex. This happens as soon as one user is due and
    the provider answers for that user. Called with the mutex free,
    [analyzeRiskPatterns] stores the insight, the oldest one dropped above
    1000, and hands it to the callback. *)
Theorem performBehavioralAnalysis_relocks now st user response :
  data_mutex_ st = false ->
  due user now st ->
  known_provider (llm_provider_ st) = true ->
  (forall st', analyzeWith (llm_provider_ st) user st' = Val response) ->
  Str.empty response = false ->
  performBehavioralAnalysis now st = Relock
  /\ exists insight st',
       parseLLMResponse response user now = Val insight
       /\ analyzeRiskPatterns user now st
          = Done st' (if insight_callback_ st then [insight] else [])
       /\ insights_history_ st'
          = (if Nat.ltb 1000 (List.length (insights_history_ st ++ [insight]))
             then List.tl (insights_history_ st ++ [insight])
             else insights_history_ st ++ [insight])
       /\ data_mutex_ st' = false.
Proof.
  intros Hm Hdue Hk Hans Hne. split.
  - unfold performBehavioralAnalysis, lock_guard. rewrite Hm.
    rewrite (analysis_loop_relocks now (llm_provider_ st) user response); auto.
    + destruct Hdue as (context & Hc & _).
      apply List.in_map_iff. exists (user, context). split; [reflexivity|].
      apply list_elem_of_In, elem_of_map_to_list. exact Hc.
  - destruct (parseLLMResponse_cases response user now) as (i & E & _).
    destruct Hdue as (context & Hc & _).
    exists i. eexists. split; [exact E|].
    unfold analyzeRiskPatterns. rewrite Hc, Hk, Hans, Hne, E.
    unfold storeInsight, lock_guard. rewrite Hm.
    cbn [insight_callback_ set_insights set_mutex insights_history_ data_mutex_].
    repeat split.
Qed.

End Provider.

(** A provider that answers every prompt with the same low-risk verdict,
    and an analyzer that holds a context for one user whose analysis is
    due. *)
Definition low_risk_answer : string := Json.dq "{'risk_level': 'low'}".

Definition answering (provider user : string) (st : LLMBehaviorAnalyzer) : Res string :=
  Val low_risk_answer.

Definition due_analyzer : LLMBehaviorAnalyzer :=
  mkAnalyzer false "openai" 300 {[ "alice" := mkContext "alice" ["login"] ∅ [] 0 ]}
    [] true [] false.

Lemma performBehavioralAnalysis_relocks_witness :
  performBehavioralAnalysis answering 300 due_analyzer = Relock.
Proof.
  apply (performBehavioralAnalysis_relocks answering 300 due_analyzer "alice"
           low_risk_answer).
  - reflexivity.
  - exists (mkContext "alice" ["login"] ∅ [] 0). split; [reflexivity|].
    right. simpl. lia.
  - reflexivity.
  - intros st'. reflexivity.
  - reflexivity.
Defined.
End LLMProps.
